(** * fQuery and the student-list pagination widget

    A shallow embedding of [fquery.js] (the DOM micro-library) and of
    [pagination.js] (the page controller), with the properties the
    specification states about them.

    Layout of the development:
    - [Str]    : the string primitives the scripts use ([split], [replace],
                 [includes], regular-expression tests);
    - [Path]   : selector aliasing and path resolution ([on]);
    - [Js]     : values, numbers and the coercions of [==] and arithmetic;
    - [Util]   : the object helper [extend] and its data;
    - [Dom]    : the element store and the node tree of the browser;
    - [FQuery] : the library functions;
    - [Pagination] : the page controller;
    - the theorems. *)

From Stdlib Require Import ZArith Ascii String List Bool Lia.
From Stdlib Require QArith.Qround.
From Stdlib Require Import DecimalString DecimalPos DecimalZ.
From stdpp Require Import base option list gmap strings fin_maps.

Set Warnings "-register-all".

Local Open Scope string_scope.
Local Open Scope list_scope.

(** String concatenation unfolds on a constructor, as list concatenation
    does. *)
#[local] Arguments String.append !s1 s2 : simpl nomatch.

(* ===================================================================== *)
(** ** Strings *)
(* ===================================================================== *)

Module Str.

(** [chr c] is the one-character string. *)
Definition chr (c : ascii) : string := String c EmptyString.

Definition dot : ascii := ".".
Definition gt : ascii := ">".

(** [String.prototype.split(sep)] for a one-character separator: the
    pieces between the separators, empty pieces included; the empty
    string splits into one empty piece. *)
Fixpoint split (sep : ascii) (s : string) : list string :=
  match s with
  | EmptyString => [EmptyString]
  | String c r =>
      if Ascii.eqb c sep then EmptyString :: split sep r
      else match split sep r with
           | k :: ks => String c k :: ks
           | [] => [chr c]
           end
  end.

(** [String.prototype.replace(/c/g, by)]: every occurrence of the
    character [c] is replaced. *)
Fixpoint replace_all (c : ascii) (by_ : string) (s : string) : string :=
  match s with
  | EmptyString => EmptyString
  | String x r =>
      if Ascii.eqb x c then by_ +:+ replace_all c by_ r
      else String x (replace_all c by_ r)
  end.

(** [/c/.test(s)]: the character occurs somewhere in [s]. *)
Fixpoint contains_char (c : ascii) (s : string) : bool :=
  match s with
  | EmptyString => false
  | String x r => Ascii.eqb x c || contains_char c r
  end.

(** [/^c/.test(s)]: the string starts with the character. *)
Definition starts_with_char (c : ascii) (s : string) : bool :=
  match s with
  | String x _ => Ascii.eqb x c
  | EmptyString => false
  end.

(** [String.prototype.includes]: [t] occurs in [s] as a substring. *)
Fixpoint includes (s t : string) : bool :=
  String.prefix t s ||
  match s with
  | EmptyString => false
  | String _ r => includes r t
  end.

Definition nonempty (s : string) : bool :=
  match s with EmptyString => false | _ => true end.

(** A decimal digit. *)
Definition is_digit (c : ascii) : bool :=
  let n := nat_of_ascii c in Nat.leb 48 n && Nat.leb n 57.

(** Every character of the string satisfies [P]. *)
Fixpoint all_chars (P : ascii -> bool) (s : string) : bool :=
  match s with
  | EmptyString => true
  | String c r => P c && all_chars P r
  end.

End Str.

(* ===================================================================== *)
(** ** Path resolution: [styleAlias], [childAlias], [prop], [on] *)
(* ===================================================================== *)

Module Path.

(** The alias test result object [{ test, alias }]. *)
Record aliasObject := { test : bool; alias : string }.

(** [function styleAlias(value)]:
    [{ test: /^\./.test(value), alias: "style" + value }]. *)
Definition styleAlias (value : string) : aliasObject :=
  {| test := Str.starts_with_char Str.dot value;
     alias := "style" +:+ value |}.

(** [function childAlias(value)]:
    [{ test: />/.test(value), alias: value.replace(/>/gi, '.children.') }]. *)
Definition childAlias (value : string) : aliasObject :=
  {| test := Str.contains_char Str.gt value;
     alias := Str.replace_all Str.gt ".children." value |}.

(** [function selectorValidator(...bools)]: a left fold that keeps the
    result of the last predicate whose test holds. *)
Definition selectorValidator (bools : list (string -> aliasObject))
    (value : string) : aliasObject :=
  fold_left
    (fun first next => let current := next value in
                       if test current then current else first)
    bools {| test := false; alias := "" |}.

(** [function propWrapper(engine, ...tests)]. *)
Definition propWrapper {A} (engine : string -> A)
    (tests : list (string -> aliasObject)) (property : string) : A :=
  let alias_ := selectorValidator tests property in
  if test alias_ then engine (alias alias_) else engine property.

(** [function prop(property)]:
    [property.split('.').filter((key) => key !== "")]. *)
Definition prop (property : string) : list string :=
  List.filter Str.nonempty (Str.split Str.dot property).

(** [var on = propWrapper(prop, styleAlias, childAlias)]. *)
Definition on : string -> list string :=
  propWrapper prop [styleAlias; childAlias].

End Path.

(* ===================================================================== *)
(** ** JavaScript values and coercions *)
(* ===================================================================== *)

Module Js.

(** Element identities (object references of the DOM). *)
Definition loc := nat.

(** Numbers.  The scripts compute with array lengths and page indices
    only; [Num z] is the integer-valued Number [z] and [NaN] is
    not-a-number.  Arithmetic is exact, as it is in JavaScript for
    integers below 2^53. *)
Inductive number := Num (z : Z) | NaN.

(** Values.  An element is known by its identity; its [style]
    declaration and its live [children] collection are the objects
    [VStyle l] and [VChildren l] of the same element. *)
Inductive value :=
| VUndef
| VNull
| VBool (b : bool)
| VNumber (n : number)
| VStr (s : string)
| VElem (l : loc)
| VStyle (l : loc)
| VChildren (l : loc)
| VArr (xs : list value).

(** [typeof value === 'string']. *)
Definition isString (v : value) : bool :=
  match v with VStr _ => true | _ => false end.

(** [ToBoolean]. *)
Definition truthy (v : value) : bool :=
  match v with
  | VUndef | VNull => false
  | VBool b => b
  | VNumber (Num z) => negb (Z.eqb z 0)
  | VNumber NaN => false
  | VStr s => Str.nonempty s
  | VElem _ | VStyle _ | VChildren _ | VArr _ => true
  end.

(** *** Number to string and back *)

(** [Number.prototype.toString] on an integer: its decimal numeral. *)
Definition NumberToString (z : Z) : string :=
  NilZero.string_of_int (Z.to_int z).

Definition is_space (c : ascii) : bool :=
  let n := nat_of_ascii c in
  Nat.eqb n 32 || (Nat.leb 9 n && Nat.leb n 13).

Fixpoint ltrim (s : string) : string :=
  match s with
  | String c r => if is_space c then ltrim r else s
  | EmptyString => EmptyString
  end.

Fixpoint rtrim (s : string) : string :=
  match s with
  | EmptyString => EmptyString
  | String c r =>
      match rtrim r with
      | EmptyString => if is_space c then EmptyString else Str.chr c
      | r' => String c r'
      end
  end.

(** [String.prototype.trim] on ASCII text, where the white space is the
    space and the characters 9 to 13. *)
Definition trim (s : string) : string := rtrim (ltrim s).

(** A character that can start a numeric literal: a sign, a digit, a
    dot or the [I] of [Infinity]; and characters outside ASCII, which
    may be white space of the literal grammar. *)
Definition may_start_numeral (c : ascii) : bool :=
  let n := nat_of_ascii c in
  (Nat.leb 48 n && Nat.leb n 57) || Nat.eqb n 43 || Nat.eqb n 45
  || Nat.eqb n 46 || Nat.eqb n 73 || Nat.leb 128 n.

(** [StringToNumber]: the trimmed string is read as a numeric literal.
    The empty string is 0, an optionally signed decimal integer is that
    integer, and a string that cannot start a numeral is [NaN].  Other
    numerals (fractions, exponents, hexadecimal, [Infinity]) are outside
    the modelled numbers: [None]. *)
Definition StringToNumber (s : string) : option number :=
  match trim s with
  | EmptyString => Some (Num 0)
  | String c r as t =>
      let digits := if Ascii.eqb c "+" then r else t in
      match NilZero.int_of_string digits with
      | Some d =>
          if Ascii.eqb c "+" && Str.starts_with_char "-" r then Some NaN
          else Some (Num (Z.of_int d))
      | None => if may_start_numeral c then None else Some NaN
      end
  end.

(** [ToNumber]; [None] where the coercion is not modelled (objects). *)
Definition ToNumber (v : value) : option number :=
  match v with
  | VUndef => Some NaN
  | VNull => Some (Num 0)
  | VBool b => Some (Num (if b then 1 else 0))
  | VNumber n => Some n
  | VStr s => StringToNumber s
  | VElem _ | VStyle _ | VChildren _ | VArr _ => None
  end.

Definition num_sub (a b : number) : number :=
  match a, b with Num x, Num y => Num (x - y) | _, _ => NaN end.

Definition num_mul (a b : number) : number :=
  match a, b with Num x, Num y => Num (x * y) | _, _ => NaN end.

Definition num_eqb (a b : number) : bool :=
  match a, b with Num x, Num y => Z.eqb x y | _, _ => false end.

(** [v == n] for a Number [n] (abstract equality): a string or boolean
    operand is converted to a number, [undefined] and [null] equal no
    number, an object operand is not modelled. *)
Definition loose_eq_number (v : value) (n : number) : option bool :=
  match v with
  | VUndef | VNull => Some false
  | VBool _ | VNumber _ | VStr _ =>
      match ToNumber v with
      | Some m => Some (num_eqb m n)
      | None => None
      end
  | VElem _ | VStyle _ | VChildren _ | VArr _ => None
  end.

(** [v == s] for a String [s]. *)
Definition loose_eq_string (v : value) (s : string) : option bool :=
  match v with
  | VUndef | VNull => Some false
  | VStr t => Some (String.eqb t s)
  | VBool _ | VNumber _ =>
      match ToNumber v, StringToNumber s with
      | Some m, Some n => Some (num_eqb m n)
      | _, _ => None
      end
  | VElem _ | VStyle _ | VChildren _ | VArr _ => None
  end.

(** [ToString] of a value concatenated into a string; integers and
    strings only. *)
Definition ToString (v : value) : option string :=
  match v with
  | VStr s => Some s
  | VNumber (Num z) => Some (NumberToString z)
  | VNumber NaN => Some "NaN"
  | VUndef => Some "undefined"
  | VNull => Some "null"
  | VBool b => Some (if b then "true" else "false")
  | _ => None
  end.

(** An array index written canonically. *)
Definition key_index (key : string) : option nat :=
  match NilZero.uint_of_string key with
  | Some d =>
      let i := Nat.of_uint d in
      if String.eqb (NumberToString (Z.of_nat i)) key then Some i else None
  | None => None
  end.

(** [Math.ceil(n / d)] on integers, through the rationals. *)
Definition Math_ceil_div (n d : Z) : Z :=
  Qround.Qceiling (QArith_base.Qdiv (QArith_base.inject_Z n) (QArith_base.inject_Z d)).

End Js.

(* ===================================================================== *)
(** ** The object helper of the library: [extend] *)
(* ===================================================================== *)

Module Util.
Import Js.

(** The data [extend] is applied to: primitives, arrays, and objects as
    finite maps from their own enumerable keys to data.  The data is
    finite and acyclic, and an object has no inherited enumerable key. *)
Inductive data :=
| DUndef
| DNull
| DBool (b : bool)
| DNumber (n : number)
| DStr (s : string)
| DArr (items : list data)
| DObj (props : gmap string data).

(** What [extend] assigns to [obj1[key]] for the value [v = obj2[key]]:
    [(typeof v === 'object' && !Array.isArray(v)) ? extend(v) : v].
    [typeof null] is ['object'], and [extend(null)] has no key to visit;
    [extend(v)] for an object [v] is the reduction of [[v]] from [{}]. *)
Fixpoint stored (v : data) : data :=
  match v with
  | DNull => DObj ∅
  | DObj obj2 =>
      DObj (map_fold (fun key w (obj1 : gmap string data) => <[key := stored w]> obj1)
              ∅ obj2)
  | _ => v
  end.

(** [function extend(/* arguments */)], for arguments that are objects:
    [argsIn.reduce(function(obj1, obj2) { for (var key in obj2) { obj1[key]
    = ...; } return obj1; }, {})]. *)
Definition extend (argsIn : list (gmap string data)) : gmap string data :=
  fold_left
    (fun obj1 obj2 =>
       map_fold (fun key w (obj1 : gmap string data) => <[key := stored w]> obj1)
         obj1 obj2)
    argsIn ∅.

(** No property is [null], in the object and in the objects below it
    (arrays are not entered). *)
Fixpoint without_null (v : data) : bool :=
  match v with
  | DNull => false
  | DObj props => map_fold (fun _ w rest => without_null w && rest) true props
  | _ => true
  end.

(** The number of objects nested in a value, for induction. *)
Fixpoint depth_sum (v : data) : nat :=
  match v with
  | DObj props => S (map_fold (fun _ w n => depth_sum w + n) 0 props)
  | _ => 0
  end.

(** [{name: "a", tags: ["x", null], address: {city: "b", zip: null},
    phone: null}]. *)
Definition sample_person : gmap string data :=
  <["name" := DStr "a"]>
    (<["tags" := DArr [DStr "x"; DNull]]>
       (<["address" := DObj (<["city" := DStr "b"]> (<["zip" := DNull]> ∅))]>
          (<["phone" := DNull]> ∅))).

(** [{name: "a", address: {city: "b"}}]. *)
Definition sample_plain : gmap string data :=
  <["name" := DStr "a"]> (<["address" := DObj (<["city" := DStr "b"]> ∅)]> ∅).

End Util.

(* ===================================================================== *)
(** ** The browser: element store and node tree *)
(* ===================================================================== *)

Module Dom.
Import Js.

(** An element as the scripts see it: its own string-valued DOM
    properties and expandos ([className], [id], [innerHTML], [value],
    [$$$display], ...), its inline style declaration, and the [display]
    value the style sheets give it. *)
Record element := {
  tag : string;
  attrs : gmap string value;
  style : gmap string value;
  sheetDisplay : string;
}.

Definition with_attrs (e : element) (a : gmap string value) : element :=
  {| tag := tag e; attrs := a; style := style e;
     sheetDisplay := sheetDisplay e |}.

Definition with_style (e : element) (s : gmap string value) : element :=
  {| tag := tag e; attrs := attrs e; style := s;
     sheetDisplay := sheetDisplay e |}.

(** The node forest in document order: every node with its depth.  The
    first tree is the document; the trees after it are detached. *)
Definition forest := list (loc * nat).

Record dom := {
  elements : gmap loc element;
  nodes : forest;
  listeners : list (loc * string);
}.

Inductive error := TypeError | HierarchyRequestError.

(** The result of running a piece of script: a value and the new state,
    an exception, or a behaviour the model does not cover. *)
Inductive outcome (A : Type) :=
| Ok (a : A) (st : dom)
| Throw (e : error)
| Unmodelled.
Arguments Ok {A} a st.
Arguments Throw {A} e.
Arguments Unmodelled {A}.

Definition M (A : Type) : Type := dom -> outcome A.

Definition ret {A} (a : A) : M A := fun st => Ok a st.

Definition bind {A B} (m : M A) (k : A -> M B) : M B :=
  fun st => match m st with
            | Ok a st' => k a st'
            | Throw e => Throw e
            | Unmodelled => Unmodelled
            end.

Definition throw {A} (e : error) : M A := fun _ => Throw e.
Definition unmodelled {A} : M A := fun _ => Unmodelled.

Definition lift_option {A} (o : option A) : M A :=
  match o with Some a => ret a | None => unmodelled end.

(** *** The node forest *)

Fixpoint take_deeper (d : nat) (f : forest) : forest :=
  match f with
  | (l, k) :: r => if Nat.ltb d k then (l, k) :: take_deeper d r else []
  | [] => []
  end.

Fixpoint drop_deeper (d : nat) (f : forest) : forest :=
  match f with
  | (l, k) :: r => if Nat.ltb d k then drop_deeper d r else f
  | [] => []
  end.

(** [locate l f = Some (before, d, below, after)]: node [l] has depth
    [d], [below] are its descendants and
    [f = before ++ (l, d) :: below ++ after]. *)
Fixpoint locate (l : loc) (f : forest)
    : option (forest * nat * forest * forest) :=
  match f with
  | [] => None
  | (x, d) :: r =>
      if Nat.eqb x l then Some ([], d, take_deeper d r, drop_deeper d r)
      else match locate l r with
           | Some (b, d', below, a) => Some ((x, d) :: b, d', below, a)
           | None => None
           end
  end.

Definition lower (by_ : nat) (f : forest) : forest :=
  List.map (fun e => (fst e, snd e - by_)) f.

Definition raise (by_ : nat) (f : forest) : forest :=
  List.map (fun e => (fst e, snd e + by_)) f.

(** The nodes of the document, in document order. *)
Definition attached (f : forest) : list loc :=
  match f with
  | (l, d) :: r => l :: List.map fst (take_deeper d r)
  | [] => []
  end.

(** The child elements of a node, in order. *)
Definition kids (l : loc) (f : forest) : list loc :=
  match locate l f with
  | Some (_, d, below, _) =>
      List.map fst (List.filter (fun e => Nat.eqb (snd e) (S d)) below)
  | None => []
  end.

(** The tree rooted at [c] is cut out; the result is the tree with its
    root at depth 0 and the remaining forest.  The document root cannot
    be cut. *)
Definition cut (c : loc) (f : forest) : option (forest * forest) :=
  match locate c f with
  | Some (x :: b, d, below, a) => Some ((c, 0) :: lower d below, x :: b ++ a)
  | _ => None
  end.

(** The tree [sub] becomes the last child of [p]. *)
Definition graft (p : loc) (sub : forest) (f : forest) : option forest :=
  match locate p f with
  | Some (b, d, below, a) => Some (b ++ (p, d) :: below ++ raise (S d) sub ++ a)
  | None => None
  end.

(** *** Allocation *)

Definition fresh_loc (st : dom) : loc :=
  S (max_list (List.map fst (map_to_list (elements st))
               ++ List.map fst (nodes st))).

(** The string-valued properties of a new element that the store keeps,
    all empty.  A browser gives an element more of them ([lang], [dir],
    [tagName], [textContent], ...), some read-only; what is said of the
    properties [set] and [make] write is said for a [div], [ul], [li] or
    [input] and for the keys [className], [id], [title], [placeholder]
    and [name]. *)
Definition string_properties (tagName : string) : list string :=
  ["className"; "id"; "innerHTML"; "title"]
  ++ (if String.eqb tagName "input" then ["value"; "placeholder"; "name"] else []).

Definition style_properties : list string :=
  ["display"; "opacity"; "backgroundColor"; "color"; "width"; "height"].

Definition empty_props (keys : list string) : gmap string value :=
  list_to_map (List.map (fun k => (k, VStr "")) keys).

(** The [display] of the user-agent style sheet, for the tags of the
    page and of the scripts; a tag that is not listed is taken as an
    inline element ([a], [img], [span]). *)
Definition default_display (tagName : string) : string :=
  if existsb (String.eqb tagName)
       ["div"; "ul"; "body"; "p"; "h1"; "h2"; "h3"; "h4"; "h5"; "h6"]
  then "block"
  else if String.eqb tagName "li" then "list-item"
  else if String.eqb tagName "input" then "inline-block"
  else "inline".

Definition new_element (tagName : string) : element :=
  {| tag := tagName;
     attrs := empty_props (string_properties tagName);
     style := empty_props style_properties;
     sheetDisplay := default_display tagName |}.

(** [document.createElement(tag)]: a new detached element. *)
Definition createElement (tagName : string) : M value :=
  fun st =>
    let l := fresh_loc st in
    Ok (VElem l)
       {| elements := <[l := new_element tagName]> (elements st);
          nodes := nodes st ++ [(l, 0)];
          listeners := listeners st |}.

(** *** Selectors: [.class] and [#id] *)

Inductive selector := ByClass (c : string) | ById (i : string).

Definition is_name_char (c : ascii) : bool :=
  let n := nat_of_ascii c in
  (Nat.leb 48 n && Nat.leb n 57) || (Nat.leb 65 n && Nat.leb n 90)
  || (Nat.leb 97 n && Nat.leb n 122) || Nat.eqb n 45 || Nat.eqb n 95.

Fixpoint is_name (s : string) : bool :=
  match s with
  | EmptyString => true
  | String c r => is_name_char c && is_name r
  end.

Definition parse_selector (s : string) : option selector :=
  match s with
  | String c r =>
      if Str.nonempty r && is_name r then
        if Ascii.eqb c "." then Some (ByClass r)
        else if Ascii.eqb c "#" then Some (ById r)
        else None
      else None
  | EmptyString => None
  end.

(** The class names of a [className]: its pieces between spaces. *)
Definition has_class (c : string) (className : value) : bool :=
  match className with
  | VStr s => existsb (String.eqb c) (Str.split " " s)
  | _ => false
  end.

Definition attr (st : dom) (l : loc) (key : string) : value :=
  match elements st !! l with
  | Some e => default VUndef (attrs e !! key)
  | None => VUndef
  end.

Definition matches (st : dom) (sel : selector) (l : loc) : bool :=
  match sel with
  | ByClass c => has_class c (attr st l "className")
  | ById i => match attr st l "id" with
              | VStr s => String.eqb s i
              | _ => false
              end
  end.

(** [document.querySelectorAll(selector)]. *)
Definition querySelectorAll (selector_ : string) : M (list value) :=
  fun st =>
    match parse_selector selector_ with
    | Some sel =>
        Ok (List.map VElem (List.filter (matches st sel) (attached (nodes st)))) st
    | None => Unmodelled
    end.

(** [document.querySelector(selector)]: the first match or [null]. *)
Definition querySelector (selector_ : string) : M value :=
  bind (querySelectorAll selector_) (fun all =>
    ret (match all with v :: _ => v | [] => VNull end)).

(** *** Property access: [first[second]] *)

Definition with_element {A} (l : loc) (k : element -> M A) : M A :=
  fun st => match elements st !! l with
            | Some e => k e st
            | None => Unmodelled
            end.

(** The state with element [l] replaced by [e]. *)
Definition update (st : dom) (l : loc) (e : element) : dom :=
  {| elements := <[l := e]> (elements st);
     nodes := nodes st;
     listeners := listeners st |}.

Definition set_element (l : loc) (e : element) : M unit :=
  fun st => Ok tt (update st l e).

Definition indexed (xs : list value) (key : string) : value :=
  if String.eqb key "length" then VNumber (Num (Z.of_nat (length xs)))
  else match key_index key with
       | Some i => default VUndef (xs !! i)
       | None => VUndef
       end.

Definition characters (s : string) : list value :=
  List.map (fun c => VStr (Str.chr c)) (list_ascii_of_string s).

(** Reading [first[second]].  Only own data properties are modelled;
    reading a property of [undefined] or [null] throws.  [innerHTML]
    reads as the string last assigned to it, which is the markup of the
    element when its children came from that assignment. *)
Definition get (first : value) (second : string) : M value :=
  match first with
  | VUndef | VNull => throw TypeError
  | VBool _ | VNumber _ => ret VUndef
  | VStr s => ret (indexed (characters s) second)
  | VArr xs => ret (indexed xs second)
  | VElem l =>
      with_element l (fun e =>
        if String.eqb second "style" then ret (VStyle l)
        else if String.eqb second "children" then ret (VChildren l)
        else ret (default VUndef (attrs e !! second)))
  | VStyle l =>
      with_element l (fun e => ret (default VUndef (style e !! second)))
  | VChildren l =>
      fun st => Ok (indexed (List.map VElem (kids l (nodes st))) second) st
  end.

(** *** Markup assigned to [innerHTML] *)

(** The double quote character. *)
Definition dquote : ascii := "034".

Definition dq : string := Str.chr dquote.

Fixpoint strip_prefix (p s : string) : option string :=
  match p, s with
  | EmptyString, _ => Some s
  | String a p', String b s' => if Ascii.eqb a b then strip_prefix p' s' else None
  | String _ _, EmptyString => None
  end.

(** The text before the first [c] and the text after it. *)
Fixpoint read_until (c : ascii) (s : string) : option (string * string) :=
  match s with
  | EmptyString => None
  | String x r =>
      if Ascii.eqb x c then Some (EmptyString, r)
      else match read_until c r with
           | Some (t, rest) => Some (String x t, rest)
           | None => None
           end
  end.

(** Plain text: no markup and no character references. *)
Definition is_text (s : string) : bool :=
  negb (Str.contains_char "<" s || Str.contains_char ">" s
        || Str.contains_char "&" s).

(** One anchor [<a class="C" href="#">T</a>]: its class and its text. *)
Definition parse_anchor (html : string) : option (string * string) :=
  match strip_prefix ("<a class=" +:+ dq) html with
  | None => None
  | Some r1 =>
      match read_until dquote r1 with
      | None => None
      | Some (cls, r2) =>
          match strip_prefix (" href=" +:+ dq +:+ "#" +:+ dq +:+ ">") r2 with
          | None => None
          | Some r3 =>
              match read_until "<" r3 with
              | None => None
              | Some (txt, r4) =>
                  if String.eqb r4 "/a>" && is_text cls && is_text txt
                  then Some (cls, txt) else None
              end
          end
      end
  end.

(** The element children the parser builds for a markup string: none
    for plain text, one anchor for the anchor markup; other markup is
    not modelled. *)
Definition parse_markup (html : string) : option (list (string * string)) :=
  if is_text html then Some []
  else match parse_anchor html with
       | Some a => Some [a]
       | None => None
       end.

Definition anchor_element (cls txt : string) : element :=
  let e := new_element "a" in
  with_attrs e (<["innerHTML" := VStr txt]> (<["className" := VStr cls]> (attrs e))).

(** The new children are allocated; the old children of [l] become
    detached trees. *)
Fixpoint alloc_kids (anchors : list (string * string)) (st : dom)
    : list loc * dom :=
  match anchors with
  | [] => ([], st)
  | (cls, txt) :: rest =>
      let l := fresh_loc st in
      let st1 := {| elements := <[l := anchor_element cls txt]> (elements st);
                    nodes := nodes st;
                    listeners := listeners st |} in
      let '(ls, st2) := alloc_kids rest st1 in
      (l :: ls, st2)
  end.

(** The setter of [innerHTML]. *)
Definition set_innerHTML (l : loc) (html : string) : M unit :=
  fun st =>
    match parse_markup html, elements st !! l, locate l (nodes st) with
    | Some anchors, Some e, Some (b, d, below, a) =>
        let '(ls, st1) := alloc_kids anchors st in
        let e' := with_attrs e (<["innerHTML" := VStr html]> (attrs e)) in
        Ok tt {| elements := <[l := e']> (elements st1);
                 nodes := b ++ (l, d) :: List.map (fun k => (k, S d)) ls
                            ++ a ++ lower (S d) below;
                 listeners := listeners st1 |}
    | _, _, _ => Unmodelled
    end.

(** Assignment [first[second] = v], in strict mode.  A style
    declaration keeps the string it is given (a browser drops a value
    that is not valid for the property), and a property of an element
    is written as a plain data property (a browser has read-only
    properties and setters that rebuild the subtree, other than
    [innerHTML]). *)
Definition put (first : value) (second : string) (v : value) : M unit :=
  match first with
  | VUndef | VNull => throw TypeError
  | VBool _ | VNumber _ | VStr _ => throw TypeError
  | VArr _ => unmodelled
  | VChildren _ =>
      if String.eqb second "length" || bool_decide (is_Some (key_index second))
      then throw TypeError else unmodelled
  | VStyle l =>
      with_element l (fun e =>
        match v with
        | VStr _ =>
            set_element l (with_style e (<[second := v]> (style e)))
        | _ => unmodelled
        end)
  | VElem l =>
      with_element l (fun e =>
        if String.eqb second "children" then throw TypeError
        else if String.eqb second "style" then unmodelled
        else if String.eqb second "innerHTML" then
          match v with VStr html => set_innerHTML l html | _ => unmodelled end
        else if existsb (String.eqb second) (string_properties (tag e))
                && negb (isString v)
        then unmodelled
        else set_element l (with_attrs e (<[second := v]> (attrs e))))
  end.

(** [delete first[second]] on an element: an expando is removed, a DOM
    property stays. *)
Definition delete_property (first : value) (second : string) : M unit :=
  match first with
  | VUndef | VNull => throw TypeError
  | VElem l =>
      with_element l (fun e =>
        if String.eqb second "children" || String.eqb second "style"
           || existsb (String.eqb second) (string_properties (tag e))
        then ret tt
        else set_element l (with_attrs e (delete second (attrs e))))
  | _ => unmodelled
  end.

(** *** Computed style *)

(** The computed [display]: the inline declaration when there is one,
    the style sheets' value otherwise. *)
Definition computed_display (e : element) : string :=
  match style e !! "display" with
  | Some (VStr d) => if Str.nonempty d then d else sheetDisplay e
  | _ => sheetDisplay e
  end.

(** [getComputedStyle(element).display]. *)
Definition getComputedStyle_display (element_ : value) : M value :=
  match element_ with
  | VElem l => with_element l (fun e => ret (VStr (computed_display e)))
  | _ => throw TypeError
  end.


(** *** Tree mutation and events *)

Definition set_nodes (f : forest) : M unit :=
  fun st => Ok tt {| elements := elements st; nodes := f;
                     listeners := listeners st |}.

(** [parent.appendChild(child)]: the child, with its subtree, is moved
    to the end of the parent's children. *)
Definition appendChild (parent child : value) : M value :=
  match parent, child with
  | VElem p, VElem c =>
      fun st =>
        match cut c (nodes st) with
        | None => Unmodelled
        | Some (sub, rest) =>
            if bool_decide (p ∈ List.map fst sub) then Throw HierarchyRequestError
            else match graft p sub rest with
                 | Some f => bind (set_nodes f) (fun _ => ret child) st
                 | None => Unmodelled
                 end
        end
  | _, _ => throw TypeError
  end.

(** [element.remove()]: the element's tree is detached. *)
Definition remove (element_ : value) : M unit :=
  match element_ with
  | VElem c =>
      fun st =>
        match cut c (nodes st) with
        | Some (sub, rest) => set_nodes (rest ++ sub) st
        | None => Unmodelled
        end
  | _ => throw TypeError
  end.

(** [target.addEventListener(type, pageEvent)]: the page has one
    handler, so a registration is the target and the event type. *)
Definition addEventListener (target : value) (type : string) : M unit :=
  match target with
  | VElem l =>
      fun st => Ok tt {| elements := elements st; nodes := nodes st;
                         listeners := listeners st ++ [(l, type)] |}
  | _ => throw TypeError
  end.

End Dom.

(* ===================================================================== *)
(** ** fquery.js *)
(* ===================================================================== *)

Module FQuery.
Import Js Dom Path.

Notation "'let*' x := m 'in' k" := (bind m (fun x => k))
  (at level 10, x name, m at level 100, k at level 200).

(** [Array.prototype.reduce] with an initial value and an effectful
    callback. *)
Fixpoint reduce {A B} (f : A -> B -> M A) (xs : list B) (init : A) : M A :=
  match xs with
  | [] => ret init
  | x :: r => let* acc := f init x in reduce f r acc
  end.

(** [Array.prototype.every] and [some]: they stop at the first element
    that decides the result. *)
Fixpoint every {A} (p : A -> M bool) (xs : list A) : M bool :=
  match xs with
  | [] => ret true
  | x :: r => let* b := p x in if b then every p r else ret false
  end.

Fixpoint some {A} (p : A -> M bool) (xs : list A) : M bool :=
  match xs with
  | [] => ret false
  | x :: r => let* b := p x in if b then ret true else some p r
  end.

(** [function validator(...bools)]: the conjunction of the predicates. *)
Definition validator (bools : list (value -> bool)) (v : value) : bool :=
  fold_left (fun first next => first && next v) bools true.

(** [function isString(value)]. *)
Definition isString (v : value) : bool := Js.isString v.

(** [function isSetter(value)]: [value == 'set']; [None] where the
    comparison is not modelled (objects). *)
Definition isSetter (v : value) : option bool := loose_eq_string v "set".

(** A key/value pair of an argument object ([PropertyArray], a
    [string[]] of two entries). *)
Definition PropertyArray : Type := string * string.

(** [function objToArr(obj)]: an argument object literal is written as
    the list of its entries in enumeration order, which is the array
    [objToArr] builds. *)
Definition objToArr (obj : list (string * string)) : list PropertyArray := obj.

(** [function continueOrEnd(returnedValue, continuedValue)]: the
    returned function gives [returnedValue] when called without
    argument ([end_]) and calls its argument on [continuedValue]
    otherwise ([next]). *)
Record chain := continueOrEnd { returnedValue : value; continuedValue : value }.

Definition end_ (c : chain) : value := returnedValue c.
Definition next {A} (c : chain) (conjunction : value -> A) : A :=
  conjunction (continuedValue c).

(** [function $(selector)] on a selector string; on any other argument
    [$] returns the argument ([dollar_start]). *)
Definition dollar (selector_ : string) : M chain :=
  let* element_ := querySelector selector_ in
  ret (continueOrEnd element_ element_).

Definition dollar_start {A} (selector_ : A) : A := selector_.

(** What [actionRequest] receives: an element verb (a function) or the
    property-name array of a property noun. *)
Inductive verbOrNoun :=
| Verb (verb : value -> M value)
| Noun (propNounArray : list string).

(** [function and(element)]: a verb is run on the element, twice (once
    for each argument of [continueOrEnd]); a noun asks for a property
    verb. *)
Definition and_ (element_ : value) (x : verbOrNoun)
    : match x with
      | Verb _ => M chain
      | Noun _ => (value -> list string -> M value) -> M chain
      end :=
  match x with
  | Verb verb =>
      let* r := verb element_ in
      let* c := verb element_ in
      ret (continueOrEnd r c)
  | Noun propNounArray =>
      fun func =>
        let* target := func element_ propNounArray in
        ret (continueOrEnd target element_)
  end.

(** [function getValue()]. *)
Definition getValue (elementSelected : value) (array : list string) : M value :=
  reduce (fun first second => get first second) array elementSelected.

(** [function setValue(value)]. *)
Definition setValue (value_ : string) (elementSelected : value)
    (array : list string) : M value :=
  let keyTest := validator [isString] in
  reduce
    (fun first second =>
       let* current := get first second in
       if keyTest current
       then let* _ := put first second (VStr value_) in ret (VStr value_)
       else get first second)
    array elementSelected.

(** [function appendTo(selector)]: the parent is looked up when
    [appendTo] is called. *)
Definition appendTo (selector_ : string) : M (value -> M value) :=
  let* parent := querySelector selector_ in
  ret (fun elementSelected =>
         let* _ := appendChild parent elementSelected in ret elementSelected).

(** [function $$(selector)]. *)
Definition dollars (selector_ : string) : M chain :=
  let* elements_ := querySelectorAll selector_ in
  let elementArray := VArr elements_ in
  ret (continueOrEnd elementArray elementArray).

(** A function object: its [name] and what calling it does. *)
Record func := { name : string; call : list value -> M value }.

Definition arg (n : nat) (args : list value) : value := nth n args VUndef.

(** The callbacks of [map] and [filter] receive the element, its index
    and the array. *)
Fixpoint map_from (f : func) (arr : value) (i : nat) (xs : list value)
    : M (list value) :=
  match xs with
  | [] => ret []
  | x :: r =>
      let* y := call f [x; VNumber (Num (Z.of_nat i)); arr] in
      let* ys := map_from f arr (S i) r in
      ret (y :: ys)
  end.

Fixpoint filter_from (f : func) (arr : value) (i : nat) (xs : list value)
    : M (list value) :=
  match xs with
  | [] => ret []
  | x :: r =>
      let* y := call f [x; VNumber (Num (Z.of_nat i)); arr] in
      let* ys := filter_from f arr (S i) r in
      ret (if truthy y then x :: ys else ys)
  end.

(** [Array.prototype.map] and [Array.prototype.filter]. *)
Definition array_map (f : func) (xs : list value) : M (list value) :=
  map_from f (VArr xs) 0 xs.

Definition array_filter (f : func) (xs : list value) : M (list value) :=
  filter_from f (VArr xs) 0 xs.

(** The methods [then] looks up by name with a function argument. *)
Definition array_method (method : string)
    : option (func -> list value -> M (list value)) :=
  if String.eqb method "map" then Some array_map
  else if String.eqb method "filter" then Some array_filter
  else None.

(** A relative index of [slice]: negative counts from the end, and the
    result is clamped to the array. *)
Definition relative_index (len : Z) (n : number) : Z :=
  match n with
  | NaN => 0
  | Num z => if Z.ltb z 0 then Z.max (len + z) 0 else Z.min z len
  end.

Definition slice_argument (missing : number) (a : option value) : M number :=
  match a with
  | None | Some VUndef => ret missing
  | Some v => lift_option (ToNumber v)
  end.

(** [Array.prototype.slice(start, end)]. *)
Definition array_slice (xs : list value) (args : list value) : M (list value) :=
  let len := Z.of_nat (length xs) in
  let* start := slice_argument (Num 0) (args !! 0%nat) in
  let* final := slice_argument (Num len) (args !! 1%nat) in
  let k := relative_index len start in
  let e := relative_index len final in
  ret (take (Z.to_nat (e - k)) (drop (Z.to_nat k) xs)).

(** The argument of the function [then] returns. *)
Inductive action :=
| ActString (method : string)
| ActFunction (f : func).

(** What that function returns: a chain, or a function waiting for the
    arguments of the native method or of the underscore function. *)
Inductive then_result :=
| Transformed (c : chain)
| nativeMethod (k : list value -> M chain)
| underscore (k : list value -> M chain).

(** The method a named function is dispatched to:
    [method = (action.name == 'm' || action.name == 'f') ? 'filter' : 'map']. *)
Definition then_method (action_name : string) : string :=
  let method := "map" in
  if String.eqb action_name "m" || String.eqb action_name "f"
  then "filter" else method.

(** [function then(elementArray)]. *)
Definition then_ (elementArray : value) (action_ : action) : M then_result :=
  match action_ with
  | ActString method =>
      ret (nativeMethod (fun args =>
        match elementArray with
        | VArr xs =>
            if String.eqb method "slice" then
              let* transform := array_slice xs args in
              ret (continueOrEnd (VArr transform) (VArr transform))
            else unmodelled
        | _ => throw TypeError
        end))
  | ActFunction f =>
      if negb (String.eqb (name f) "") then
        match elementArray, array_method (then_method (name f)) with
        | VArr xs, Some method =>
            let* transform := method f xs in
            ret (Transformed (continueOrEnd (VArr transform) (VArr transform)))
        | VArr _, None => unmodelled
        | _, _ => throw TypeError
        end
      else
        ret (underscore (fun args =>
          let* transform := call f (elementArray :: args) in
          ret (continueOrEnd transform transform)))
  end.

(** The three ways a call site continues. *)
Definition transformed (r : then_result) : M chain :=
  match r with Transformed c => ret c | _ => unmodelled end.

Definition with_arguments (r : then_result) (args : list value) : M chain :=
  match r with
  | nativeMethod k | underscore k => k args
  | Transformed c => unmodelled
  end.

(** [function actionMaker(action)]. *)
Definition actionMaker {A} (action_ : list PropertyArray -> A)
    (object : list (string * string)) : A :=
  let propArray := objToArr object in
  action_ propArray.

(** [x.includes(s)]: on a string the substring test; [undefined], [null]
    and values without the method throw. *)
Definition includes_method (x : value) (s : string) : M bool :=
  match x with
  | VStr t => ret (Str.includes t s)
  | VArr _ => unmodelled
  | _ => throw TypeError
  end.

(** [function matchIt(propArray)], which returns [function m(element)]. *)
Definition matchIt (propArray : list PropertyArray) : func :=
  {| name := "m";
     call := fun args =>
       let element_ := arg 0 args in
       let* b := every (fun property : PropertyArray =>
              let* c := dollar_start and_ element_ (Noun (on (fst property))) getValue in
              lift_option (loose_eq_string (end_ c) (snd property)))
            propArray in
       ret (VBool b) |}.

(** [function setIt(propArray)], which returns [function s(element)]. *)
Definition setIt (propArray : list PropertyArray) : func :=
  {| name := "s";
     call := fun args =>
       let element_ := arg 0 args in
       let* _ := reduce (fun (_ : unit) (property : PropertyArray) =>
                    let* _ := dollar_start and_ element_ (Noun (on (fst property)))
                         (setValue (snd property)) in
                    ret tt)
                 propArray tt in
       ret element_ |}.

(** [function findIt(propArray)], which returns [function f(element)]. *)
Definition findIt (propArray : list PropertyArray) : func :=
  {| name := "f";
     call := fun args =>
       let element_ := arg 0 args in
       let* b := some (fun property : PropertyArray =>
              let* c := dollar_start and_ element_ (Noun (on (fst property))) getValue in
              includes_method (end_ c) (snd property))
            propArray in
       ret (VBool b) |}.

(** [var match = actionMaker(matchIt)], [find], [set]. *)
Definition match_ := actionMaker matchIt.
Definition find := actionMaker findIt.
Definition set_ := actionMaker setIt.

(** [function hide(element)]. *)
Definition hide (element_ : value) : M value :=
  let* _ := (let* style_ := get element_ "style" in put style_ "opacity" (VStr "0")) in
  let* _ := (let* display := getComputedStyle_display element_ in
      put element_ "$$$display" display) in
  let* _ := (let* style_ := get element_ "style" in put style_ "display" (VStr "none")) in
  ret element_.

(** [function show(element)]. *)
Definition show (element_ : value) : M value :=
  let* _ := (let* style_ := get element_ "style" in put style_ "opacity" (VStr "1")) in
  let* _ := (let* style_ := get element_ "style" in
      let* stored := get element_ "$$$display" in
      let* display := (if truthy stored then get element_ "$$$display"
                       else ret (VStr "")) in
      put style_ "display" display) in
  let* _ := delete_property element_ "$$$display" in
  ret element_.

Definition hide_function : func :=
  {| name := "hide"; call := fun args => hide (arg 0 args) |}.
Definition show_function : func :=
  {| name := "show"; call := fun args => show (arg 0 args) |}.

(** [function make(tag, obj)]. *)
Definition make (tag_ : string) (obj : list (string * string)) : M chain :=
  let* rawElement := createElement tag_ in
  let* element_ := call (set_ obj) [rawElement] in
  ret (continueOrEnd element_ element_).

End FQuery.

(* ===================================================================== *)
(** ** pagination.js *)
(* ===================================================================== *)

Module Pagination.
Import Js Dom Path FQuery.

(** [$(make(tag, obj))(and)(appendTo(selector))()]: the element is made,
    the parent is looked up, the element is appended and returned. *)
Definition make_and_append (tag_ : string) (obj : list (string * string))
    (selector_ : string) : M value :=
  let* c := make tag_ obj in
  let* verb := appendTo selector_ in
  let* c' := next (dollar_start c) and_ (Verb verb) in
  ret (end_ c').

(** [var attachPagination = function()]. *)
Definition attachPagination : M unit :=
  let* _ := make_and_append "div" [("className", "pagination")] ".page" in
  ret tt.

(** [var attachSearch = function()]. *)
Definition attachSearch : M unit :=
  let* container := make_and_append "div" [("className", "student-search")]
                      ".page-header" in
  let* searchBox := make_and_append "input"
                      [("placeholder", "Search for students..."); ("id", "search")]
                      ".student-search" in
  addEventListener searchBox "keyup".

(** The loop [for (var i = 0; i < totalPages; i++) body]: the body runs
    for [i = 0, 1, ...] as long as [i < totalPages]; neither [i] nor
    [totalPages] is assigned in the body. *)
Fixpoint for_loop (rounds : nat) (i : Z) (body : Z -> M unit) : M unit :=
  match rounds with
  | O => ret tt
  | S k => let* _ := body i in for_loop k (i + 1) body
  end.

(** ['<a class="' + className + '" href="#">' + (i + 1) + '</a>']. *)
Definition link_markup (className : string) (label : Z) : string :=
  "<a class=" +:+ dq +:+ className +:+ dq +:+ " href=" +:+ dq +:+ "#" +:+ dq
  +:+ ">" +:+ NumberToString label +:+ "</a>".

(** [var createPageLinks = function(array, active)]. *)
Definition createPageLinks (array active : value) : M unit :=
  let* _ := make_and_append "ul" [("className", "list")] ".pagination" in
  let* len := get array "length" in
  let* totalPages :=
    match len with
    | VNumber (Num n) => ret (Math_ceil_div n 10)
    | _ => unmodelled
    end in
  for_loop (Z.to_nat totalPages) 0 (fun i =>
    let* is_active := lift_option (loose_eq_number active (Num (i + 1))) in
    let className := if (is_active : bool) then "active" else "" in
    let options := [("innerHTML", link_markup className (i + 1))] in
    let* pageLink := make_and_append "li" options ".list" in
    addEventListener pageLink "click").

(** [var makePage = function(query, page)]. *)
Definition makePage (query : string) (page : value) : M unit :=
  let* p := lift_option (ToNumber page) in
  let first := num_mul (num_sub p (Num 1)) (Num 10) in
  let last := num_mul p (Num 10) in
  let* c := dollars ".student-item" in
  let* c := let* r := next c then_ (ActFunction show_function) in transformed r in
  let* c := let* r := next c then_ (ActFunction hide_function) in transformed r in
  let* c := let* r := next c then_
                        (ActFunction (find [(">0>1.innerHTML", query)])) in
            transformed r in
  let array := end_ c in
  let* s := let* r := then_ array (ActString "slice") in
            with_arguments r [VNumber first; VNumber last] in
  let* _ := let* r := next s then_ (ActFunction show_function) in transformed r in
  createPageLinks array page.


Definition lower_char (c : ascii) : ascii :=
  let n := nat_of_ascii c in
  if Nat.leb 65 n && Nat.leb n 90 then ascii_of_nat (n + 32) else c.

(** [String.prototype.toLowerCase] on ASCII text. *)
Fixpoint toLowerCase (s : string) : string :=
  match s with
  | EmptyString => EmptyString
  | String c r => String (lower_char c) (toLowerCase r)
  end.

(** [var getQuery = function()]. *)
Definition getQuery : M string :=
  let* c := dollar "#search" in
  let* query :=
    if negb (truthy (end_ c)) then ret (VStr "")
    else let* c := dollar "#search" in
         let* c := next c and_ (Noun (on "value")) getValue in
         ret (end_ c) in
  match query with
  | VStr q => ret (trim (toLowerCase q))
  | _ => throw TypeError
  end.

(** [var pageEvent = function(e)], with [this] the element the listener
    is attached to. *)
Definition pageEvent (this : value) : M unit :=
  let* c := dollar ".list" in
  let* _ := remove (end_ c) in
  let* id := get this "id" in
  let* on_search := lift_option (loose_eq_string id "search") in
  let* page :=
    if (on_search : bool) then ret (VNumber (Num 1))
    else let* c := dollar_start and_ this (Noun (on ">0.innerHTML")) getValue in
         ret (end_ c) in
  let* query := getQuery in
  makePage query page.

(** [var init = function()]. *)
Definition init : M unit :=
  let* _ := attachPagination in
  let* _ := attachSearch in
  makePage "" (VNumber (Num 1)).

End Pagination.

(* ===================================================================== *)
(** ** A host page *)
(* ===================================================================== *)

(** The markup the scripts expect, built with the DOM operations above:
    a [.page] with a [.page-header] and a list of [.student-item]
    elements, each with the name in the second child of its first child. *)
Module Host.
Import Js Dom Path FQuery.

Definition empty_document : dom :=
  {| elements := ∅; nodes := []; listeners := [] |}.

Definition element_with (tag_ className : string) (text : string) : M value :=
  let* e := createElement tag_ in
  let* _ := put e "className" (VStr className) in
  let* _ := put e "innerHTML" (VStr text) in
  ret e.

Definition student_item (list_ : value) (name_ : string) : M unit :=
  let* item := element_with "li" "student-item cf" "" in
  let* details := element_with "div" "student-details" "" in
  let* avatar := element_with "img" "avatar" "" in
  let* h3 := element_with "h3" "" name_ in
  let* _ := appendChild list_ item in
  let* _ := appendChild item details in
  let* _ := appendChild details avatar in
  let* _ := appendChild details h3 in
  ret tt.

Definition page (names : list string) : M unit :=
  let* root := element_with "body" "" "" in
  let* page_ := element_with "div" "page" "" in
  let* header := element_with "div" "page-header cf" "" in
  let* list_ := element_with "ul" "student-list" "" in
  let* _ := appendChild root page_ in
  let* _ := appendChild page_ header in
  let* _ := appendChild page_ list_ in
  reduce (fun (_ : unit) name_ => student_item list_ name_) names tt.

(** The state after running a script on the host page. *)
Definition state_after {A} (m : M A) (st : dom) : option dom :=
  match m st with Ok _ st' => Some st' | _ => None end.

Definition loaded (names : list string) : option dom :=
  state_after (page names) empty_document.

End Host.

(* ===================================================================== *)
(** ** The states the specification names *)
(* ===================================================================== *)

Module Spec.
Import Js Dom.

(** The inline declaration [element.style[key]] of element [l]. *)
Definition inline (st : dom) (l : loc) (key : string) : option value :=
  match elements st !! l with
  | Some e => style e !! key
  | None => None
  end.

(** The expando [element.$$$display] of element [l]. *)
Definition stored_display (st : dom) (l : loc) : option value :=
  match elements st !! l with
  | Some e => attrs e !! "$$$display"
  | None => None
  end.

(** The computed [display] of element [l]. *)
Definition computed (st : dom) (l : loc) : option string :=
  match elements st !! l with
  | Some e => Some (computed_display e)
  | None => None
  end.

(** The element as the specification describes it after hiding: the
    computed display stored on it, opacity 0, display none. *)
Definition hidden (e : element) : element :=
  {| tag := tag e;
     attrs := <["$$$display" := VStr (computed_display e)]> (attrs e);
     style := <["display" := VStr "none"]> (<["opacity" := VStr "0"]> (style e));
     sheetDisplay := sheetDisplay e |}.

(** The element as the specification describes it after showing:
    opacity 1, the stored display (or the empty default) as display,
    nothing stored. *)
Definition shown (e : element) (stored : option string) : element :=
  {| tag := tag e;
     attrs := delete "$$$display" (attrs e);
     style := <["display" := VStr (default "" stored)]>
                (<["opacity" := VStr "1"]> (style e));
     sheetDisplay := sheetDisplay e |}.

(** The state after [createElement]. *)
Definition created (st : dom) (tag_ : string) : dom :=
  {| elements := <[fresh_loc st := new_element tag_]> (elements st);
     nodes := nodes st ++ [(fresh_loc st, 0)];
     listeners := listeners st |}.

(** The state after [make(tag, { innerHTML: html })] when the markup is
    one anchor of class [cls] and text [txt]. *)
Definition made_link (st : dom) (tag_ html cls txt : string) : dom :=
  let st1 := created st tag_ in
  {| elements :=
       <[fresh_loc st := with_attrs (new_element tag_)
                           (<["innerHTML" := VStr html]> (attrs (new_element tag_)))]>
         (<[fresh_loc st1 := anchor_element cls txt]> (elements st1));
     nodes := nodes st ++ [(fresh_loc st, 0); (fresh_loc st1, 1)];
     listeners := listeners st |}.

(** The elements of the document a selector matches, in document
    order. *)
Definition matching (st : dom) (sel : selector) : list loc :=
  List.filter (matches st sel) (attached (nodes st)).

(** A state with the elements of [st2] and the forest [f]. *)
Definition with_nodes (st2 : dom) (f : forest) : dom :=
  {| elements := elements st2; nodes := f; listeners := listeners st2 |}.

(** The class [createPageLinks] gives link [i] (counted from 0) when the
    active page converts to the number [act]. *)
Definition link_class (act : number) (i : Z) : string :=
  if num_eqb act (Num (i + 1)) then "active" else "".

(** The state after one round of the loop of [createPageLinks], when
    [.list] is the element [t] located by [(b, d, below, a)]. *)
Definition link_added (st : dom) (act : number) (i : Z) (t : loc)
    (b : forest) (d : nat) (below a : forest) : dom :=
  let cls := link_class act i in
  let st1 := made_link st "li" (Pagination.link_markup cls (i + 1)) cls
               (NumberToString (i + 1)) in
  {| elements := elements st1;
     nodes := b ++ (t, d) :: below
                ++ (fresh_loc st, S d)
                   :: (fresh_loc (created st "li"), S (S d)) :: a;
     listeners := listeners st1 ++ [(fresh_loc st, "click")] |}.

(** The body of the loop of [createPageLinks]. *)
Definition link_body (active : value) (i : Z) : M unit :=
  bind (lift_option (loose_eq_number active (Num (i + 1)))) (fun is_active =>
    let className := if (is_active : bool) then "active" else "" in
    let options := [("innerHTML", Pagination.link_markup className (i + 1))] in
    bind (Pagination.make_and_append "li" options ".list") (fun pageLink =>
      addEventListener pageLink "click")).

(** The nodes of the page links below a list at depth [k - 1]: each link
    item at depth [k] followed by its anchor. *)
Definition link_nodes (k : nat) (links : list (loc * loc)) : forest :=
  flat_map (fun l => [(fst l, k); (snd l, S k)]) links.

(** Link [j] (counted from 0) is in the store: the item with its markup
    and the anchor with its class and label. *)
Definition link_stored (act : number) (st : dom) (j : nat) (l : loc * loc) : Prop :=
  (exists e, elements st !! fst l = Some e /\
     attrs e !! "innerHTML"
     = Some (VStr (Pagination.link_markup (link_class act (Z.of_nat j)) (Z.of_nat j + 1)))) /\
  (exists e, elements st !! snd l = Some e /\
     attrs e !! "className" = Some (VStr (link_class act (Z.of_nat j))) /\
     attrs e !! "innerHTML" = Some (VStr (NumberToString (Z.of_nat j + 1)))).

(** The page after the list [ul] was appended behind the nodes [B] and
    the links [links] were appended to it. *)
Definition rendered (B : forest) (ul : loc) (d : nat) (a : forest)
    (act : number) (st : dom) (links : list (loc * loc)) : Prop :=
  nodes st = B ++ (ul, S d) :: link_nodes (S (S d)) links ++ a /\
  (forall j l, links !! j = Some l -> link_stored act st j l) /\
  ~ In ul (List.map fst B) /\
  (forall x, In x (List.map fst (link_nodes (S (S d)) links)) ->
     x <> ul /\ ~ In x (List.map fst B)) /\
  List.NoDup (List.map fst (link_nodes (S (S d)) links)) /\
  matching st (ByClass "list") = [ul] /\
  In ul (attached (nodes st)).

(** The page links of a state: the children of what [.list] selects. *)
Definition page_links (st : dom) : list loc :=
  match querySelector ".list" st with
  | Ok (VElem ul) _ => kids ul (nodes st)
  | _ => []
  end.

(** The label of a link item, as [pageEvent] reads it. *)
Definition link_label (st : dom) (li : loc) : outcome value :=
  FQuery.getValue (VElem li) (Path.on ">0.innerHTML") st.

(** The class of the anchor of a link item. *)
Definition anchor_class (st : dom) (li : loc) : outcome value :=
  FQuery.getValue (VElem li) (Path.on ">0.className") st.

(** A node below depth [d]. *)
Definition deeper (d : nat) (e : loc * nat) : Prop := d < snd e.

(** *** What [setValue] may change *)

(** A property that holds a string. *)
Definition is_str (o : option value) : Prop := exists s, o = Some (VStr s).

(** Every key of [m'] has the value it has in [m], except that a string
    may have been replaced by a string. *)
Definition same_or_strings (m m' : gmap string value) : Prop :=
  forall k, m' !! k = m !! k \/ (is_str (m !! k) /\ is_str (m' !! k)).

(** Between two states the elements of the first are still there, and
    only string-valued properties were rewritten. *)
Definition only_strings_rewritten (st st' : dom) : Prop :=
  forall l e, elements st !! l = Some e ->
    exists e', elements st' !! l = Some e' /\
      tag e' = tag e /\ sheetDisplay e' = sheetDisplay e /\
      same_or_strings (attrs e) (attrs e') /\
      same_or_strings (style e) (style e').

(** Every listed property of [x] resolves to a string, [value_at] its
    key. *)
Definition resolves (st : dom) (x : value) (value_at : string -> string)
    (propArray : list FQuery.PropertyArray) : Prop :=
  forall p, In p propArray ->
    FQuery.getValue x (Path.on (fst p)) st = Ok (VStr (value_at (fst p))) st.

(** A page with three students, and its first student item. *)
Definition sample : dom :=
  default Host.empty_document (Host.loaded ["ann"; "bob"; "cy"]).

Definition sample_item : loc := 5.

Definition sample_element : element :=
  default (new_element "li") (elements sample !! sample_item).

Definition sample_values (key : string) : string :=
  if String.eqb key "className" then "student-item cf" else "".

Definition sample_props : list FQuery.PropertyArray :=
  [("className", "student"); ("id", "search")].

(** The sample page with the [.pagination] container attached, its
    container, and an array of twelve matched elements. *)
Definition sample_paged : dom :=
  default sample (Host.state_after Pagination.attachPagination sample).

Definition sample_pagination : loc := 17.

Definition sample_array : list value := List.repeat (VElem sample_item) 12.

(** The sample page after showing, and after hiding, that item. *)
Definition sample_shown : dom :=
  default sample (Host.state_after (FQuery.show (VElem sample_item)) sample).

Definition sample_hidden : dom :=
  default sample (Host.state_after (FQuery.hide (VElem sample_item)) sample).

(** ** The page [makePage] renders *)

(** The string [hide] stored on the element, if there is one. *)
Definition stored_string (e : element) : option string :=
  match attrs e !! "$$$display" with
  | Some (VStr s) => Some s
  | _ => None
  end.

(** The element after [show] and after [hide]. *)
Definition after_show (e : element) : element := shown e (stored_string e).
Definition after_hide (e : element) : element := hidden e.

(** The state with [f] applied to the elements [ls], one after the
    other. *)
Fixpoint restyle (f : element -> element) (ls : list loc) (st : dom) : dom :=
  match ls with
  | [] => st
  | l :: r =>
      restyle f r (match elements st !! l with
                   | Some e => update st l (f e)
                   | None => st
                   end)
  end.

(** What [hide] and [show] need of an element to toggle it: the stored
    display, when there is one, is a string other than none, and the
    style sheets do not hide the element. *)
Definition display_ready (e : element) : Prop :=
  (attrs e !! "$$$display" = None \/
   exists s, attrs e !! "$$$display" = Some (VStr s) /\ s <> "none") /\
  sheetDisplay e <> "none".

(** The student items of the page are distinct elements that can be
    toggled, and each has its name, [names l], at the path
    [>0>1.innerHTML]. *)
Definition students_ready (st : dom) (names : loc -> string) : Prop :=
  List.NoDup (matching st (ByClass "student-item")) /\
  forall l, In l (matching st (ByClass "student-item")) ->
    (exists e, elements st !! l = Some e /\ display_ready e) /\
    FQuery.getValue (VElem l) (Path.on ">0>1.innerHTML") st = Ok (VStr (names l)) st.


(** An element that is hidden: opacity 0 and display none. *)
Definition concealed (st : dom) (l : loc) : Prop :=
  exists e, elements st !! l = Some e /\
    style e !! "opacity" = Some (VStr "0") /\
    style e !! "display" = Some (VStr "none").

(** Two states with the same tree and the same elements up to their
    inline style and the display [hide] stores. *)
Definition same_content (st st' : dom) : Prop :=
  nodes st' = nodes st /\
  forall q, match elements st !! q, elements st' !! q with
            | Some e, Some e' =>
                forall k, k <> "$$$display" -> attrs e' !! k = attrs e !! k
            | None, None => True
            | _, _ => False
            end.

(** The student items, and those whose name contains the query, in document
    order. *)
Definition students (st : dom) : list loc :=
  matching st (ByClass "student-item").

Definition matched (st : dom) (names : loc -> string) (query : string) : list loc :=
  List.filter (fun l => Str.includes (names l) query) (students st).




(** The name read from a student item. *)
Definition name_of (st : dom) (l : loc) : string :=
  match FQuery.getValue (VElem l) (Path.on ">0>1.innerHTML") st with
  | Ok (VStr s) _ => s
  | _ => ""
  end.

(** The element at [l], for a location that holds one. *)
Definition item_at (st : dom) (l : loc) : element :=
  default (new_element "li") (elements st !! l).

(** ** What the helper properties speak of *)

(** A new element of class [c] does not match the selector. *)
Definition unlike (c : string) (sel : selector) : Prop :=
  match sel with
  | ByClass c' => has_class c' (VStr c) = false
  | ById _ => True
  end.

(** A key that is a property name other than [style], [children] and
    [innerHTML]. *)
Definition plain_key (k : string) : Prop :=
  k <> "" /\ Str.contains_char "." k = false /\ Str.contains_char ">" k = false /\
  k <> "style" /\ k <> "children" /\ k <> "innerHTML".

(** The properties after one pair of [set]: a property that holds a
    string takes the value, any other key is left alone. *)
Definition assign (m : gmap string value) (p : FQuery.PropertyArray)
    : gmap string value :=
  match m !! fst p with
  | Some (VStr _) => <[fst p := VStr (snd p)]> m
  | _ => m
  end.

Definition assigned (obj : list FQuery.PropertyArray) (m : gmap string value)
    : gmap string value :=
  fold_left assign obj m.

(** A string is trimmed on the left when it does not start with white
    space. *)
Definition starts_clean (s : string) : Prop :=
  match s with
  | String c _ => is_space c = false
  | EmptyString => True
  end.

(** ** Pages that grow *)

(** The page [st'] has the elements of [st], and every node of [st]
    keeps the children it has, in their places. *)
Definition grows (st st' : dom) : Prop :=
  (forall q e, elements st !! q = Some e -> elements st' !! q = Some e) /\
  (forall q i c, kids q (nodes st) !! i = Some c -> kids q (nodes st') !! i = Some c).

(** The element [make(tag, obj)] builds from property names. *)
Definition made (tag_ : string) (obj : list FQuery.PropertyArray) : element :=
  with_attrs (new_element tag_) (assigned obj (attrs (new_element tag_))).

(** Whether an element with these properties matches a selector. *)
Definition matches_element (sel : selector) (e : element) : bool :=
  match sel with
  | ByClass c => has_class c (default VUndef (attrs e !! "className"))
  | ById i => match default VUndef (attrs e !! "id") with
              | VStr s => String.eqb s i
              | _ => false
              end
  end.

(** ** The page after [init], and its list of links *)


(** The sample page after [init]: the search box is element 19, the
    pagination container 17, the list of links 20 and its one link 21. *)
Definition sample_started : dom :=
  default sample (Host.state_after Pagination.init sample).



(** ** The scope of the properties, and further sample pages *)



(** The tags and the property names for which the element store is as
    a browser has it: on a [div], [ul], [li] or [input] the properties
    [className], [id] and [title] hold a string, [placeholder] and [name]
    hold one on an [input] and are missing on the others, and each of the
    five reads back as it was written. *)
Definition modelled_tag (t : string) : Prop := In t ["div"; "ul"; "li"; "input"].

Definition modelled_key (k : string) : Prop :=
  In k ["className"; "id"; "title"; "placeholder"; "name"].

(** Text of ASCII characters.  [toLowerCase] and [trim] are those of
    JavaScript on such text. *)
Definition ascii_text (s : string) : bool :=
  Str.all_chars (fun c => Nat.ltb (nat_of_ascii c) 128) s.

(** The sample page after [init], with [  AN ] typed in the search
    box. *)
Definition sample_typed : dom :=
  default sample_started
    (Host.state_after (put (VElem 19) "value" (VStr "  AN ")) sample_started).



End Spec.

(* PROPERTIES *)

(* ===================================================================== *)
(** * Properties *)
(* ===================================================================== *)

(** ** Strings and path resolution *)

Section StringFacts.

Lemma append_assoc (a b c : string) : (a +:+ b) +:+ c = a +:+ (b +:+ c).
Proof. induction a as [|x a IH]; simpl; [reflexivity | now f_equal]. Qed.

Lemma append_nil_r (a : string) : a +:+ "" = a.
Proof. induction a as [|x a IH]; simpl; [reflexivity | now f_equal]. Qed.

Lemma split_not_nil sep s : Str.split sep s <> [].
Proof.
  destruct s as [|c r]; simpl; [discriminate|].
  destruct (Ascii.eqb c sep); [discriminate|].
  destruct (Str.split sep r); discriminate.
Qed.

(** Splitting at a separator splits the list of pieces. *)
Lemma split_app_sep sep a b :
  Str.split sep (a +:+ String sep b) = Str.split sep a ++ Str.split sep b.
Proof.
  induction a as [|c a IH]; simpl.
  - now rewrite Ascii.eqb_refl.
  - destruct (Ascii.eqb c sep) eqn:E.
    + now rewrite IH.
    + rewrite IH. pose proof (split_not_nil sep a) as Hn.
      destruct (Str.split sep a); [contradiction | reflexivity].
Qed.

Lemma prop_app_dot a b :
  Path.prop (a +:+ String "." b) = Path.prop a ++ Path.prop b.
Proof.
  unfold Path.prop, Str.dot. rewrite split_app_sep. apply List.filter_app.
Qed.

Lemma prop_no_empty_key s : Forall (fun k => k <> "") (Path.prop s).
Proof.
  unfold Path.prop. apply List.Forall_forall. intros k Hk.
  apply List.filter_In in Hk as [_ Hk]. now destruct k.
Qed.

Lemma replace_all_app c by_ a b :
  Str.replace_all c by_ (a +:+ b)
  = Str.replace_all c by_ a +:+ Str.replace_all c by_ b.
Proof.
  induction a as [|x a IH]; simpl; [reflexivity|].
  destruct (Ascii.eqb x c); rewrite IH; [symmetry; apply append_assoc | reflexivity].
Qed.

Lemma contains_char_app c a b :
  Str.contains_char c (a +:+ b)
  = Str.contains_char c a || Str.contains_char c b.
Proof.
  induction a as [|x a IH]; simpl; [reflexivity|].
  rewrite IH. now rewrite orb_assoc.
Qed.

(** [includes] is the substring relation. *)
Lemma prefix_spec t s :
  String.prefix t s = true <-> exists b, s = t +:+ b.
Proof.
  revert s. induction t as [|x t IH]; intros s; simpl.
  - split; [intros _; now exists s | intros _; now destruct s].
  - destruct s as [|y s].
    + split; [discriminate | intros [b Hb]; discriminate].
    + simpl. destruct (ascii_dec x y) as [->|Hne].
      * rewrite IH. split; intros [b Hb]; exists b; [now rewrite Hb | now injection Hb].
      * split; [discriminate | intros [b Hb]; injection Hb; congruence].
Qed.

Lemma includes_nil t : Str.includes "" t = String.prefix t "".
Proof. unfold Str.includes. apply orb_false_r. Qed.

Lemma includes_cons x s t :
  Str.includes (String x s) t = String.prefix t (String x s) || Str.includes s t.
Proof. reflexivity. Qed.

Lemma includes_spec s t :
  Str.includes s t = true <-> exists a b, s = a +:+ t +:+ b.
Proof.
  induction s as [|x s IH].
  - rewrite includes_nil, prefix_spec. split.
    + intros [b Hb]. now exists "", b.
    + intros (a & b & H). destruct a; [now exists b | discriminate].
  - rewrite includes_cons, orb_true_iff, IH, prefix_spec. split.
    + intros [[b Hb] | (a & b & H)].
      * now exists "", b.
      * exists (String x a), b. simpl. now rewrite H.
    + intros (a & b & H). destruct a as [|y a].
      * left. now exists b.
      * right. simpl in H. injection H as _ H. now exists a, b.
Qed.

End StringFacts.

Example on_name_path :
  Path.on ">0>1.innerHTML" = ["children"; "0"; "children"; "1"; "innerHTML"].
Proof. reflexivity. Qed.

Example on_style_path : Path.on ".backgroundColor" = ["style"; "backgroundColor"].
Proof. reflexivity. Qed.

Example on_plain : Path.on "value" = ["value"].
Proof. reflexivity. Qed.

(** [on] keeps the alias of the last predicate whose test holds: with two
    predicates, the child alias when the selector has a [>], else the
    style alias when it starts with a dot, else the selector itself. *)
Lemma on_unfold s :
  Path.on s =
  if Str.contains_char ">" s
  then Path.prop (Str.replace_all ">" ".children." s)
  else if Str.starts_with_char "." s then Path.prop ("style" +:+ s)
       else Path.prop s.
Proof.
  cbv [Path.on Path.propWrapper Path.selectorValidator fold_left
       Path.styleAlias Path.childAlias Path.test Path.alias Str.gt Str.dot].
  destruct (Str.contains_char ">" s); [reflexivity|].
  destruct (Str.starts_with_char "." s); reflexivity.
Qed.

(** C7 (as stated, refuted): a selector with a leading dot that also has a
    [>] does not resolve to a path under the key [style]; the child alias
    replaces the style alias. *)
Lemma on_leading_dot_with_child_not_style :
  Str.starts_with_char "." ".a>0" = true /\
  Path.on ".a>0" = ["a"; "children"; "0"] /\
  ~ (exists rest, Path.on ".a>0" = "style" :: rest).
Proof.
  split; [reflexivity|]. split; [reflexivity|].
  intros [rest H]. vm_compute in H. discriminate.
Qed.

(** C7 (amended): [on] applies one alias rewrite before splitting.  A
    selector with a [>] resolves with every [>] replaced by a [children]
    step followed by what comes after it; a selector without [>] and with
    a leading dot resolves to its path under the key [style]; any other
    selector resolves to its own keys; the key sequence never has an
    empty key. *)
Theorem on_alias_rewrites :
  (forall s, Path.on s =
     if Str.contains_char ">" s
     then Path.prop (Str.replace_all ">" ".children." s)
     else if Str.starts_with_char "." s then "style" :: Path.prop s
          else Path.prop s) /\
  (forall a b, Path.on (a +:+ ">" +:+ b) =
     Path.prop (Str.replace_all ">" ".children." a)
     ++ "children" :: Path.prop (Str.replace_all ">" ".children." b)) /\
  (forall s, Forall (fun k => k <> "") (Path.on s)).
Proof.
  split; [|split].
  - intros s. rewrite on_unfold.
    destruct (Str.contains_char ">" s); [reflexivity|].
    destruct s as [|c r]; [reflexivity|].
    unfold Str.starts_with_char.
    destruct (Ascii.eqb c ".") eqn:E; [|reflexivity].
    apply Ascii.eqb_eq in E. subst c.
    rewrite (prop_app_dot "style" r).
    change (Path.prop (String "." r)) with (Path.prop ("" +:+ String "." r)).
    now rewrite (prop_app_dot "" r).
  - intros a b. rewrite on_unfold.
    change (a +:+ ">" +:+ b) with (a +:+ String ">" b).
    rewrite contains_char_app.
    change (Str.contains_char ">" (String ">" b)) with true.
    rewrite orb_true_r, replace_all_app.
    set (a' := Str.replace_all ">" ".children." a).
    change (Str.replace_all ">" ".children." (String ">" b))
      with (String "." ("children" +:+ String "." (Str.replace_all ">" ".children." b))).
    now rewrite (prop_app_dot a'), (prop_app_dot "children").
  - intros s. rewrite on_unfold.
    destruct (Str.contains_char ">" s); [apply prop_no_empty_key|].
    destruct (Str.starts_with_char "." s); apply prop_no_empty_key.
Qed.

(* ===================================================================== *)
(** ** Visibility: [hide] and [show] *)
(* ===================================================================== *)

Import Js Dom FQuery.

Section ElementSteps.
Variables (st : dom) (l : loc) (e : element).
Hypothesis He : elements st !! l = Some e.

Lemma bind_ok {A B} (m : M A) (k : A -> M B) s a s' :
  m s = Ok a s' -> bind m k s = k a s'.
Proof. unfold bind. now intros ->. Qed.

Lemma update_lookup e' : elements (update st l e') !! l = Some e'.
Proof. apply lookup_insert_eq. Qed.

Lemma update_update e1 e2 : update (update st l e1) l e2 = update st l e2.
Proof. unfold update; simpl. f_equal. apply insert_insert_eq. Qed.

Lemma get_style : get (VElem l) "style" st = Ok (VStyle l) st.
Proof. unfold get, with_element. now rewrite He. Qed.

Lemma get_attr k :
  k <> "style" -> k <> "children" ->
  get (VElem l) k st = Ok (default VUndef (attrs e !! k)) st.
Proof.
  intros H1 H2. unfold get, with_element. rewrite He.
  apply String.eqb_neq in H1, H2. now rewrite H1, H2.
Qed.

Lemma get_style_property k :
  get (VStyle l) k st = Ok (default VUndef (style e !! k)) st.
Proof. unfold get, with_element. now rewrite He. Qed.

Lemma put_style_property k s :
  put (VStyle l) k (VStr s) st
  = Ok tt (update st l (with_style e (<[k := VStr s]> (style e)))).
Proof. unfold put, with_element. now rewrite He. Qed.

Lemma computed_display_of :
  getComputedStyle_display (VElem l) st = Ok (VStr (computed_display e)) st.
Proof. unfold getComputedStyle_display, with_element. now rewrite He. Qed.
End ElementSteps.

Lemma stored_display_is_expando tg :
  existsb (String.eqb "$$$display") (string_properties tg) = false.
Proof. unfold string_properties. destruct (String.eqb tg "input"); reflexivity. Qed.

Lemma put_stored_display st l e v :
  elements st !! l = Some e ->
  put (VElem l) "$$$display" v st
  = Ok tt (update st l (with_attrs e (<["$$$display" := v]> (attrs e)))).
Proof.
  intros He. unfold put, with_element. rewrite He.
  cbn [String.eqb Ascii.eqb Bool.eqb]. rewrite stored_display_is_expando. reflexivity.
Qed.

Lemma delete_stored_display st l e :
  elements st !! l = Some e ->
  delete_property (VElem l) "$$$display" st
  = Ok tt (update st l (with_attrs e (delete "$$$display" (attrs e)))).
Proof.
  intros He. unfold delete_property, with_element. rewrite He.
  cbn [String.eqb Ascii.eqb Bool.eqb orb]. rewrite stored_display_is_expando. reflexivity.
Qed.

Lemma computed_display_ext e e' :
  style e !! "display" = style e' !! "display" ->
  sheetDisplay e = sheetDisplay e' ->
  computed_display e = computed_display e'.
Proof. unfold computed_display. now intros -> ->. Qed.

Lemma hide_element st l e :
  elements st !! l = Some e ->
  hide (VElem l) st = Ok (VElem l) (update st l (Spec.hidden e)).
Proof.
  intros H. unfold hide, bind.
  rewrite (get_style st l e H), (put_style_property st l e H).
  set (e1 := with_style e _).
  pose proof (update_lookup st l e1) as H1.
  rewrite (computed_display_of _ l e1 H1), (put_stored_display _ l e1 _ H1).
  rewrite update_update.
  set (e2 := with_attrs e1 _).
  pose proof (update_lookup st l e2) as H2.
  rewrite (get_style _ l e2 H2), (put_style_property _ l e2 H2).
  rewrite update_update. unfold ret. f_equal. f_equal.
  unfold e2, e1, Spec.hidden, with_style, with_attrs; simpl.
  do 3 f_equal. apply computed_display_ext; simpl; [|reflexivity].
  now rewrite lookup_insert_ne.
Qed.

Lemma show_element st l e stored :
  elements st !! l = Some e ->
  attrs e !! "$$$display" = VStr <$> stored ->
  show (VElem l) st = Ok (VElem l) (update st l (Spec.shown e stored)).
Proof.
  intros H Hs. unfold show, bind.
  rewrite (get_style st l e H), (put_style_property st l e H).
  set (e1 := with_style e _).
  pose proof (update_lookup st l e1) as H1.
  rewrite (get_style _ l e1 H1), (get_attr _ l e1 H1) by discriminate.
  assert (attrs e1 !! "$$$display" = VStr <$> stored) as -> by exact Hs.
  assert ((if truthy (default VUndef (VStr <$> stored))
           then get (VElem l) "$$$display" else ret (VStr "")) (update st l e1)
          = Ok (VStr (default "" stored)) (update st l e1)) as ->.
  { destruct stored as [[|c d]|]; try reflexivity.
    simpl. unfold with_element. rewrite H1.
    change (attrs e1) with (attrs e). now rewrite Hs. }
  rewrite (put_style_property _ l e1 H1), update_update.
  set (e2 := with_style e1 _).
  pose proof (update_lookup st l e2) as H2.
  rewrite (delete_stored_display _ l e2 H2), update_update.
  reflexivity.
Qed.



(** The round trips, from the two lemmas. *)
Lemma show_after_hide st l e :
  elements st !! l = Some e ->
  bind (hide (VElem l)) show st
  = Ok (VElem l) (update st l (Spec.shown (Spec.hidden e) (Some (computed_display e)))).
Proof.
  intros H. unfold bind. rewrite (hide_element st l e H).
  rewrite (show_element _ l (Spec.hidden e) (Some (computed_display e))).
  - now rewrite update_update.
  - apply update_lookup.
  - simpl. apply lookup_insert_eq.
Qed.

Lemma hide_after_show st l e stored :
  elements st !! l = Some e ->
  attrs e !! "$$$display" = VStr <$> stored ->
  bind (show (VElem l)) hide st
  = Ok (VElem l) (update st l (Spec.hidden (Spec.shown e stored))).
Proof.
  intros H Hs. unfold bind. rewrite (show_element st l e stored H Hs).
  rewrite (hide_element _ l (Spec.shown e stored)).
  - now rewrite update_update.
  - apply update_lookup.
Qed.

Lemma computed_display_inline e d :
  style e !! "display" = Some (VStr d) -> d <> "" -> computed_display e = d.
Proof.
  intros H Hd. unfold computed_display. rewrite H. now destruct d.
Qed.

Lemma computed_display_shown_hidden e :
  computed_display (Spec.shown (Spec.hidden e) (Some (computed_display e)))
  = computed_display e.
Proof.
  unfold computed_display at 1. simpl. rewrite lookup_insert_eq.
  destruct (computed_display e) eqn:E; [|reflexivity].
  simpl. unfold computed_display in E.
  destruct (style e !! "display") as [[]|]; try exact E.
  destruct s; [exact E | discriminate].
Qed.

(** C4 (amended): [show] after [hide] leaves opacity 1 and the computed
    display of the element unchanged, so it restores the style of an
    element that was shown (opacity 1, a display written inline); [hide]
    after [show] leaves opacity 0 and display none, so it restores the
    style of an element that was hidden. *)
Theorem hide_show_round_trips st l e :
  elements st !! l = Some e ->
  (exists e',
     bind (hide (VElem l)) show st = Ok (VElem l) (update st l e') /\
     style e' !! "opacity" = Some (VStr "1") /\
     computed_display e' = computed_display e /\
     (forall d, style e !! "opacity" = Some (VStr "1") ->
                style e !! "display" = Some (VStr d) -> d <> "" ->
                style e' = style e)) /\
  (forall stored : option string,
     attrs e !! "$$$display" = VStr <$> stored ->
     exists e',
       bind (show (VElem l)) hide st = Ok (VElem l) (update st l e') /\
       style e' !! "opacity" = Some (VStr "0") /\
       style e' !! "display" = Some (VStr "none") /\
       (style e !! "opacity" = Some (VStr "0") ->
        style e !! "display" = Some (VStr "none") ->
        style e' = style e)).
Proof.
  intros H. split.
  - eexists. split; [exact (show_after_hide st l e H)|].
    split; [|split].
    + simpl. rewrite lookup_insert_ne by discriminate. apply lookup_insert_eq.
    + apply computed_display_shown_hidden.
    + intros d Ho Hd Hne. simpl.
      rewrite (computed_display_inline e d Hd Hne).
      apply map_eq. intros k.
      destruct (decide (k = "display")) as [->|Hk1].
      { now rewrite lookup_insert_eq, Hd. }
      rewrite lookup_insert_ne by congruence.
      destruct (decide (k = "opacity")) as [->|Hk2].
      { now rewrite lookup_insert_eq, Ho. }
      rewrite lookup_insert_ne by congruence.
      rewrite lookup_insert_ne by congruence.
      now rewrite lookup_insert_ne by congruence.
  - intros stored Hs. eexists. split; [exact (hide_after_show st l e stored H Hs)|].
    split; [|split].
    + simpl. rewrite lookup_insert_ne by discriminate. apply lookup_insert_eq.
    + simpl. apply lookup_insert_eq.
    + intros Ho Hd. simpl.
      apply map_eq. intros k.
      destruct (decide (k = "display")) as [->|Hk1].
      { now rewrite lookup_insert_eq, Hd. }
      rewrite lookup_insert_ne by congruence.
      destruct (decide (k = "opacity")) as [->|Hk2].
      { now rewrite lookup_insert_eq, Ho. }
      rewrite lookup_insert_ne by congruence.
      rewrite lookup_insert_ne by congruence.
      now rewrite lookup_insert_ne by congruence.
Qed.

(** C4 (as stated, refuted): on a shown element (opacity 1) [hide] after
    [show] ends with opacity 0 and display none, and on a hidden element
    (opacity 0) [show] after [hide] ends with opacity 1: neither round
    trip restores the original values. *)
Lemma round_trip_does_not_restore :
  (exists st',
     bind (show (VElem Spec.sample_item)) hide Spec.sample_shown
     = Ok (VElem Spec.sample_item) st' /\
     Spec.inline Spec.sample_shown Spec.sample_item "opacity" = Some (VStr "1") /\
     Spec.inline st' Spec.sample_item "opacity" = Some (VStr "0") /\
     Spec.inline Spec.sample_shown Spec.sample_item "display" = Some (VStr "") /\
     Spec.inline st' Spec.sample_item "display" = Some (VStr "none")) /\
  (exists st',
     bind (hide (VElem Spec.sample_item)) show Spec.sample_hidden
     = Ok (VElem Spec.sample_item) st' /\
     Spec.inline Spec.sample_hidden Spec.sample_item "opacity" = Some (VStr "0") /\
     Spec.inline st' Spec.sample_item "opacity" = Some (VStr "1")).
Proof.
  split.
  - eexists. split; [vm_compute; reflexivity|]. repeat split; vm_compute; reflexivity.
  - eexists. split; [vm_compute; reflexivity|]. repeat split; vm_compute; reflexivity.
Qed.

Lemma hide_show_round_trips_witness :
  elements Spec.sample !! Spec.sample_item = Some Spec.sample_element /\
  exists e',
    bind (hide (VElem Spec.sample_item)) show Spec.sample
    = Ok (VElem Spec.sample_item) (update Spec.sample Spec.sample_item e') /\
    style e' !! "opacity" = Some (VStr "1") /\
    computed_display e' = computed_display Spec.sample_element.
Proof.
  assert (elements Spec.sample !! Spec.sample_item = Some Spec.sample_element) as H
    by (vm_compute; reflexivity).
  split; [exact H|].
  destruct (proj1 (hide_show_round_trips _ _ _ H)) as (e' & H1 & H2 & H3 & _).
  exists e'. auto.
Defined.

(** C10: for an element whose computed display is not none, the first
    [hide] stores that display, the second [hide] overwrites it with none,
    and [show] then sets the display to none: the element stays hidden. *)
Theorem hide_twice_then_show st l e :
  elements st !! l = Some e ->
  computed_display e <> "none" ->
  exists e1 e2 e3,
    hide (VElem l) st = Ok (VElem l) (update st l e1) /\
    attrs e1 !! "$$$display" = Some (VStr (computed_display e)) /\
    hide (VElem l) (update st l e1) = Ok (VElem l) (update st l e2) /\
    attrs e2 !! "$$$display" = Some (VStr "none") /\
    attrs e2 !! "$$$display" <> attrs e1 !! "$$$display" /\
    show (VElem l) (update st l e2) = Ok (VElem l) (update st l e3) /\
    style e3 !! "display" = Some (VStr "none") /\
    computed_display e3 = "none".
Proof.
  intros H Hc.
  exists (Spec.hidden e), (Spec.hidden (Spec.hidden e)),
         (Spec.shown (Spec.hidden (Spec.hidden e)) (Some "none")).
  assert (computed_display (Spec.hidden e) = "none") as Hn.
  { unfold computed_display. simpl. now rewrite lookup_insert_eq. }
  assert (attrs (Spec.hidden (Spec.hidden e)) !! "$$$display" = Some (VStr "none")) as H2.
  { simpl. rewrite Hn. apply lookup_insert_eq. }
  assert (attrs (Spec.hidden e) !! "$$$display" = Some (VStr (computed_display e))) as H1.
  { simpl. apply lookup_insert_eq. }
  repeat split.
  - now apply hide_element.
  - exact H1.
  - rewrite (hide_element _ l (Spec.hidden e)) by apply update_lookup.
    now rewrite update_update.
  - exact H2.
  - rewrite H1, H2. congruence.
  - rewrite (show_element _ l (Spec.hidden (Spec.hidden e)) (Some "none"));
      [now rewrite update_update | apply update_lookup | exact H2].
  - simpl. apply lookup_insert_eq.
  - unfold computed_display. simpl. now rewrite lookup_insert_eq.
Qed.

Lemma hide_twice_then_show_witness :
  elements Spec.sample !! Spec.sample_item = Some Spec.sample_element /\
  computed_display Spec.sample_element <> "none" /\
  exists e1 e2 e3,
    hide (VElem Spec.sample_item) Spec.sample
    = Ok (VElem Spec.sample_item) (update Spec.sample Spec.sample_item e1) /\
    hide (VElem Spec.sample_item) (update Spec.sample Spec.sample_item e1)
    = Ok (VElem Spec.sample_item) (update Spec.sample Spec.sample_item e2) /\
    show (VElem Spec.sample_item) (update Spec.sample Spec.sample_item e2)
    = Ok (VElem Spec.sample_item) (update Spec.sample Spec.sample_item e3) /\
    computed_display e3 = "none".
Proof.
  assert (elements Spec.sample !! Spec.sample_item = Some Spec.sample_element) as H
    by (vm_compute; reflexivity).
  assert (computed_display Spec.sample_element <> "none") as Hc
    by (vm_compute; discriminate).
  split; [exact H|]. split; [exact Hc|].
  destruct (hide_twice_then_show _ _ _ H Hc)
    as (e1 & e2 & e3 & H1 & _ & H2 & _ & _ & H3 & _ & H4).
  exists e1, e2, e3. auto.
Defined.

(** ** Property paths: [getValue] and [setValue] *)

Lemma get_pure first second st v st' :
  get first second st = Ok v st' -> st' = st.
Proof.
  destruct first; simpl; unfold ret, throw, with_element; try congruence.
  - destruct (elements st !! l); [|discriminate].
    destruct (String.eqb second "style"); [unfold ret; congruence|].
    destruct (String.eqb second "children"); unfold ret; congruence.
  - destruct (elements st !! l); [unfold ret; congruence | discriminate].
Qed.

Lemma getValue_pure target path st r st' :
  getValue target path st = Ok r st' -> st' = st.
Proof.
  unfold getValue. revert target st. induction path as [|k path IH]; intros target st; simpl.
  - unfold ret. congruence.
  - unfold bind. destruct (get target k st) as [v st1| |] eqn:E; try discriminate.
    apply get_pure in E. subst st1. apply IH.
Qed.

Lemma setValue_step v first second rest st :
  setValue v first (second :: rest) st =
  match get first second st with
  | Ok current _ =>
      if isString current
      then bind (put first second (VStr v)) (fun _ => setValue v (VStr v) rest) st
      else setValue v current rest st
  | Throw e => Throw e
  | Unmodelled => Unmodelled
  end.
Proof.
  unfold setValue at 1. simpl. unfold bind at 1 2.
  destruct (get first second st) as [cur st1| |] eqn:E; try reflexivity.
  pose proof (get_pure _ _ _ _ _ E) as ->.
  unfold validator; simpl. destruct (isString cur) eqn:Hs; simpl.
  - unfold bind. destruct (put first second (VStr v) st); reflexivity.
  - rewrite E. reflexivity.
Qed.

Lemma same_or_strings_refl m : Spec.same_or_strings m m.
Proof. intros k. now left. Qed.

Lemma same_or_strings_trans m1 m2 m3 :
  Spec.same_or_strings m1 m2 -> Spec.same_or_strings m2 m3 -> Spec.same_or_strings m1 m3.
Proof.
  intros H12 H23 k. destruct (H12 k) as [E|[Ha Hb]], (H23 k) as [E'|[Hc Hd]].
  - left. congruence.
  - right. split; [now rewrite <- E | exact Hd].
  - right. split; [exact Ha | now rewrite E'].
  - right. now split.
Qed.

Lemma same_or_strings_insert m k s v :
  m !! k = Some (VStr s) -> Spec.same_or_strings m (<[k := VStr v]> m).
Proof.
  intros H k'. destruct (decide (k = k')) as [<-|Hne].
  - right. rewrite lookup_insert_eq, H. split; eexists; reflexivity.
  - left. now apply lookup_insert_ne.
Qed.

Lemma only_strings_refl st : Spec.only_strings_rewritten st st.
Proof.
  intros l e H. exists e. repeat split; auto using same_or_strings_refl.
Qed.

Lemma only_strings_trans st1 st2 st3 :
  Spec.only_strings_rewritten st1 st2 -> Spec.only_strings_rewritten st2 st3 ->
  Spec.only_strings_rewritten st1 st3.
Proof.
  intros H12 H23 l e H.
  destruct (H12 l e H) as (e2 & H2 & Ht & Hd & Ha & Hs).
  destruct (H23 l e2 H2) as (e3 & H3 & Ht' & Hd' & Ha' & Hs').
  exists e3. repeat split; try congruence; eauto using same_or_strings_trans.
Qed.

Lemma only_strings_update st l e e' :
  elements st !! l = Some e ->
  tag e' = tag e -> sheetDisplay e' = sheetDisplay e ->
  Spec.same_or_strings (attrs e) (attrs e') ->
  Spec.same_or_strings (style e) (style e') ->
  Spec.only_strings_rewritten st (update st l e').
Proof.
  intros H Ht Hd Ha Hs l0 e0 H0. destruct (decide (l = l0)) as [<-|Hne].
  - exists e'. rewrite update_lookup. replace e0 with e by congruence. auto.
  - exists e0. unfold update; simpl. rewrite lookup_insert_ne by exact Hne.
    repeat split; auto using same_or_strings_refl.
Qed.

Lemma fresh_loc_fresh st : elements st !! fresh_loc st = None.
Proof.
  destruct (elements st !! fresh_loc st) as [e|] eqn:E; [|reflexivity].
  exfalso. unfold fresh_loc in E.
  set (ks := List.map fst (map_to_list (elements st)) ++ List.map fst (nodes st)) in E.
  assert (S (max_list ks) ∈ ks) as Hin.
  { unfold ks. apply elem_of_app. left.
    apply list_elem_of_In, in_map_iff. exists (S (max_list ks), e). split; [reflexivity|].
    apply list_elem_of_In, elem_of_map_to_list. exact E. }
  apply max_list_elem_of_le in Hin. lia.
Qed.

Lemma alloc_kids_keeps anchors st ls st' :
  alloc_kids anchors st = (ls, st') ->
  nodes st' = nodes st /\ listeners st' = listeners st /\
  forall l e, elements st !! l = Some e -> elements st' !! l = Some e.
Proof.
  revert st ls st'. induction anchors as [|[cls txt] rest IH]; intros st ls st'; simpl.
  - intros [= <- <-]. auto.
  - destruct (alloc_kids rest _) as [ls2 st2] eqn:E. intros [= <- <-].
    destruct (IH _ _ _ E) as (Hn & Hl & He). simpl in *.
    repeat split; auto. intros l e H. apply He.
    rewrite lookup_insert_ne; [exact H|].
    intros <-. rewrite fresh_loc_fresh in H. discriminate.
Qed.

Lemma put_only_strings first second v st st' s :
  get first second st = Ok (VStr s) st ->
  put first second (VStr v) st = Ok tt st' ->
  Spec.only_strings_rewritten st st'.
Proof.
  destruct first; simpl; unfold throw, unmodelled, with_element; try discriminate.
  - (* element *)
    destruct (elements st !! l) as [e|] eqn:He; [|discriminate].
    destruct (String.eqb second "style") eqn:E1.
    { destruct (String.eqb second "children"); discriminate. }
    destruct (String.eqb second "children") eqn:E2; [discriminate|].
    unfold ret. intros [= Hget].
    assert (attrs e !! second = Some (VStr s)) as Hat.
    { destruct (attrs e !! second); simpl in Hget; congruence. }
    destruct (String.eqb second "innerHTML") eqn:E3.
    + apply String.eqb_eq in E3. subst second.
      unfold set_innerHTML. destruct (parse_markup v) as [anchors|]; [|discriminate].
      rewrite He. destruct (locate l (nodes st)) as [[[[b d] below] a]|]; [|discriminate].
      destruct (alloc_kids anchors st) as [ls st1] eqn:Ea.
      intros [= <-]. destruct (alloc_kids_keeps _ _ _ _ Ea) as (_ & _ & Hk).
      intros l0 e0 H0. simpl. destruct (decide (l = l0)) as [<-|Hne].
      * rewrite lookup_insert_eq. eexists. split; [reflexivity|].
        replace e0 with e by congruence. simpl.
        repeat split; auto using same_or_strings_refl.
        eapply same_or_strings_insert; eauto.
      * rewrite lookup_insert_ne by exact Hne. exists e0.
        repeat split; auto using same_or_strings_refl.
    + rewrite andb_false_r. unfold set_element. intros [= <-].
      eapply only_strings_update; eauto; simpl; auto using same_or_strings_refl.
      eapply same_or_strings_insert; eauto.
  - (* style *)
    destruct (elements st !! l) as [e|] eqn:He; [|discriminate].
    unfold ret, set_element. intros [= Hget] [= <-].
    assert (style e !! second = Some (VStr s)) as Hat.
    { destruct (style e !! second); simpl in Hget; congruence. }
    eapply only_strings_update; eauto; simpl; auto using same_or_strings_refl.
    eapply same_or_strings_insert; eauto.
  - (* children *)
    intros _. destruct (_ || _); discriminate.
Qed.

Lemma setValue_only_strings v target path st r st' :
  setValue v target path st = Ok r st' -> Spec.only_strings_rewritten st st'.
Proof.
  revert target st. induction path as [|k path IH]; intros target st.
  - unfold setValue; simpl. unfold ret. intros [= _ <-]. apply only_strings_refl.
  - rewrite setValue_step.
    destruct (get target k st) as [cur st1| |] eqn:E; try discriminate.
    pose proof (get_pure _ _ _ _ _ E) as ->.
    destruct (isString cur) eqn:Hs.
    + destruct cur; try discriminate. unfold bind.
      destruct (put target k (VStr v) st) as [[] st2| |] eqn:Ep; try discriminate.
      intros H. eapply only_strings_trans; [eapply put_only_strings; eauto | eapply IH; eauto].
    + apply IH.
Qed.

(** C6 (as stated, refuted): a path that continues past a missing step
    is reported; [getValue] and [setValue] both throw a TypeError. *)
Lemma missing_path_is_reported :
  get (VElem Spec.sample_item) "missing" Spec.sample = Ok VUndef Spec.sample /\
  getValue (VElem Spec.sample_item) (Path.on "missing.name") Spec.sample
  = Throw TypeError /\
  setValue "x" (VElem Spec.sample_item) (Path.on "missing.name") Spec.sample
  = Throw TypeError.
Proof. repeat split; vm_compute; reflexivity. Qed.

Lemma get_of_undefined second st : get VUndef second st = Throw TypeError.
Proof. reflexivity. Qed.

(** C6 (amended): at each step [setValue] writes when the current value
    is a string and otherwise walks on without writing, so it only ever
    rewrites string-valued properties; [getValue] changes nothing; a
    missing last key is not reported ([getValue] gives undefined and
    [setValue] writes nothing); a path that continues past a missing
    step throws a TypeError. *)
Theorem paths_write_strings_only :
  (forall v first second rest st,
     setValue v first (second :: rest) st =
     match get first second st with
     | Ok current _ =>
         if isString current
         then bind (put first second (VStr v)) (fun _ => setValue v (VStr v) rest) st
         else setValue v current rest st
     | Throw e => Throw e
     | Unmodelled => Unmodelled
     end) /\
  (forall v target path st r st',
     setValue v target path st = Ok r st' -> Spec.only_strings_rewritten st st') /\
  (forall target path st r st',
     getValue target path st = Ok r st' -> st' = st) /\
  (forall v first second st,
     get first second st = Ok VUndef st ->
     getValue first [second] st = Ok VUndef st /\
     setValue v first [second] st = Ok VUndef st) /\
  (forall v first second third rest st,
     get first second st = Ok VUndef st ->
     getValue first (second :: third :: rest) st = Throw TypeError /\
     setValue v first (second :: third :: rest) st = Throw TypeError).
Proof.
  split; [exact setValue_step|].
  split; [exact setValue_only_strings|].
  split; [exact getValue_pure|].
  split.
  - intros v first second st H. split.
    + unfold getValue; simpl. unfold bind. now rewrite H.
    + rewrite setValue_step, H. reflexivity.
  - intros v first second third rest st H. split.
    + unfold getValue; simpl. unfold bind. now rewrite H.
    + rewrite setValue_step, H. simpl. now rewrite setValue_step.
Qed.

Lemma paths_write_strings_only_witness :
  get (VElem Spec.sample_item) "missing" Spec.sample = Ok VUndef Spec.sample /\
  (getValue (VElem Spec.sample_item) ["missing"] Spec.sample = Ok VUndef Spec.sample /\
   setValue "x" (VElem Spec.sample_item) ["missing"] Spec.sample
   = Ok VUndef Spec.sample) /\
  (getValue (VElem Spec.sample_item) ["missing"; "name"] Spec.sample = Throw TypeError /\
   setValue "x" (VElem Spec.sample_item) ["missing"; "name"] Spec.sample
   = Throw TypeError).
Proof.
  assert (get (VElem Spec.sample_item) "missing" Spec.sample = Ok VUndef Spec.sample)
    as H by (vm_compute; reflexivity).
  destruct paths_write_strings_only as (_ & _ & _ & H1 & H2).
  split; [exact H|]. split; [exact (H1 "x" _ _ _ H) | exact (H2 "x" _ _ "name" [] _ H)].
Defined.

(** ** Collections: [then], [find], [match], [set] *)

Lemma then_method_filter n :
  then_method n = "filter" <-> n = "m" \/ n = "f".
Proof.
  unfold then_method. rewrite <- !String.eqb_eq, <- orb_true_iff.
  destruct (String.eqb n "m" || String.eqb n "f"); split; intros H;
    try reflexivity; try discriminate.
Qed.

Lemma then_method_map n :
  n <> "m" -> n <> "f" -> then_method n = "map".
Proof.
  intros H1 H2. unfold then_method.
  apply String.eqb_neq in H1, H2. now rewrite H1, H2.
Qed.

(** C8: a named function given to [then] runs as a filter exactly when its
    name is [m] or [f], and as a map for every other name that is not
    empty; [find] and [match] are named [f] and [m], [set] is named [s]. *)
Theorem then_dispatch :
  (forall n, then_method n = "filter" <-> n = "m" \/ n = "f") /\
  (forall n, n <> "m" -> n <> "f" -> then_method n = "map") /\
  (forall xs f st,
     name f = "m" \/ name f = "f" ->
     then_ (VArr xs) (ActFunction f) st =
     bind (array_filter f xs)
          (fun t => ret (Transformed (continueOrEnd (VArr t) (VArr t)))) st) /\
  (forall xs f st,
     name f <> "" -> name f <> "m" -> name f <> "f" ->
     then_ (VArr xs) (ActFunction f) st =
     bind (array_map f xs)
          (fun t => ret (Transformed (continueOrEnd (VArr t) (VArr t)))) st) /\
  (forall obj, name (find obj) = "f" /\ name (match_ obj) = "m" /\
               name (set_ obj) = "s").
Proof.
  split; [exact then_method_filter|]. split; [exact then_method_map|].
  split; [|split].
  - intros xs f st H. unfold then_.
    assert (name f <> "") as Hn by (destruct H as [-> | ->]; discriminate).
    apply String.eqb_neq in Hn. rewrite Hn. simpl.
    apply then_method_filter in H. rewrite H. reflexivity.
  - intros xs f st Hn H1 H2. unfold then_.
    apply String.eqb_neq in Hn. rewrite Hn. simpl.
    rewrite (then_method_map _ H1 H2). reflexivity.
  - intros obj. repeat split.
Qed.

Lemma then_dispatch_witness :
  let xs := [VElem Spec.sample_item] in
  then_ (VArr xs) (ActFunction (find [(">0>1.innerHTML", "a")])) Spec.sample =
  bind (array_filter (find [(">0>1.innerHTML", "a")]) xs)
       (fun t => ret (Transformed (continueOrEnd (VArr t) (VArr t)))) Spec.sample /\
  then_ (VArr xs) (ActFunction (set_ [("className", "match")])) Spec.sample =
  bind (array_map (set_ [("className", "match")]) xs)
       (fun t => ret (Transformed (continueOrEnd (VArr t) (VArr t)))) Spec.sample /\
  then_ (VArr xs) (ActFunction hide_function) Spec.sample =
  bind (array_map hide_function xs)
       (fun t => ret (Transformed (continueOrEnd (VArr t) (VArr t)))) Spec.sample.
Proof.
  cbv zeta. destruct then_dispatch as (_ & _ & Hf & Hm & _).
  split; [|split].
  - apply Hf. now right.
  - apply Hm; discriminate.
  - apply Hm; discriminate.
Defined.

Section Predicates.
Variables (st : dom) (x : value) (value_at : string -> string).

Lemma findIt_some propArray :
  Spec.resolves st x value_at propArray ->
  call (findIt propArray) [x] st
  = Ok (VBool (existsb (fun p => Str.includes (value_at (fst p)) (snd p)) propArray)) st.
Proof.
  intros H. unfold findIt, call, arg; simpl. unfold bind at 1.
  assert (forall ps, (forall p, In p ps -> In p propArray) ->
    some (fun property : PropertyArray =>
            bind (dollar_start and_ x (Noun (Path.on (fst property))) getValue)
                 (fun c => includes_method (end_ c) (snd property))) ps st
    = Ok (existsb (fun p => Str.includes (value_at (fst p)) (snd p)) ps) st) as Hs.
  { induction ps as [|p ps IH]; intros Hin; simpl; [reflexivity|].
    unfold bind at 1 2. unfold dollar_start, and_. unfold bind at 1.
    rewrite (H p) by (apply Hin; now left). simpl.
    destruct (Str.includes (value_at (fst p)) (snd p)); [reflexivity|].
    apply IH. intros q Hq. apply Hin. now right. }
  rewrite Hs by auto. reflexivity.
Qed.

Lemma matchIt_every propArray :
  Spec.resolves st x value_at propArray ->
  call (matchIt propArray) [x] st
  = Ok (VBool (forallb (fun p => String.eqb (value_at (fst p)) (snd p)) propArray)) st.
Proof.
  intros H. unfold matchIt, call, arg; simpl. unfold bind at 1.
  assert (forall ps, (forall p, In p ps -> In p propArray) ->
    every (fun property : PropertyArray =>
             bind (dollar_start and_ x (Noun (Path.on (fst property))) getValue)
                  (fun c => lift_option (loose_eq_string (end_ c) (snd property)))) ps st
    = Ok (forallb (fun p => String.eqb (value_at (fst p)) (snd p)) ps) st) as Hs.
  { induction ps as [|p ps IH]; intros Hin; simpl; [reflexivity|].
    unfold bind at 1 2. unfold dollar_start, and_. unfold bind at 1.
    rewrite (H p) by (apply Hin; now left). simpl.
    destruct (String.eqb (value_at (fst p)) (snd p)); [|reflexivity].
    apply IH. intros q Hq. apply Hin. now right. }
  rewrite Hs by auto. reflexivity.
Qed.
End Predicates.

(** C9 (as stated, refuted): the class of the sample item contains the
    paired value, but the property listed before it reads as undefined,
    and [findIt] does not accept the element: it throws a TypeError. *)
Lemma find_throws_before_a_match :
  getValue (VElem Spec.sample_item) (Path.on "className") Spec.sample
  = Ok (VStr "student-item cf") Spec.sample /\
  Str.includes "student-item cf" "student" = true /\
  getValue (VElem Spec.sample_item) (Path.on "href") Spec.sample
  = Ok VUndef Spec.sample /\
  call (findIt [("href", "x"); ("className", "student")])
    [VElem Spec.sample_item] Spec.sample
  = Throw TypeError.
Proof. repeat split; vm_compute; reflexivity. Qed.

(** C9 (amended): when the listed properties resolve to strings, [findIt] accepts
    the element exactly when some listed property contains its paired
    value as a substring, and [matchIt] exactly when every listed
    property equals its paired value. *)
Theorem find_any_match_all st x value_at propArray :
  Spec.resolves st x value_at propArray ->
  (exists b, call (findIt propArray) [x] st = Ok (VBool b) st /\
     (b = true <->
      exists p, In p propArray /\
        exists before after, value_at (fst p) = before +:+ snd p +:+ after)) /\
  (exists b, call (matchIt propArray) [x] st = Ok (VBool b) st /\
     (b = true <-> forall p, In p propArray -> value_at (fst p) = snd p)).
Proof.
  intros H. split.
  - eexists. split; [exact (findIt_some st x value_at propArray H)|].
    rewrite existsb_exists. split.
    + intros (p & Hp & Hi). exists p. split; [exact Hp|]. now apply includes_spec.
    + intros (p & Hp & Hi). exists p. split; [exact Hp|]. now apply includes_spec.
  - eexists. split; [exact (matchIt_every st x value_at propArray H)|].
    rewrite forallb_forall. split.
    + intros Hall p Hp. apply String.eqb_eq. now apply Hall.
    + intros Hall p Hp. apply String.eqb_eq. now apply Hall.
Qed.

Lemma find_any_match_all_witness :
  Spec.resolves Spec.sample (VElem Spec.sample_item) Spec.sample_values
    Spec.sample_props /\
  (exists b,
     call (findIt Spec.sample_props) [VElem Spec.sample_item] Spec.sample
     = Ok (VBool b) Spec.sample /\
     (b = true <->
      exists p, In p Spec.sample_props /\
        exists before after,
          Spec.sample_values (fst p) = before +:+ snd p +:+ after)) /\
  (exists b,
     call (matchIt Spec.sample_props) [VElem Spec.sample_item] Spec.sample
     = Ok (VBool b) Spec.sample /\
     (b = true <->
      forall p, In p Spec.sample_props -> Spec.sample_values (fst p) = snd p)).
Proof.
  assert (Spec.resolves Spec.sample (VElem Spec.sample_item) Spec.sample_values
            Spec.sample_props) as H.
  { intros p [<-|[<-|[]]]; vm_compute; reflexivity. }
  split; [exact H|]. exact (find_any_match_all _ _ _ _ H).
Defined.

(** On the sample item, whose class contains the first value and whose id
    is not the second, [find] accepts and [match] rejects. *)
Example find_accepts_match_rejects :
  call (findIt Spec.sample_props) [VElem Spec.sample_item] Spec.sample
  = Ok (VBool true) Spec.sample /\
  call (matchIt Spec.sample_props) [VElem Spec.sample_item] Spec.sample
  = Ok (VBool false) Spec.sample.
Proof. split; vm_compute; reflexivity. Qed.

(** ** The node forest *)

Section Forest.
Implicit Types (f b r below a x y : forest) (l p : loc) (d k : nat).

Lemma take_drop_deeper d f : take_deeper d f ++ drop_deeper d f = f.
Proof.
  induction f as [|[l k] f IH]; simpl; [reflexivity|].
  destruct (Nat.ltb d k); simpl; [now rewrite IH | reflexivity].
Qed.

Lemma take_deeper_all d f : Forall (Spec.deeper d) (take_deeper d f).
Proof.
  induction f as [|[l k] f IH]; simpl; [constructor|].
  destruct (Nat.ltb d k) eqn:E; [|constructor].
  constructor; [now apply Nat.ltb_lt in E | exact IH].
Qed.

Lemma take_deeper_drop d f : take_deeper d (drop_deeper d f) = [].
Proof.
  induction f as [|[l k] f IH]; simpl; [reflexivity|].
  destruct (Nat.ltb d k) eqn:E; [exact IH|]. simpl. now rewrite E.
Qed.

Lemma drop_deeper_drop d f : drop_deeper d (drop_deeper d f) = drop_deeper d f.
Proof.
  induction f as [|[l k] f IH]; simpl; [reflexivity|].
  destruct (Nat.ltb d k) eqn:E; [exact IH|]. simpl. now rewrite E.
Qed.

Lemma take_deeper_app d x y :
  Forall (Spec.deeper d) x -> take_deeper d (x ++ y) = x ++ take_deeper d y.
Proof.
  induction 1 as [|[l k] x Hk _ IH]; simpl; [reflexivity|].
  apply Nat.ltb_lt in Hk. simpl in Hk. now rewrite Hk, IH.
Qed.

Lemma drop_deeper_app d x y :
  Forall (Spec.deeper d) x -> drop_deeper d (x ++ y) = drop_deeper d y.
Proof.
  induction 1 as [|[l k] x Hk _ IH]; simpl; [reflexivity|].
  apply Nat.ltb_lt in Hk. simpl in Hk. now rewrite Hk, IH.
Qed.

Lemma deeper_mono d d' x :
  d' <= d -> Forall (Spec.deeper d) x -> Forall (Spec.deeper d') x.
Proof.
  intros Hle. apply List.Forall_impl. intros e He. unfold Spec.deeper in *. lia.
Qed.

Lemma locate_Some l f b d below a :
  locate l f = Some (b, d, below, a) ->
  exists r, f = b ++ (l, d) :: r /\ ~ In l (List.map fst b) /\
            below = take_deeper d r /\ a = drop_deeper d r.
Proof.
  revert b. induction f as [|[x k] f IH]; intros b; simpl; [discriminate|].
  destruct (Nat.eqb x l) eqn:E.
  - apply Nat.eqb_eq in E. subst x. intros [= <- <- <- <-].
    exists f. simpl. auto.
  - destruct (locate l f) as [[[[b' d'] below'] a']|]; [|discriminate].
    intros [= <- <- <- <-].
    destruct (IH b' eq_refl) as (r & -> & Hn & Hb & Ha).
    exists r. apply Nat.eqb_neq in E. simpl. intuition.
Qed.

Lemma locate_here l b d r :
  ~ In l (List.map fst b) ->
  locate l (b ++ (l, d) :: r) = Some (b, d, take_deeper d r, drop_deeper d r).
Proof.
  induction b as [|[x k] b IH]; simpl; intros Hn.
  - now rewrite Nat.eqb_refl.
  - destruct (Nat.eqb x l) eqn:E.
    + apply Nat.eqb_eq in E. tauto.
    + rewrite IH by tauto. reflexivity.
Qed.

Lemma locate_In l f : In l (List.map fst f) -> exists t, locate l f = Some t.
Proof.
  induction f as [|[x k] f IH]; simpl; [tauto|].
  destruct (Nat.eqb x l) eqn:E; [eauto|].
  intros [H|H]; [apply Nat.eqb_neq in E; tauto|].
  destruct (IH H) as ([[[b d] below] a] & ->). eauto.
Qed.

(** What is known of a located node. *)
Lemma locate_shape l f b d below a :
  locate l f = Some (b, d, below, a) ->
  f = b ++ (l, d) :: below ++ a /\ ~ In l (List.map fst b) /\
  Forall (Spec.deeper d) below /\ take_deeper d a = [] /\
  take_deeper d (below ++ a) = below /\ drop_deeper d (below ++ a) = a.
Proof.
  intros H. destruct (locate_Some _ _ _ _ _ _ H) as (r & -> & Hn & -> & ->).
  rewrite take_drop_deeper.
  split; [reflexivity|]. split; [exact Hn|]. split; [apply take_deeper_all|].
  split; [apply take_deeper_drop|]. split; reflexivity.
Qed.

Lemma lower_zero f : lower 0 f = f.
Proof.
  unfold lower. induction f as [|[l k] f IH]; simpl; [reflexivity|].
  rewrite IH. now rewrite Nat.sub_0_r.
Qed.

(** The document part of a forest is a prefix of it: a node of the
    document is found in the document. *)
Lemma attached_located p f b d below a :
  In p (attached f) ->
  locate p f = Some (b, d, below, a) ->
  attached f = List.map fst (b ++ (p, d) :: below) ++ List.map fst
                 (match b with [] => [] | (_, d0) :: _ => take_deeper d0 a end) /\
  (forall new, Forall (Spec.deeper d) new ->
     attached (b ++ (p, d) :: below ++ new ++ a)
     = List.map fst (b ++ (p, d) :: below) ++ List.map fst new ++ List.map fst
         (match b with [] => [] | (_, d0) :: _ => take_deeper d0 a end)).
Proof.
  intros Hin H. destruct (locate_shape _ _ _ _ _ _ H) as (-> & Hn & Hb & Ha & Ht & Hd).
  destruct b as [|[r d0] b'].
  - simpl. split.
    + rewrite Ht. now rewrite app_nil_r.
    + intros new Hnew. rewrite take_deeper_app by exact Hb.
      rewrite take_deeper_app by exact Hnew. rewrite Ha.
      now rewrite !app_nil_r, map_app.
  - simpl in Hin, Hn. simpl.
    assert (Forall (Spec.deeper d0) b' /\ d0 < d) as [Hb' Hd0].
    { destruct Hin as [->|Hin]; [tauto|].
      clear -Hin Hn. induction b' as [|[x k] b' IH]; simpl in *.
      - destruct (Nat.ltb d0 d) eqn:E; [|contradiction].
        apply Nat.ltb_lt in E. split; [constructor | exact E].
      - destruct (Nat.ltb d0 k) eqn:E; [|contradiction].
        apply Nat.ltb_lt in E. simpl in Hin. destruct Hin as [->|Hin]; [tauto|].
        destruct IH as [IH1 IH2]; [exact Hin | tauto |].
        split; [constructor; auto | exact IH2]. }
    assert (Forall (Spec.deeper d0) (b' ++ (p, d) :: below)) as Hall.
    { apply Forall_app. split; [exact Hb'|]. constructor; [exact Hd0|].
      eapply deeper_mono; [|exact Hb]. lia. }
    split.
    + replace (b' ++ (p, d) :: below ++ a) with ((b' ++ (p, d) :: below) ++ a)
        by now rewrite <- app_assoc.
      rewrite take_deeper_app by exact Hall. now rewrite map_app.
    + intros new Hnew.
      replace (b' ++ (p, d) :: below ++ new ++ a)
        with ((b' ++ (p, d) :: below) ++ new ++ a) by now rewrite <- app_assoc.
      rewrite take_deeper_app by exact Hall.
      rewrite take_deeper_app by (eapply deeper_mono; [|exact Hnew]; lia).
      now rewrite !map_app.
Qed.

End Forest.

(** ** Making and appending elements *)

Lemma fresh_loc_nodes st : ~ In (fresh_loc st) (List.map fst (nodes st)).
Proof.
  intros H. unfold fresh_loc in H.
  set (ks := List.map fst (map_to_list (elements st)) ++ List.map fst (nodes st)) in H.
  assert (S (max_list ks) ∈ ks) as Hin.
  { unfold ks. apply elem_of_app. right. now apply list_elem_of_In. }
  apply max_list_elem_of_le in Hin. lia.
Qed.

Lemma take_deeper_id d x : Forall (Spec.deeper d) x -> take_deeper d x = x.
Proof.
  intros H. rewrite <- (app_nil_r x) at 1.
  rewrite take_deeper_app by exact H. apply app_nil_r.
Qed.

Lemma drop_deeper_id d x : Forall (Spec.deeper d) x -> drop_deeper d x = [].
Proof.
  intros H. rewrite <- (app_nil_r x).
  now rewrite drop_deeper_app by exact H.
Qed.

Lemma take_deeper_nil_mono d d' a :
  d <= d' -> take_deeper d a = [] -> take_deeper d' a = [] /\ drop_deeper d' a = a.
Proof.
  intros Hle. destruct a as [|[l k] a]; simpl; [auto|].
  destruct (Nat.ltb d k) eqn:E; [discriminate|]. intros _.
  apply Nat.ltb_ge in E.
  assert (Nat.ltb d' k = false) as -> by (apply Nat.ltb_ge; lia). auto.
Qed.

Lemma lower_raise k x : lower k (raise k x) = x.
Proof.
  unfold lower, raise. rewrite map_map. rewrite <- (map_id x) at 2.
  apply map_ext. intros [l d]. simpl. f_equal. lia.
Qed.

Lemma raise_deeper k d x :
  Forall (Spec.deeper d) x -> Forall (Spec.deeper (d + k)) (raise k x).
Proof.
  unfold raise. intros H. apply Forall_map. revert H. apply List.Forall_impl.
  intros [l j]. unfold Spec.deeper. simpl. lia.
Qed.

Lemma raise_fst k x : List.map fst (raise k x) = List.map fst x.
Proof. unfold raise. rewrite map_map. reflexivity. Qed.

(** Appending a detached tree twice, as [and] does with its verb: the tree
    becomes the last child of the parent, and the second call changes
    nothing. *)
Lemma appendChild_twice st p l sub f b d below a :
  nodes st = f ++ (l, 0) :: sub ->
  Forall (Spec.deeper 0) sub ->
  ~ In l (List.map fst f) ->
  locate p f = Some (b, d, below, a) ->
  p <> l -> ~ In p (List.map fst sub) ->
  let st' := {| elements := elements st;
                nodes := b ++ (p, d) :: below ++ (l, S d) :: raise (S d) sub ++ a;
                listeners := listeners st |} in
  appendChild (VElem p) (VElem l) st = Ok (VElem l) st' /\
  appendChild (VElem p) (VElem l) st' = Ok (VElem l) st'.
Proof.
  intros Hnodes Hsub Hl Hp Hpl Hps st'.
  destruct (locate_shape _ _ _ _ _ _ Hp) as (Hf & Hpb & Hbelow & Ha & _ & _).
  assert (bool_decide (p ∈ List.map fst ((l, 0) :: sub)) = false) as Hdec.
  { apply bool_decide_eq_false. rewrite list_elem_of_In. simpl. intuition. }
  assert (graft p ((l, 0) :: sub) f
          = Some (b ++ (p, d) :: below ++ (l, S d) :: raise (S d) sub ++ a)) as Hg.
  { unfold graft. rewrite Hp. reflexivity. }
  assert (exists x f', f = x :: f') as (x & f' & Hx).
  { rewrite Hf. destruct b; simpl; eauto. }
  split.
  - unfold appendChild, cut. rewrite Hnodes, (locate_here l f 0 sub Hl).
    rewrite (take_deeper_id 0 sub Hsub), (drop_deeper_id 0 sub Hsub).
    rewrite lower_zero, Hx, app_nil_r, <- Hx, Hdec, Hg. reflexivity.
  - unfold appendChild, cut. cbn [nodes st'].
    replace (b ++ (p, d) :: below ++ (l, S d) :: raise (S d) sub ++ a)
      with ((b ++ (p, d) :: below) ++ (l, S d) :: raise (S d) sub ++ a)
      by now rewrite <- app_assoc.
    assert (~ In l (List.map fst (b ++ (p, d) :: below))) as Hl'.
    { intros Hin. apply Hl. rewrite Hf.
      replace (b ++ (p, d) :: below ++ a) with ((b ++ (p, d) :: below) ++ a)
        by now rewrite <- app_assoc.
      rewrite map_app. apply in_or_app. now left. }
    rewrite (locate_here l _ (S d) _ Hl').
    assert (Forall (Spec.deeper (S d)) (raise (S d) sub)) as Hr.
    { apply (raise_deeper (S d) 0 sub Hsub). }
    destruct (take_deeper_nil_mono d (S d) a (Nat.le_succ_diag_r d) Ha) as [Ha1 Ha2].
    rewrite (take_deeper_app _ _ _ Hr), (drop_deeper_app _ _ _ Hr), Ha1, Ha2.
    rewrite app_nil_r, lower_raise.
    assert (exists y g, b ++ (p, d) :: below = y :: g) as (y & g & Hy).
    { destruct b; simpl; eauto. }
    rewrite Hy. change (y :: g ++ a) with ((y :: g) ++ a). rewrite <- Hy.
    replace ((b ++ (p, d) :: below) ++ a) with f
      by (rewrite Hf; now rewrite <- app_assoc).
    rewrite Hdec, Hg. reflexivity.
Qed.

Lemma put_string_property st l e k v :
  elements st !! l = Some e ->
  k <> "children" -> k <> "style" -> k <> "innerHTML" ->
  put (VElem l) k (VStr v) st
  = Ok tt (update st l (with_attrs e (<[k := VStr v]> (attrs e)))).
Proof.
  intros He H1 H2 H3. unfold put, with_element. rewrite He.
  apply String.eqb_neq in H1, H2, H3. rewrite H1, H2, H3.
  now rewrite andb_false_r.
Qed.

Lemma new_element_attr tag_ k :
  In k ["className"; "id"; "innerHTML"; "title"] ->
  attrs (new_element tag_) !! k = Some (VStr "").
Proof.
  intros Hk. unfold new_element, string_properties; simpl.
  destruct (String.eqb tag_ "input");
    simpl in Hk; intuition subst; vm_compute; reflexivity.
Qed.

Lemma created_lookup st tag_ :
  elements (Spec.created st tag_) !! fresh_loc st = Some (new_element tag_).
Proof. apply lookup_insert_eq. Qed.

Lemma reduce_one {A B} (f : A -> B -> M A) x init st :
  reduce f [x] init st = match f init x st with
                         | Ok acc st' => Ok acc st'
                         | Throw e => Throw e
                         | Unmodelled => Unmodelled
                         end.
Proof. simpl. unfold bind, ret. destruct (f init x st); reflexivity. Qed.

(** [make(tag, { className: c })]. *)
Lemma make_with_class tag_ c st :
  make tag_ [("className", c)] st
  = Ok (continueOrEnd (VElem (fresh_loc st)) (VElem (fresh_loc st)))
       (update (Spec.created st tag_) (fresh_loc st)
          (with_attrs (new_element tag_)
             (<["className" := VStr c]> (attrs (new_element tag_))))).
Proof.
  unfold make, bind. change (createElement tag_ st)
    with (Ok (VElem (fresh_loc st)) (Spec.created st tag_)).
  cbn [set_ actionMaker setIt call arg nth]. unfold objToArr.
  unfold bind. rewrite reduce_one. unfold bind.
  cbn [dollar_start and_ fst snd]. unfold bind.
  change (Path.on "className") with ["className"].
  unfold setValue. rewrite reduce_one. unfold bind.
  rewrite (get_attr _ _ _ (created_lookup st tag_)) by discriminate.
  rewrite new_element_attr by (simpl; auto).
  change (default VUndef (Some (VStr ""))) with (VStr "").
  cbn [validator fold_left isString Js.isString andb]. cbv beta.
  rewrite (put_string_property _ _ _ _ _ (created_lookup st tag_)) by discriminate.
  reflexivity.
Qed.

Lemma make_with_anchor tag_ html cls txt st :
  parse_markup html = Some [(cls, txt)] ->
  make tag_ [("innerHTML", html)] st
  = Ok (continueOrEnd (VElem (fresh_loc st)) (VElem (fresh_loc st)))
       (Spec.made_link st tag_ html cls txt).
Proof.
  intros Hparse. unfold make, bind. change (createElement tag_ st)
    with (Ok (VElem (fresh_loc st)) (Spec.created st tag_)).
  cbn [set_ actionMaker setIt call arg nth]. unfold objToArr.
  unfold bind. rewrite reduce_one. unfold bind.
  cbn [dollar_start and_ fst snd]. unfold bind.
  change (Path.on "innerHTML") with ["innerHTML"].
  unfold setValue. rewrite reduce_one. unfold bind.
  rewrite (get_attr _ _ _ (created_lookup st tag_)) by discriminate.
  rewrite new_element_attr by (simpl; auto).
  change (default VUndef (Some (VStr ""))) with (VStr "").
  cbn [validator fold_left isString Js.isString andb]. cbv beta.
  unfold put, with_element. rewrite created_lookup.
  cbn [String.eqb Ascii.eqb Bool.eqb].
  unfold set_innerHTML. rewrite Hparse, created_lookup.
  cbn [nodes Spec.created].
  rewrite (locate_here _ _ 0 [] (fresh_loc_nodes st)).
  cbn [alloc_kids take_deeper drop_deeper lower List.map app].
  reflexivity.
Qed.

(** ** Page labels: numbers written and read back *)

Import Pagination.

Lemma uint_digits d : Str.all_chars Str.is_digit (NilEmpty.string_of_uint d) = true.
Proof. induction d; simpl; auto. Qed.

Lemma uint_nonempty d : d <> Decimal.Nil -> NilEmpty.string_of_uint d <> "".
Proof. destruct d; simpl; congruence. Qed.

Lemma label_of_positive p :
  NumberToString (Z.pos p) = NilEmpty.string_of_uint (Pos.to_uint p).
Proof.
  unfold NumberToString. simpl. unfold NilZero.string_of_uint.
  pose proof (Unsigned.to_uint_nonnil p) as Hn.
  now destruct (Pos.to_uint p).
Qed.

Lemma label_digits z :
  (0 <= z)%Z ->
  Str.all_chars Str.is_digit (NumberToString z) = true /\ NumberToString z <> "".
Proof.
  intros Hz. destruct z as [|p|p]; [split; [reflexivity|discriminate]| |lia].
  rewrite label_of_positive. split; [apply uint_digits|].
  apply uint_nonempty, Unsigned.to_uint_nonnil.
Qed.

Lemma all_chars_impl (P Q : ascii -> bool) s :
  (forall c, P c = true -> Q c = true) ->
  Str.all_chars P s = true -> Str.all_chars Q s = true.
Proof.
  intros H. induction s as [|c r IH]; simpl; [auto|].
  rewrite !andb_true_iff. intros [H1 H2]. auto.
Qed.

Lemma digit_not_space c : Str.is_digit c = true -> is_space c = false.
Proof.
  unfold Str.is_digit, is_space. intros H. apply andb_true_iff in H as [H1 H2].
  apply Nat.leb_le in H1, H2.
  destruct (Nat.eqb_spec (nat_of_ascii c) 32); [lia|]. simpl.
  apply andb_false_iff. right. apply Nat.leb_gt. lia.
Qed.

Lemma rtrim_id s :
  Str.all_chars (fun c => negb (is_space c)) s = true -> rtrim s = s.
Proof.
  induction s as [|c r IH]; simpl; [reflexivity|].
  rewrite andb_true_iff. intros [Hc Hr]. rewrite (IH Hr).
  destruct r; [|reflexivity]. now destruct (is_space c).
Qed.

Lemma trim_digits s : Str.all_chars Str.is_digit s = true -> trim s = s.
Proof.
  intros H. unfold trim.
  assert (ltrim s = s) as ->.
  { destruct s as [|c r]; [reflexivity|]. simpl in *.
    apply andb_true_iff in H as [H _]. now rewrite (digit_not_space c H). }
  apply rtrim_id. revert H. apply all_chars_impl.
  intros c Hc. now rewrite (digit_not_space c Hc).
Qed.

Lemma contains_char_digits c s :
  Str.is_digit c = false -> Str.all_chars Str.is_digit s = true -> Str.contains_char c s = false.
Proof.
  intros Hc. induction s as [|x r IH]; simpl; [reflexivity|].
  rewrite andb_true_iff. intros [Hx Hr]. rewrite (IH Hr), orb_false_r.
  destruct (Ascii.eqb_spec x c); [congruence | reflexivity].
Qed.

(** A label is read back as the number it was written from. *)
Lemma label_round_trip z :
  (0 <= z)%Z -> StringToNumber (NumberToString z) = Some (Num z).
Proof.
  intros Hz. destruct (label_digits z Hz) as [Hd Hne].
  unfold StringToNumber. rewrite (trim_digits _ Hd).
  destruct (NumberToString z) as [|c r] eqn:E; [contradiction|].
  assert (Ascii.eqb c "+" = false) as Hplus.
  { simpl in Hd. apply andb_true_iff in Hd as [Hc _].
    destruct (Ascii.eqb_spec c "+"); [subst; discriminate | reflexivity]. }
  rewrite Hplus. simpl andb. rewrite <- E. unfold NumberToString.
  rewrite NilZero.isi.
  - now rewrite DecimalZ.of_to.
  - destruct z; simpl; try discriminate. intros [= H].
    now apply (Unsigned.to_uint_nonnil p).
  - destruct z; simpl; try discriminate. lia.
Qed.

Lemma read_until_app c s r :
  Str.contains_char c s = false ->
  read_until c (s +:+ String c r) = Some (s, r).
Proof.
  induction s as [|x s IH]; simpl.
  - now rewrite Ascii.eqb_refl.
  - intros H. apply orb_false_iff in H as [Hx Hs].
    now rewrite Hx, (IH Hs).
Qed.

Lemma is_text_digits s : Str.all_chars Str.is_digit s = true -> is_text s = true.
Proof.
  intros H. unfold is_text.
  now rewrite !(contains_char_digits _ s) by (reflexivity || exact H).
Qed.

Lemma strip_prefix_app p s : strip_prefix p (p +:+ s) = Some s.
Proof.
  induction p as [|c p IH]; simpl; [now destruct s|].
  now rewrite Ascii.eqb_refl.
Qed.

Lemma is_text_chars s :
  is_text s = true ->
  Str.contains_char "<" s = false /\ Str.contains_char ">" s = false /\
  Str.contains_char "&" s = false.
Proof.
  unfold is_text. intros H. apply negb_true_iff in H.
  apply orb_false_iff in H as [H H3]. apply orb_false_iff in H as [H1 H2]. auto.
Qed.

(** The anchor markup parses to its class and its text. *)
Lemma parse_anchor_markup cls txt :
  is_text cls = true -> Str.contains_char dquote cls = false ->
  is_text txt = true ->
  parse_anchor ("<a class=" +:+ dq +:+ cls +:+ dq +:+ " href=" +:+ dq +:+ "#"
                +:+ dq +:+ ">" +:+ txt +:+ "</a>") = Some (cls, txt).
Proof.
  intros Hc Hq Ht. unfold parse_anchor.
  set (tail2 := txt +:+ "</a>").
  set (tail1 := dq +:+ " href=" +:+ dq +:+ "#" +:+ dq +:+ ">" +:+ tail2).
  change ("<a class=" +:+ dq +:+ cls +:+ tail1)
    with (("<a class=" +:+ dq) +:+ cls +:+ tail1).
  rewrite strip_prefix_app.
  change (cls +:+ tail1)
    with (cls +:+ String dquote (" href=" +:+ dq +:+ "#" +:+ dq +:+ ">" +:+ tail2)).
  rewrite (read_until_app dquote cls _ Hq).
  change (" href=" +:+ dq +:+ "#" +:+ dq +:+ ">" +:+ tail2)
    with ((" href=" +:+ dq +:+ "#" +:+ dq +:+ ">") +:+ tail2).
  rewrite strip_prefix_app. unfold tail2.
  change (txt +:+ "</a>") with (txt +:+ String "<" "/a>").
  destruct (is_text_chars txt Ht) as (H1 & _ & _).
  rewrite (read_until_app "<" txt _ H1).
  now rewrite Hc, Ht.
Qed.

(** The markup of a page link parses to one anchor with that class and
    that label. *)
Lemma parse_link_markup cls z :
  cls = "active" \/ cls = "" -> (0 <= z)%Z ->
  parse_markup (link_markup cls z) = Some [(cls, NumberToString z)].
Proof.
  intros Hcls Hz. destruct (label_digits z Hz) as [Hd _].
  unfold parse_markup.
  assert (is_text (link_markup cls z) = false) as ->.
  { unfold link_markup. now destruct Hcls as [-> | ->]. }
  unfold link_markup. rewrite parse_anchor_markup; [reflexivity | | |].
  - now destruct Hcls as [-> | ->].
  - now destruct Hcls as [-> | ->].
  - now apply is_text_digits.
Qed.

(** ** Selectors *)

Lemma querySelectorAll_matching s st :
  querySelectorAll s st =
  match parse_selector s with
  | Some sel => Ok (List.map VElem (Spec.matching st sel)) st
  | None => Unmodelled
  end.
Proof. reflexivity. Qed.

Lemma querySelector_matching s st :
  querySelector s st =
  match parse_selector s with
  | Some sel => Ok (match Spec.matching st sel with
                    | q :: _ => VElem q
                    | [] => VNull
                    end) st
  | None => Unmodelled
  end.
Proof.
  unfold querySelector, bind. rewrite querySelectorAll_matching.
  destruct (parse_selector s); [|reflexivity].
  unfold ret. now destruct (Spec.matching st s0).
Qed.

Lemma querySelector_found s st p :
  querySelector s st = Ok (VElem p) st ->
  exists sel rest, parse_selector s = Some sel /\ Spec.matching st sel = p :: rest.
Proof.
  rewrite querySelector_matching. destruct (parse_selector s) as [sel|]; [|discriminate].
  destruct (Spec.matching st sel) as [|q rest] eqn:E; [discriminate|].
  intros H. injection H as ->. now exists sel, rest.
Qed.

Lemma matching_attached st sel q : In q (Spec.matching st sel) -> In q (attached (nodes st)).
Proof. unfold Spec.matching. intros H. now apply filter_In in H. Qed.

Lemma attached_nodes f q : In q (attached f) -> In q (List.map fst f).
Proof.
  destruct f as [|[r d0] t]; simpl; [tauto|].
  intros [H|H]; [now left|]. right.
  rewrite <- (take_drop_deeper d0 t), map_app. apply in_or_app. now left.
Qed.

Lemma matches_ext st st2 sel q :
  elements st2 !! q = elements st !! q -> matches st2 sel q = matches st sel q.
Proof. intros H. unfold matches, attr. now rewrite H. Qed.

Lemma matching_ext st st2 sel :
  attached (nodes st2) = attached (nodes st) ->
  (forall q, In q (List.map fst (nodes st)) -> elements st2 !! q = elements st !! q) ->
  Spec.matching st2 sel = Spec.matching st sel.
Proof.
  intros Ha He. unfold Spec.matching. rewrite Ha. apply filter_ext_in.
  intros q Hq. apply matches_ext, He, attached_nodes, Hq.
Qed.

Lemma take_deeper_stop d t l sub :
  take_deeper d (t ++ (l, 0) :: sub) = take_deeper d t.
Proof.
  induction t as [|[x k] t IH]; simpl; [reflexivity|].
  destruct (Nat.ltb d k); [now rewrite IH | reflexivity].
Qed.

Lemma attached_app_detached f l sub :
  f <> [] -> attached (f ++ (l, 0) :: sub) = attached f.
Proof.
  destruct f as [|[r d0] t]; [congruence|]. intros _. simpl.
  now rewrite take_deeper_stop.
Qed.

(** ** [$(make(...))(and)(appendTo(selector))()] *)

Lemma make_and_append_spec tag_ obj sel st st2 l sub p b d below a :
  make tag_ obj st = Ok (continueOrEnd (VElem l) (VElem l)) st2 ->
  nodes st2 = nodes st ++ (l, 0) :: sub ->
  Forall (Spec.deeper 0) sub ->
  ~ In l (List.map fst (nodes st)) ->
  (forall x, In x (List.map fst sub) -> ~ In x (List.map fst (nodes st))) ->
  (forall q, In q (List.map fst (nodes st)) -> elements st2 !! q = elements st !! q) ->
  querySelector sel st = Ok (VElem p) st ->
  locate p (nodes st) = Some (b, d, below, a) ->
  make_and_append tag_ obj sel st
  = Ok (VElem l)
       (Spec.with_nodes st2
          (b ++ (p, d) :: below ++ (l, S d) :: raise (S d) sub ++ a)).
Proof.
  intros Hmake Hnodes Hsub Hl Hsubl Hel Hq Hp.
  destruct (querySelector_found _ _ _ Hq) as (sl & rest & Hsel & Hm).
  assert (In p (List.map fst (nodes st))) as Hpn.
  { apply attached_nodes, (matching_attached st sl). rewrite Hm. now left. }
  assert (nodes st <> []) as Hne by (destruct (nodes st); [contradiction | discriminate]).
  assert (querySelector sel st2 = Ok (VElem p) st2) as Hq2.
  { rewrite querySelector_matching, Hsel.
    rewrite (matching_ext st st2 sl), Hm; [reflexivity| |exact Hel].
    rewrite Hnodes. now apply attached_app_detached. }
  assert (p <> l) as Hpl by congruence.
  assert (~ In p (List.map fst sub)) as Hps by (intros H; now apply (Hsubl p H)).
  destruct (appendChild_twice st2 p l sub (nodes st) b d below a
              Hnodes Hsub Hl Hp Hpl Hps) as [H1 H2].
  unfold make_and_append, bind. rewrite Hmake.
  unfold appendTo, bind. rewrite Hq2.
  cbn [next dollar_start and_ continuedValue]. unfold bind, ret.
  rewrite H1. rewrite H2. reflexivity.
Qed.

Lemma fresh_loc_created_nodes st tag_ :
  ~ In (fresh_loc (Spec.created st tag_)) (List.map fst (nodes st)) /\
  fresh_loc (Spec.created st tag_) <> fresh_loc st.
Proof.
  pose proof (fresh_loc_nodes (Spec.created st tag_)) as H.
  cbn [nodes Spec.created] in H. rewrite map_app, in_app_iff in H. simpl in H.
  split; [tauto | intros E; apply H; right; left; now rewrite E].
Qed.

(** Making an element with a class and appending it. *)
Lemma make_and_append_class tag_ c sel st p b d below a :
  querySelector sel st = Ok (VElem p) st ->
  locate p (nodes st) = Some (b, d, below, a) ->
  make_and_append tag_ [("className", c)] sel st
  = Ok (VElem (fresh_loc st))
       (Spec.with_nodes
          (update (Spec.created st tag_) (fresh_loc st)
             (with_attrs (new_element tag_)
                (<["className" := VStr c]> (attrs (new_element tag_)))))
          (b ++ (p, d) :: below ++ (fresh_loc st, S d) :: a)).
Proof.
  intros Hq Hp.
  apply (make_and_append_spec tag_ _ sel st _ (fresh_loc st) [] p b d below a
           (make_with_class tag_ c st)).
  - reflexivity.
  - constructor.
  - apply fresh_loc_nodes.
  - intros x [].
  - intros q Hn. cbn [update elements Spec.created].
    assert (fresh_loc st <> q)
      by (intros <-; now apply (fresh_loc_nodes st)).
    now rewrite !lookup_insert_ne.
  - exact Hq.
  - exact Hp.
Qed.

(** Making a link item and appending it. *)
Lemma make_and_append_link tag_ html cls txt sel st p b d below a :
  parse_markup html = Some [(cls, txt)] ->
  querySelector sel st = Ok (VElem p) st ->
  locate p (nodes st) = Some (b, d, below, a) ->
  make_and_append tag_ [("innerHTML", html)] sel st
  = Ok (VElem (fresh_loc st))
       (Spec.with_nodes (Spec.made_link st tag_ html cls txt)
          (b ++ (p, d) :: below
             ++ (fresh_loc st, S d) :: (fresh_loc (Spec.created st tag_), S (S d)) :: a)).
Proof.
  intros Hparse Hq Hp.
  destruct (fresh_loc_created_nodes st tag_) as [Hf1 Hf2].
  apply (make_and_append_spec tag_ _ sel st _ (fresh_loc st)
           [(fresh_loc (Spec.created st tag_), 1)] p b d below a
           (make_with_anchor tag_ html cls txt st Hparse)).
  - reflexivity.
  - constructor; [unfold Spec.deeper; simpl; lia | constructor].
  - apply fresh_loc_nodes.
  - intros x [<-|[]]. exact Hf1.
  - intros q Hn. cbn [elements Spec.made_link Spec.created].
    assert (fresh_loc st <> q)
      by (intros <-; now apply (fresh_loc_nodes st)).
    assert (fresh_loc (Spec.created st tag_) <> q) by (intros <-; now apply Hf1).
    now rewrite !lookup_insert_ne.
  - exact Hq.
  - exact Hp.
Qed.

(** ** The loop of [createPageLinks] *)

Lemma loose_eq_number_of active act i :
  ToNumber active = Some act -> (0 <= i)%Z ->
  loose_eq_number active (Num (i + 1)) = Some (num_eqb act (Num (i + 1))).
Proof.
  intros H Hi. destruct active; simpl in *; try discriminate;
    try (rewrite H; reflexivity).
  - injection H as <-. reflexivity.
  - injection H as <-. simpl. destruct (i + 1)%Z eqn:E; [lia | reflexivity..].
  - injection H as <-. reflexivity.
  - injection H as <-. reflexivity.
Qed.

Lemma link_class_cases act i : Spec.link_class act i = "active" \/ Spec.link_class act i = "".
Proof. unfold Spec.link_class. destruct (num_eqb act (Num (i + 1))); auto. Qed.

Lemma link_body_step active act i st t b d below a :
  ToNumber active = Some act -> (0 <= i)%Z ->
  querySelector ".list" st = Ok (VElem t) st ->
  locate t (nodes st) = Some (b, d, below, a) ->
  Spec.link_body active i st = Ok tt (Spec.link_added st act i t b d below a).
Proof.
  intros Hact Hi Hq Ht. unfold Spec.link_body, bind.
  rewrite (loose_eq_number_of active act i Hact Hi). simpl lift_option. unfold ret.
  fold (Spec.link_class act i).
  rewrite (make_and_append_link "li" _ (Spec.link_class act i) (NumberToString (i + 1))
             ".list" st t b d below a); [reflexivity | | exact Hq | exact Ht].
  apply parse_link_markup; [apply link_class_cases | lia].
Qed.

Lemma createPageLinks_unfold xs active st :
  createPageLinks (VArr xs) active st =
  bind (make_and_append "ul" [("className", "list")] ".pagination")
       (fun _ => for_loop (Z.to_nat (Math_ceil_div (Z.of_nat (length xs)) 10)) 0
                   (Spec.link_body active)) st.
Proof. reflexivity. Qed.

Lemma link_item_attrs html k :
  k = "className" \/ k = "id" \/ k = "title" ->
  attrs (with_attrs (new_element "li")
           (<["innerHTML" := VStr html]> (attrs (new_element "li")))) !! k
  = Some (VStr "").
Proof. intros [-> | [-> | ->]]; vm_compute; reflexivity. Qed.

Lemma anchor_attrs cls txt :
  attrs (anchor_element cls txt) !! "className" = Some (VStr cls) /\
  attrs (anchor_element cls txt) !! "innerHTML" = Some (VStr txt).
Proof.
  unfold anchor_element, with_attrs; cbn [attrs]. split.
  - rewrite lookup_insert_ne by discriminate. apply lookup_insert_eq.
  - apply lookup_insert_eq.
Qed.

(** What one round adds: two new elements, the link item and its anchor;
    every other element is unchanged. *)
Lemma link_added_elements st act i t b d below a :
  let st' := Spec.link_added st act i t b d below a in
  let li := fresh_loc st in
  let an := fresh_loc (Spec.created st "li") in
  (forall q, q <> li -> q <> an -> elements st' !! q = elements st !! q) /\
  (exists e, elements st' !! li = Some e /\
     attrs e !! "className" = Some (VStr "") /\
     attrs e !! "innerHTML" = Some (VStr (link_markup (Spec.link_class act i) (i + 1)))) /\
  (exists e, elements st' !! an = Some e /\
     attrs e !! "className" = Some (VStr (Spec.link_class act i)) /\
     attrs e !! "innerHTML" = Some (VStr (NumberToString (i + 1)))) /\
  ~ In li (List.map fst (nodes st)) /\ ~ In an (List.map fst (nodes st)) /\
  li <> an /\ elements st !! li = None /\ elements st !! an = None.
Proof.
  intros st' li an.
  destruct (fresh_loc_created_nodes st "li") as [Han Hne].
  fold an in Han, Hne. fold li in Hne.
  assert (elements st !! an = None) as Hnone.
  { pose proof (fresh_loc_fresh (Spec.created st "li")) as H.
    cbn [elements Spec.created] in H. fold an li in H.
    now rewrite lookup_insert_ne in H by congruence. }
  split; [|split; [|split]].
  - intros q H1 H2. unfold st', Spec.link_added, Spec.made_link; cbn [elements Spec.created].
    fold li an. now rewrite !lookup_insert_ne by congruence.
  - eexists. split; [|split].
    + unfold st', Spec.link_added, Spec.made_link; cbn [elements]. fold li.
      apply lookup_insert_eq.
    + apply link_item_attrs. now left.
    + cbn [attrs with_attrs]. apply lookup_insert_eq.
  - exists (anchor_element (Spec.link_class act i) (NumberToString (i + 1))).
    split; [|apply anchor_attrs].
    unfold st', Spec.link_added, Spec.made_link; cbn [elements]. fold li an.
    rewrite lookup_insert_ne by congruence. apply lookup_insert_eq.
  - split; [apply fresh_loc_nodes|]. split; [exact Han|].
    split; [congruence|]. split; [apply fresh_loc_fresh | exact Hnone].
Qed.

Lemma has_class_list_link act i :
  has_class "list" (VStr "") = false /\
  has_class "list" (VStr (Spec.link_class act i)) = false.
Proof. split; [reflexivity|]. now destruct (link_class_cases act i) as [-> | ->]. Qed.

(** One round keeps what [.list] selects. *)
Lemma link_added_matching st act i t b d below a :
  In t (attached (nodes st)) ->
  locate t (nodes st) = Some (b, d, below, a) ->
  Spec.matching (Spec.link_added st act i t b d below a) (ByClass "list")
  = Spec.matching st (ByClass "list").
Proof.
  intros Hin Ht.
  destruct (link_added_elements st act i t b d below a)
    as (Hold & (el & Hl1 & Hl2 & _) & (ea & Ha1 & Ha2 & _) & Hnl & Hna & _).
  set (st' := Spec.link_added st act i t b d below a) in *.
  set (li := fresh_loc st) in *. set (an := fresh_loc (Spec.created st "li")) in *.
  destruct (attached_located t (nodes st) b d below a Hin Ht) as [Hatt Hnew].
  specialize (Hnew [(li, S d); (an, S (S d))]).
  assert (attached (nodes st')
          = List.map fst (b ++ (t, d) :: below) ++ [li; an] ++ List.map fst
              (match b with [] => [] | (_, d0) :: _ => take_deeper d0 a end)) as Hatt'.
  { apply Hnew. repeat constructor; unfold Spec.deeper; simpl; lia. }
  unfold Spec.matching. rewrite Hatt', Hatt, !List.filter_app.
  assert (forall q, In q (List.map fst (nodes st)) ->
            matches st' (ByClass "list") q = matches st (ByClass "list") q) as Hm.
  { intros q Hq. apply matches_ext, Hold; congruence. }
  assert (forall xs, (forall q, In q xs -> In q (attached (nodes st))) ->
            List.filter (matches st' (ByClass "list")) xs
            = List.filter (matches st (ByClass "list")) xs) as Hf.
  { intros xs Hxs. apply filter_ext_in. intros q Hq.
    apply Hm, attached_nodes, Hxs, Hq. }
  rewrite (Hf (List.map fst (b ++ (t, d) :: below)))
    by (intros q Hq; rewrite Hatt; apply in_or_app; now left).
  rewrite (Hf (List.map fst match b with [] => [] | (_, d0) :: _ => take_deeper d0 a end))
    by (intros q Hq; rewrite Hatt; apply in_or_app; now right).
  f_equal. simpl. unfold matches, attr.
  destruct (has_class_list_link act i) as [Hc1 Hc2].
  rewrite Hl1, Hl2, Ha1, Ha2. simpl default. now rewrite Hc1, Hc2.
Qed.

Lemma locate_attached st t :
  In t (attached (nodes st)) -> exists b d below a, locate t (nodes st) = Some (b, d, below, a).
Proof.
  intros H. destruct (locate_In t (nodes st) (attached_nodes _ _ H)) as ([[[b d] below] a] & E).
  eauto.
Qed.

Lemma link_added_attached st act i t b d below a q :
  In q (attached (nodes st)) ->
  In t (attached (nodes st)) ->
  locate t (nodes st) = Some (b, d, below, a) ->
  In q (attached (nodes (Spec.link_added st act i t b d below a))).
Proof.
  intros Hq Hin Ht.
  destruct (attached_located t (nodes st) b d below a Hin Ht) as [Hatt Hnew].
  assert (attached (nodes (Spec.link_added st act i t b d below a))
          = List.map fst (b ++ (t, d) :: below)
            ++ [fresh_loc st; fresh_loc (Spec.created st "li")] ++ List.map fst
              (match b with [] => [] | (_, d0) :: _ => take_deeper d0 a end)) as ->.
  { apply (Hnew [(fresh_loc st, S d); (fresh_loc (Spec.created st "li"), S (S d))]).
    repeat constructor; unfold Spec.deeper; simpl; lia. }
  rewrite Hatt in Hq. rewrite !in_app_iff in *. tauto.
Qed.

(** The loop runs to its end whenever [.list] selects an element, and it
    leaves the elements that were there unchanged. *)
Lemma link_loop_runs active act t rounds :
  ToNumber active = Some act ->
  forall i st,
    (0 <= i)%Z ->
    querySelector ".list" st = Ok (VElem t) st ->
    exists st',
      for_loop rounds i (Spec.link_body active) st = Ok tt st' /\
      querySelector ".list" st' = Ok (VElem t) st' /\
      (forall q e, elements st !! q = Some e -> elements st' !! q = Some e).
Proof.
  intros Hact. induction rounds as [|k IH]; intros i st Hi Hq.
  - exists st. simpl. unfold ret. auto.
  - destruct (querySelector_found _ _ _ Hq) as (sel & rest & Hsel & Hm).
    injection Hsel as <-.
    assert (In t (attached (nodes st))) as Hin.
    { apply (matching_attached st (ByClass "list")). rewrite Hm. now left. }
    destruct (locate_attached st t Hin) as (b & d & below & a & Ht).
    pose proof (link_body_step active act i st t b d below a Hact Hi Hq Ht) as Hstep.
    set (st1 := Spec.link_added st act i t b d below a) in *.
    assert (querySelector ".list" st1 = Ok (VElem t) st1) as Hq1.
    { rewrite querySelector_matching.
      change (parse_selector ".list") with (Some (ByClass "list")). cbv iota.
      unfold st1. now rewrite (link_added_matching st act i t b d below a Hin Ht), Hm. }
    destruct (IH (i + 1)%Z st1 ltac:(lia) Hq1) as (st' & Hloop & Hq' & Hframe).
    exists st'. split; [|split; [exact Hq'|]].
    + simpl. unfold bind. now rewrite Hstep.
    + intros q e He. apply Hframe.
      destruct (link_added_elements st act i t b d below a)
        as (Hold & _ & _ & _ & _ & _ & Hn1 & Hn2).
      fold st1 in Hold. rewrite Hold; [exact He | congruence | congruence].
Qed.

(** The state after the list element is made and appended. *)
Lemma list_appended st pg b d below a :
  querySelector ".pagination" st = Ok (VElem pg) st ->
  locate pg (nodes st) = Some (b, d, below, a) ->
  let ul := fresh_loc st in
  let st' := Spec.with_nodes
               (update (Spec.created st "ul") ul
                  (with_attrs (new_element "ul")
                     (<["className" := VStr "list"]> (attrs (new_element "ul")))))
               (b ++ (pg, d) :: below ++ (ul, S d) :: a) in
  make_and_append "ul" [("className", "list")] ".pagination" st = Ok (VElem ul) st' /\
  (forall q, q <> ul -> elements st' !! q = elements st !! q) /\
  (exists e, elements st' !! ul = Some e /\ attrs e !! "className" = Some (VStr "list")) /\
  ~ In ul (List.map fst (nodes st)) /\ elements st !! ul = None /\
  attached (nodes st') = List.map fst (b ++ (pg, d) :: below) ++ [ul] ++ List.map fst
      (match b with [] => [] | (_, d0) :: _ => take_deeper d0 a end) /\
  attached (nodes st) = List.map fst (b ++ (pg, d) :: below) ++ List.map fst
      (match b with [] => [] | (_, d0) :: _ => take_deeper d0 a end).
Proof.
  intros Hq Hp ul st'.
  destruct (querySelector_found _ _ _ Hq) as (sel & rest & Hsel & Hm).
  assert (In pg (attached (nodes st))) as Hin.
  { apply (matching_attached st sel). rewrite Hm. now left. }
  destruct (attached_located pg (nodes st) b d below a Hin Hp) as [Hatt Hnew].
  split; [exact (make_and_append_class "ul" "list" ".pagination" st pg b d below a Hq Hp)|].
  split; [|split; [|split; [|split; [|split]]]].
  - intros q Hne. unfold st', Spec.with_nodes, update; cbn [elements Spec.created].
    fold ul. now rewrite !lookup_insert_ne by congruence.
  - eexists. split.
    + unfold st', Spec.with_nodes, update; cbn [elements]. apply lookup_insert_eq.
    + cbn [attrs with_attrs]. apply lookup_insert_eq.
  - apply fresh_loc_nodes.
  - apply fresh_loc_fresh.
  - apply (Hnew [(ul, S d)]). constructor; [|constructor].
    unfold Spec.deeper; simpl; lia.
  - exact Hatt.
Qed.

(** [createPageLinks] runs to its end on a page with a [.pagination]
    element, and leaves the elements that were there unchanged. *)
Lemma createPageLinks_runs xs active act pg st :
  ToNumber active = Some act ->
  querySelector ".pagination" st = Ok (VElem pg) st ->
  exists st',
    createPageLinks (VArr xs) active st = Ok tt st' /\
    (forall q e, elements st !! q = Some e -> elements st' !! q = Some e).
Proof.
  intros Hact Hq.
  destruct (querySelector_found _ _ _ Hq) as (sel & rest & Hsel & Hm).
  assert (In pg (attached (nodes st))) as Hin.
  { apply (matching_attached st sel). rewrite Hm. now left. }
  destruct (locate_attached st pg Hin) as (b & d & below & a & Hp).
  destruct (list_appended st pg b d below a Hq Hp)
    as (Hmk & Hold & (e & Hul & Hcls) & _ & Hnone & Hatt & _).
  set (ul := fresh_loc st) in *.
  set (st1 := Spec.with_nodes _ _) in *.
  assert (In ul (Spec.matching st1 (ByClass "list"))) as Hmatch.
  { unfold Spec.matching. apply filter_In. split.
    - rewrite Hatt, !in_app_iff. right. left. now left.
    - unfold matches, attr. rewrite Hul, Hcls. reflexivity. }
  assert (exists t, querySelector ".list" st1 = Ok (VElem t) st1) as [t Hq1].
  { rewrite querySelector_matching.
    change (parse_selector ".list") with (Some (ByClass "list")). cbv iota.
    destruct (Spec.matching st1 (ByClass "list")) as [|t r]; [contradiction|]. eauto. }
  destruct (link_loop_runs active act t
              (Z.to_nat (Math_ceil_div (Z.of_nat (length xs)) 10)) Hact 0%Z st1
              ltac:(lia) Hq1) as (st' & Hloop & _ & Hframe).
  exists st'. split.
  - rewrite createPageLinks_unfold. unfold bind. rewrite Hmk. exact Hloop.
  - intros q e0 He. apply Hframe. rewrite Hold; [exact He | congruence].
Qed.

(** ** The Spec.rendered list of links *)

Lemma link_nodes_app k xs ys :
  Spec.link_nodes k (xs ++ ys) = Spec.link_nodes k xs ++ Spec.link_nodes k ys.
Proof. unfold Spec.link_nodes. apply flat_map_app. Qed.

Lemma link_nodes_deeper k d links :
  d < k -> Forall (Spec.deeper d) (Spec.link_nodes k links).
Proof.
  intros H. induction links as [|[li an] links IH]; simpl; [constructor|].
  repeat constructor; unfold Spec.deeper; simpl; try lia. exact IH.
Qed.

Lemma link_nodes_kids k links :
  List.map fst (List.filter (fun e => Nat.eqb (snd e) k) (Spec.link_nodes k links))
  = List.map fst links.
Proof.
  induction links as [|[li an] links IH]; [reflexivity|].
  cbn [Spec.link_nodes flat_map app List.filter snd fst]. fold (Spec.link_nodes k links).
  rewrite Nat.eqb_refl.
  assert (Nat.eqb (S k) k = false) as -> by (apply Nat.eqb_neq; lia).
  cbn [List.map fst]. now rewrite IH.
Qed.

Lemma take_deeper_link_nodes k links a :
  take_deeper k a = [] ->
  take_deeper k (Spec.link_nodes k links ++ a) = [].
Proof.
  intros Ha. destruct links as [|[li an] links]; simpl; [exact Ha|].
  now rewrite Nat.ltb_irrefl.
Qed.

Section Rendered.
Variables (B : forest) (ul : loc) (d : nat) (a : forest) (act : number).
Hypothesis Ha : take_deeper d a = [].

Lemma rendered_locate st links :
  Spec.rendered B ul d a act st links ->
  locate ul (nodes st) = Some (B, S d, Spec.link_nodes (S (S d)) links, a).
Proof.
  intros (Hn & _ & Hul & _). rewrite Hn, (locate_here ul B (S d) _ Hul).
  destruct (take_deeper_nil_mono d (S d) a (Nat.le_succ_diag_r d) Ha) as [H1 H2].
  rewrite take_deeper_app, drop_deeper_app by (apply link_nodes_deeper; lia).
  now rewrite H1, H2, app_nil_r.
Qed.

Lemma rendered_query st links :
  Spec.rendered B ul d a act st links ->
  querySelector ".list" st = Ok (VElem ul) st.
Proof.
  intros (_ & _ & _ & _ & _ & Hm & _). rewrite querySelector_matching.
  change (parse_selector ".list") with (Some (ByClass "list")). cbv iota.
  now rewrite Hm.
Qed.

(** One round of the loop extends the Spec.rendered links by one. *)
Lemma rendered_step active st links :
  ToNumber active = Some act ->
  Spec.rendered B ul d a act st links ->
  exists st' l,
    Spec.link_body active (Z.of_nat (length links)) st = Ok tt st' /\
    Spec.rendered B ul d a act st' (links ++ [l]).
Proof.
  intros Hact Hr.
  pose proof (rendered_locate st links Hr) as Hloc.
  pose proof (rendered_query st links Hr) as Hq.
  destruct Hr as (Hn & Hst & Hul & Hfr & Hnd & Hm & Hin).
  set (i := Z.of_nat (length links)).
  pose proof (link_body_step active act i st ul B (S d) _ a Hact ltac:(lia) Hq Hloc)
    as Hstep.
  destruct (link_added_elements st act i ul B (S d) (Spec.link_nodes (S (S d)) links) a)
    as (Hold & (el & Hl1 & _ & Hl3) & (ea & Ha1 & Ha2 & Ha3) & Hnl & Hna & Hne & _).
  set (st' := Spec.link_added st act i ul B (S d) (Spec.link_nodes (S (S d)) links) a) in *.
  set (li := fresh_loc st) in *. set (an := fresh_loc (Spec.created st "li")) in *.
  exists st', (li, an). split; [exact Hstep|].
  assert (forall x, In x (List.map fst (Spec.link_nodes (S (S d)) links)) ->
            In x (List.map fst (nodes st))) as Hsub.
  { intros x Hx. rewrite Hn, map_app, in_app_iff. right. simpl. right.
    rewrite map_app, in_app_iff. now left. }
  assert (forall x, In x (List.map fst B) -> In x (List.map fst (nodes st))) as HsubB.
  { intros x Hx. rewrite Hn, map_app, in_app_iff. now left. }
  assert (In ul (List.map fst (nodes st))) as Hulin.
  { rewrite Hn, map_app, in_app_iff. right. now left. }
  split; [|split; [|split; [|split; [|split; [|split]]]]].
  - unfold st'. cbn [nodes Spec.link_added]. rewrite link_nodes_app. simpl.
    rewrite <- !app_assoc. reflexivity.
  - intros j l Hj. apply lookup_app_Some in Hj as [Hj | [Hlen Hj]].
    + destruct (Hst j l Hj) as ((e1 & He1 & He1') & (e2 & He2 & He2')).
      assert (In (fst l) (List.map fst (Spec.link_nodes (S (S d)) links)) /\
              In (snd l) (List.map fst (Spec.link_nodes (S (S d)) links))) as [Hi1 Hi2].
      { apply list_elem_of_lookup_2, list_elem_of_In, in_split in Hj.
        destruct Hj as (l1 & l2 & ->). rewrite link_nodes_app, map_app. simpl.
        split; apply in_or_app; right; simpl; auto. }
      split.
      * exists e1. split; [|exact He1'].
        rewrite Hold; [exact He1 | |]; intros E;
          [apply Hnl | apply Hna]; rewrite <- E; auto.
      * exists e2. split; [|exact He2'].
        rewrite Hold; [exact He2 | |]; intros E;
          [apply Hnl | apply Hna]; rewrite <- E; auto.
    + destruct (j - length links) as [|k] eqn:E; [|now destruct k].
      injection Hj as <-. assert (j = length links) as -> by lia. fold i.
      split; [exists el | exists ea]; auto.
  - exact Hul.
  - intros x. rewrite link_nodes_app, map_app, in_app_iff. simpl.
    intros [Hx | [<- | [<- | []]]].
    + now apply Hfr.
    + split; [intros ->; now apply Hnl | intros H; now apply Hnl, HsubB].
    + split; [intros ->; now apply Hna | intros H; now apply Hna, HsubB].
  - rewrite link_nodes_app, map_app. simpl. apply List.NoDup_app; [exact Hnd | |].
    + apply List.NoDup_cons; [simpl; intuition|].
      apply List.NoDup_cons; [simpl; tauto | apply List.NoDup_nil].
    + intros x Hx Hx'. simpl in Hx'.
      destruct Hx' as [<- | [<- | []]]; [apply Hnl | apply Hna]; auto.
  - unfold st'. now rewrite (link_added_matching st act i ul B (S d) _ a Hin Hloc).
  - unfold st'. now apply link_added_attached.
Qed.

(** The loop renders the remaining links. *)
Lemma rendered_loop active rounds :
  ToNumber active = Some act ->
  forall st links,
    Spec.rendered B ul d a act st links ->
    exists st' more,
      for_loop rounds (Z.of_nat (length links)) (Spec.link_body active) st = Ok tt st' /\
      length more = rounds /\
      Spec.rendered B ul d a act st' (links ++ more).
Proof.
  intros Hact. induction rounds as [|k IH]; intros st links Hr.
  - exists st, []. simpl. rewrite app_nil_r. auto.
  - destruct (rendered_step active st links Hact Hr) as (st1 & l & Hstep & Hr1).
    destruct (IH st1 (links ++ [l]) Hr1) as (st' & more & Hloop & Hlen & Hr').
    exists st', (l :: more). split; [|split].
    + simpl. unfold bind. rewrite Hstep.
      rewrite length_app in Hloop. simpl in Hloop.
      now replace (Z.of_nat (length links) + 1)%Z
        with (Z.of_nat (length links + 1)) by lia.
    + simpl. now rewrite Hlen.
    + now rewrite <- app_assoc in Hr'.
Qed.

(** What is read from a Spec.rendered page. *)
Lemma rendered_links st links :
  Spec.rendered B ul d a act st links ->
  Spec.page_links st = List.map fst links.
Proof.
  intros Hr. unfold Spec.page_links. rewrite (rendered_query st links Hr).
  unfold kids. rewrite (rendered_locate st links Hr). apply link_nodes_kids.
Qed.

Lemma rendered_anchor st links j l :
  Spec.rendered B ul d a act st links ->
  links !! j = Some l ->
  kids (fst l) (nodes st) = [snd l].
Proof.
  intros (Hn & _ & Hul & Hfr & Hnd & _) Hj.
  apply list_elem_of_lookup_2, list_elem_of_In, in_split in Hj.
  destruct Hj as (l1 & l2 & ->). destruct l as [li an]. simpl fst; simpl snd.
  rewrite link_nodes_app in Hn, Hfr, Hnd. simpl in Hn, Hfr, Hnd.
  assert (nodes st = (B ++ (ul, S d) :: Spec.link_nodes (S (S d)) l1)
                     ++ (li, S (S d)) :: (an, S (S (S d))) :: Spec.link_nodes (S (S d)) l2 ++ a)
    as Hn'.
  { rewrite Hn. rewrite <- ?app_assoc. simpl. rewrite <- ?app_assoc. reflexivity. }
  assert (~ In li (List.map fst (B ++ (ul, S d) :: Spec.link_nodes (S (S d)) l1))) as Hli.
  { assert (In li (List.map fst (Spec.link_nodes (S (S d)) l1
                                 ++ (li, S (S d)) :: (an, S (S (S d)))
                                    :: Spec.link_nodes (S (S d)) l2))) as Hx.
    { rewrite map_app, in_app_iff. right. now left. }
    destruct (Hfr li Hx) as [Hne HnB].
    rewrite map_app, in_app_iff. simpl. intros [H | [H | H]].
    - now apply HnB.
    - now apply Hne.
    - rewrite map_app in Hnd. simpl in Hnd.
      apply List.NoDup_remove_2 in Hnd. apply Hnd, in_or_app. now left. }
  unfold kids. rewrite Hn', (locate_here li _ (S (S d)) _ Hli).
  simpl take_deeper.
  assert (Nat.ltb (S (S d)) (S (S (S d))) = true) as -> by (apply Nat.ltb_lt; lia).
  rewrite take_deeper_link_nodes.
  - simpl. now rewrite Nat.eqb_refl.
  - apply (take_deeper_nil_mono d (S (S d)) a); [lia | exact Ha].
Qed.

Lemma rendered_reads st links j l :
  Spec.rendered B ul d a act st links ->
  links !! j = Some l ->
  Spec.link_label st (fst l) = Ok (VStr (NumberToString (Z.of_nat j + 1))) st /\
  Spec.anchor_class st (fst l) = Ok (VStr (Spec.link_class act (Z.of_nat j))) st.
Proof.
  intros Hr Hj. pose proof (rendered_anchor st links j l Hr Hj) as Hk.
  destruct Hr as (_ & Hst & _).
  destruct (Hst j l Hj) as ((e1 & He1 & _) & (e2 & He2 & Hc & Hh)).
  unfold Spec.link_label, Spec.anchor_class, getValue.
  change (Path.on ">0.innerHTML") with ["children"; "0"; "innerHTML"].
  change (Path.on ">0.className") with ["children"; "0"; "className"].
  split.
  - cbn [reduce]. unfold bind.
    assert (get (VElem (fst l)) "children" st = Ok (VChildren (fst l)) st) as ->.
    { unfold get, with_element. now rewrite He1. }
    assert (get (VChildren (fst l)) "0" st = Ok (VElem (snd l)) st) as ->.
    { unfold get. now rewrite Hk. }
    rewrite (get_attr st (snd l) e2 He2) by discriminate. now rewrite Hh.
  - cbn [reduce]. unfold bind.
    assert (get (VElem (fst l)) "children" st = Ok (VChildren (fst l)) st) as ->.
    { unfold get, with_element. now rewrite He1. }
    assert (get (VChildren (fst l)) "0" st = Ok (VElem (snd l)) st) as ->.
    { unfold get. now rewrite Hk. }
    rewrite (get_attr st (snd l) e2 He2) by discriminate. now rewrite Hc.
Qed.

End Rendered.

Lemma Math_ceil_div_10 n : Math_ceil_div n 10 = (- ((- n) / 10))%Z.
Proof.
  unfold Math_ceil_div, Qround.Qceiling, Qround.Qfloor. simpl.
  rewrite Z.mul_1_r. reflexivity.
Qed.

(** [Math.ceil(n / 10)] is the least number of pages of ten that hold
    [n] items. *)
Lemma Math_ceil_div_10_spec n :
  (10 * (Math_ceil_div n 10 - 1) < n <= 10 * Math_ceil_div n 10)%Z.
Proof. rewrite Math_ceil_div_10. Z.div_mod_to_equations. lia. Qed.

Lemma filter_nil_app {A} (f : A -> bool) xs ys :
  List.filter f (xs ++ ys) = [] -> List.filter f xs = [] /\ List.filter f ys = [].
Proof. rewrite List.filter_app. apply app_eq_nil. Qed.

(** [createPageLinks] on a page with a [.pagination] element and no
    [.list] element: the state it ends in, with its links. *)
Lemma createPageLinks_rendered xs active act pg st :
  ToNumber active = Some act ->
  querySelector ".pagination" st = Ok (VElem pg) st ->
  querySelectorAll ".list" st = Ok [] st ->
  exists st' (links : list (loc * loc)),
    createPageLinks (VArr xs) active st = Ok tt st' /\
    length links = Z.to_nat (Math_ceil_div (Z.of_nat (length xs)) 10) /\
    Spec.page_links st' = List.map fst links /\
    forall j l, links !! j = Some l ->
      Spec.link_label st' (fst l) = Ok (VStr (NumberToString (Z.of_nat j + 1))) st' /\
      Spec.anchor_class st' (fst l) = Ok (VStr (Spec.link_class act (Z.of_nat j))) st'.
Proof.
  intros Hact Hq Hnone.
  destruct (querySelector_found _ _ _ Hq) as (sel & rest & Hsel & Hm).
  assert (In pg (attached (nodes st))) as Hin.
  { apply (matching_attached st sel). rewrite Hm. now left. }
  destruct (locate_attached st pg Hin) as (b & d & below & a & Hp).
  destruct (locate_shape _ _ _ _ _ _ Hp) as (Hf & _ & _ & Ha & _ & _).
  destruct (list_appended st pg b d below a Hq Hp)
    as (Hmk & Hold & (e & Hul & Hcls) & Hfresh & _ & Hatt & Hatt0).
  set (ul := fresh_loc st) in *.
  set (st1 := Spec.with_nodes _ _) in *.
  set (B := b ++ (pg, d) :: below) in *.
  assert (Spec.matching st (ByClass "list") = []) as Hm0.
  { rewrite querySelectorAll_matching in Hnone.
    change (parse_selector ".list") with (Some (ByClass "list")) in Hnone.
    injection Hnone as Hnone. now destruct (Spec.matching st (ByClass "list")). }
  assert (Spec.rendered B ul d a act st1 []) as Hr.
  { split; [|split; [|split; [|split; [|split; [|split]]]]].
    - unfold st1, B. cbn [nodes Spec.with_nodes]. simpl. now rewrite <- app_assoc.
    - intros j l Hj. discriminate.
    - intros H. apply Hfresh. rewrite Hf. fold B.
      replace (b ++ (pg, d) :: below ++ a) with (B ++ a)
        by (unfold B; now rewrite <- app_assoc).
      rewrite map_app. apply in_or_app. now left.
    - intros x [].
    - constructor.
    - unfold Spec.matching. rewrite Hatt, !List.filter_app.
      unfold Spec.matching in Hm0. rewrite Hatt0 in Hm0.
      apply filter_nil_app in Hm0 as [H1 H2].
      assert (forall ys, (forall q, In q ys -> In q (attached (nodes st))) ->
                List.filter (matches st1 (ByClass "list")) ys
                = List.filter (matches st (ByClass "list")) ys) as Hext.
      { intros ys Hys. apply filter_ext_in. intros q Hq'. apply matches_ext, Hold.
        intros ->. apply Hfresh, attached_nodes, Hys, Hq'. }
      assert (matches st1 (ByClass "list") ul = true) as Hmu.
      { unfold matches, attr. rewrite Hul, Hcls. reflexivity. }
      rewrite (Hext (List.map fst B))
        by (intros q Hq'; rewrite Hatt0; apply in_or_app; now left).
      rewrite (Hext (List.map fst match b with
                                  | [] => []
                                  | (_, d0) :: _ => take_deeper d0 a
                                  end))
        by (intros q Hq'; rewrite Hatt0; apply in_or_app; now right).
      rewrite H1, H2. cbn [List.filter app]. now rewrite Hmu.
    - rewrite Hatt, !in_app_iff. right. left. now left. }
  destruct (rendered_loop B ul d a act Ha active
              (Z.to_nat (Math_ceil_div (Z.of_nat (length xs)) 10)) Hact st1 [] Hr)
    as (st' & links & Hloop & Hlen & Hr').
  simpl in Hr'. exists st', links. split; [|split; [exact Hlen|split]].
  - rewrite createPageLinks_unfold. unfold bind. rewrite Hmk. exact Hloop.
  - exact (rendered_links B ul d a act Ha st' links Hr').
  - intros j l Hj. exact (rendered_reads B ul d a act Ha st' links j l Hr' Hj).
Qed.

(** ** The page links

    C2: on a page with a [.pagination] container and no [.list] element,
    [createPageLinks] renders exactly [Math.ceil(n / 10)] page links for
    an array of [n] matched elements, labelled 1, 2, ... in order; that
    number is the least number of pages of ten holding [n] items, and it
    is 0, with no link rendered, when [n] is 0. *)
Theorem createPageLinks_page_count xs active act pg st :
  ToNumber active = Some act ->
  querySelector ".pagination" st = Ok (VElem pg) st ->
  querySelectorAll ".list" st = Ok [] st ->
  let total := Math_ceil_div (Z.of_nat (length xs)) 10 in
  (10 * (total - 1) < Z.of_nat (length xs) <= 10 * total)%Z /\
  exists st',
    createPageLinks (VArr xs) active st = Ok tt st' /\
    Z.of_nat (length (Spec.page_links st')) = total /\
    (forall j li, Spec.page_links st' !! j = Some li ->
       Spec.link_label st' li = Ok (VStr (NumberToString (Z.of_nat j + 1))) st') /\
    (length xs = 0 -> total = 0%Z /\ Spec.page_links st' = []).
Proof.
  intros Hact Hq Hnone total.
  pose proof (Math_ceil_div_10_spec (Z.of_nat (length xs))) as Hceil. fold total in Hceil.
  split; [exact Hceil|].
  destruct (createPageLinks_rendered xs active act pg st Hact Hq Hnone)
    as (st' & links & Hrun & Hlen & Hlinks & Hreads).
  fold total in Hlen.
  exists st'. split; [exact Hrun|]. rewrite Hlinks. split; [|split].
  - rewrite length_map, Hlen. lia.
  - intros j li Hj. rewrite list_lookup_fmap in Hj.
    destruct (links !! j) as [l|] eqn:E; [|discriminate]. injection Hj as <-.
    exact (proj1 (Hreads j l E)).
  - intros H0. rewrite H0 in *. assert (total = 0%Z) as Ht by lia.
    split; [exact Ht|]. rewrite Ht in Hlen. now destruct links.
Qed.

Lemma createPageLinks_page_count_witness :
  ToNumber (VStr "2") = Some (Num 2) /\
  querySelector ".pagination" Spec.sample_paged
  = Ok (VElem Spec.sample_pagination) Spec.sample_paged /\
  querySelectorAll ".list" Spec.sample_paged = Ok [] Spec.sample_paged /\
  exists st',
    createPageLinks (VArr Spec.sample_array) (VStr "2") Spec.sample_paged = Ok tt st' /\
    Z.of_nat (length (Spec.page_links st')) = 2%Z /\
    (forall j li, Spec.page_links st' !! j = Some li ->
       Spec.link_label st' li = Ok (VStr (NumberToString (Z.of_nat j + 1))) st').
Proof.
  assert (ToNumber (VStr "2") = Some (Num 2)) as H1 by reflexivity.
  assert (querySelector ".pagination" Spec.sample_paged
          = Ok (VElem Spec.sample_pagination) Spec.sample_paged) as H2
    by (vm_compute; reflexivity).
  assert (querySelectorAll ".list" Spec.sample_paged = Ok [] Spec.sample_paged) as H3
    by (vm_compute; reflexivity).
  split; [exact H1|]. split; [exact H2|]. split; [exact H3|].
  destruct (createPageLinks_page_count Spec.sample_array _ _ _ _ H1 H2 H3)
    as (_ & st' & Hrun & Hlen & Hlab & _).
  exists st'. auto.
Defined.

(** C3: after [createPageLinks] with an active page that converts to the
    number [act], link [j] carries the class [active] exactly when [act]
    is [j + 1]; so at most one link is active, the link labelled [p] is
    active when [act] is a page [p] between 1 and the number of pages,
    and the label read from a link converts back to the number of its
    page, so a page that arrives as that string marks the same link. *)
Theorem createPageLinks_active_link xs active act pg st :
  ToNumber active = Some act ->
  querySelector ".pagination" st = Ok (VElem pg) st ->
  querySelectorAll ".list" st = Ok [] st ->
  exists st',
    createPageLinks (VArr xs) active st = Ok tt st' /\
    (forall j li, Spec.page_links st' !! j = Some li ->
       Spec.anchor_class st' li
       = Ok (VStr (if num_eqb act (Num (Z.of_nat j + 1)) then "active" else "")) st') /\
    (forall i j li lj,
       Spec.page_links st' !! i = Some li -> Spec.page_links st' !! j = Some lj ->
       Spec.anchor_class st' li = Ok (VStr "active") st' ->
       Spec.anchor_class st' lj = Ok (VStr "active") st' -> i = j) /\
    (forall p,
       act = Num p ->
       (1 <= p <= Math_ceil_div (Z.of_nat (length xs)) 10)%Z ->
       exists li,
         Spec.page_links st' !! Z.to_nat (p - 1) = Some li /\
         Spec.anchor_class st' li = Ok (VStr "active") st' /\
         Spec.link_label st' li = Ok (VStr (NumberToString p)) st') /\
    (forall j li, Spec.page_links st' !! j = Some li ->
       exists label,
         Spec.link_label st' li = Ok (VStr label) st' /\
         ToNumber (VStr label) = Some (Num (Z.of_nat j + 1))).
Proof.
  intros Hact Hq Hnone.
  destruct (createPageLinks_rendered xs active act pg st Hact Hq Hnone)
    as (st' & links & Hrun & Hlen & Hlinks & Hreads).
  exists st'. split; [exact Hrun|]. rewrite Hlinks.
  assert (forall j li, List.map fst links !! j = Some li ->
            Spec.link_label st' li = Ok (VStr (NumberToString (Z.of_nat j + 1))) st' /\
            Spec.anchor_class st' li
            = Ok (VStr (if num_eqb act (Num (Z.of_nat j + 1)) then "active" else "")) st')
    as Hall.
  { intros j li Hj. rewrite list_lookup_fmap in Hj.
    destruct (links !! j) as [l|] eqn:E; [|discriminate]. injection Hj as <-.
    exact (Hreads j l E). }
  split; [|split; [|split]].
  - intros j li Hj. exact (proj2 (Hall j li Hj)).
  - intros i j li lj Hi Hj Hci Hcj.
    rewrite (proj2 (Hall i li Hi)) in Hci. rewrite (proj2 (Hall j lj Hj)) in Hcj.
    destruct act as [z|]; [|discriminate]. simpl in Hci, Hcj.
    destruct (Z.eqb_spec z (Z.of_nat i + 1)); [|discriminate].
    destruct (Z.eqb_spec z (Z.of_nat j + 1)); [|discriminate]. lia.
  - intros p -> Hp.
    assert (Z.to_nat (p - 1) < length (List.map fst links)) as Hlt
      by (rewrite length_map, Hlen; lia).
    destruct (lookup_lt_is_Some_2 _ _ Hlt) as [li Hli].
    exists li. split; [exact Hli|]. destruct (Hall _ li Hli) as [Hlab Hcls].
    replace (Z.of_nat (Z.to_nat (p - 1)) + 1)%Z with p in * by lia.
    split; [|exact Hlab]. rewrite Hcls. simpl. now rewrite Z.eqb_refl.
  - intros j li Hj. eexists. split; [exact (proj1 (Hall j li Hj))|].
    apply label_round_trip. lia.
Qed.

Lemma createPageLinks_active_link_witness :
  ToNumber (VStr "2") = Some (Num 2) /\
  querySelector ".pagination" Spec.sample_paged
  = Ok (VElem Spec.sample_pagination) Spec.sample_paged /\
  querySelectorAll ".list" Spec.sample_paged = Ok [] Spec.sample_paged /\
  exists st',
    createPageLinks (VArr Spec.sample_array) (VStr "2") Spec.sample_paged = Ok tt st' /\
    exists li,
      Spec.page_links st' !! 1%nat = Some li /\
      Spec.anchor_class st' li = Ok (VStr "active") st' /\
      Spec.link_label st' li = Ok (VStr "2") st'.
Proof.
  assert (ToNumber (VStr "2") = Some (Num 2)) as H1 by reflexivity.
  assert (querySelector ".pagination" Spec.sample_paged
          = Ok (VElem Spec.sample_pagination) Spec.sample_paged) as H2
    by (vm_compute; reflexivity).
  assert (querySelectorAll ".list" Spec.sample_paged = Ok [] Spec.sample_paged) as H3
    by (vm_compute; reflexivity).
  split; [exact H1|]. split; [exact H2|]. split; [exact H3|].
  destruct (createPageLinks_active_link Spec.sample_array _ _ _ _ H1 H2 H3)
    as (st' & Hrun & _ & _ & Hone & _).
  exists st'. split; [exact Hrun|].
  apply (Hone 2%Z eq_refl). vm_compute. split; discriminate.
Defined.

(** * The page of students *)

(** ** Restyling a collection *)

Lemma restyle_nodes f ls st :
  nodes (Spec.restyle f ls st) = nodes st /\ listeners (Spec.restyle f ls st) = listeners st.
Proof.
  revert st. induction ls as [|l r IH]; intros st; simpl; [auto|].
  destruct (IH (match elements st !! l with
                | Some e => update st l (f e) | None => st end)) as [-> ->].
  now destruct (elements st !! l).
Qed.

Lemma restyle_other f ls st q :
  ~ In q ls -> elements (Spec.restyle f ls st) !! q = elements st !! q.
Proof.
  revert st. induction ls as [|l r IH]; intros st Hq; simpl; [reflexivity|].
  simpl in Hq. rewrite IH by tauto.
  destruct (elements st !! l); [|reflexivity].
  unfold update; simpl. apply lookup_insert_ne. tauto.
Qed.

Lemma restyle_member f ls st q :
  List.NoDup ls -> In q ls ->
  elements (Spec.restyle f ls st) !! q = f <$> elements st !! q.
Proof.
  revert st. induction ls as [|l r IH]; intros st Hnd Hq; simpl; [contradiction|].
  apply List.NoDup_cons_iff in Hnd as [Hl Hnd]. destruct Hq as [-> | Hq].
  - rewrite restyle_other by exact Hl.
    destruct (elements st !! q) eqn:E; simpl; [apply update_lookup | exact E].
  - rewrite IH by assumption.
    destruct (elements st !! l); [|reflexivity].
    unfold update; simpl. rewrite lookup_insert_ne; [reflexivity|].
    intros ->. contradiction.
Qed.

(** [map] with a callback that rewrites the element it is given. *)
Lemma map_from_restyle (fn : func) (f : element -> element) (P : element -> Prop) :
  (forall st l e rest,
     elements st !! l = Some e -> P e ->
     call fn (VElem l :: rest) st = Ok (VElem l) (update st l (f e))) ->
  forall ls arr i st,
    List.NoDup ls ->
    (forall l, In l ls -> exists e, elements st !! l = Some e /\ P e) ->
    map_from fn arr i (List.map VElem ls) st
    = Ok (List.map VElem ls) (Spec.restyle f ls st).
Proof.
  intros Hfn. induction ls as [|l r IH]; intros arr i st Hnd Hall; [reflexivity|].
  apply List.NoDup_cons_iff in Hnd as [Hl Hnd].
  destruct (Hall l (or_introl eq_refl)) as (e & He & HP).
  cbn [List.map map_from Spec.restyle]. unfold bind.
  rewrite (Hfn st l e _ He HP), He.
  rewrite IH; [reflexivity | exact Hnd |].
  intros q Hq. destruct (Hall q (or_intror Hq)) as (eq_ & Heq & HPq).
  exists eq_. split; [|exact HPq].
  unfold update; simpl. rewrite lookup_insert_ne; [exact Heq|].
  intros ->. contradiction.
Qed.

Lemma show_call st l e rest :
  elements st !! l = Some e ->
  (attrs e !! "$$$display" = None \/ exists s, attrs e !! "$$$display" = Some (VStr s)) ->
  call show_function (VElem l :: rest) st = Ok (VElem l) (update st l (Spec.after_show e)).
Proof.
  intros He Hs. cbn [call show_function arg nth]. unfold Spec.after_show, Spec.stored_string.
  apply show_element; [exact He|].
  destruct Hs as [-> | (s & ->)]; reflexivity.
Qed.

Lemma hide_call st l e rest :
  elements st !! l = Some e -> True ->
  call hide_function (VElem l :: rest) st = Ok (VElem l) (update st l (Spec.after_hide e)).
Proof. intros He _. now apply hide_element. Qed.

(** ** What toggling leaves unchanged *)

Lemma same_content_refl st : Spec.same_content st st.
Proof. split; [reflexivity|]. intros q. now destruct (elements st !! q). Qed.

Lemma same_content_trans st1 st2 st3 :
  Spec.same_content st1 st2 -> Spec.same_content st2 st3 -> Spec.same_content st1 st3.
Proof.
  intros [Hn1 H1] [Hn2 H2]. split; [congruence|]. intros q.
  specialize (H1 q). specialize (H2 q).
  destruct (elements st1 !! q), (elements st2 !! q), (elements st3 !! q);
    try tauto. intros k Hk. rewrite H2, H1; auto.
Qed.

Lemma restyle_same_content f ls st :
  (forall e k, k <> "$$$display" -> attrs (f e) !! k = attrs e !! k) ->
  Spec.same_content st (Spec.restyle f ls st).
Proof.
  intros Hf. revert st. induction ls as [|l r IH]; intros st; [apply same_content_refl|].
  simpl. eapply same_content_trans; [|apply IH].
  destruct (elements st !! l) as [e|] eqn:E; [|apply same_content_refl].
  split; [reflexivity|]. intros q. unfold update; simpl.
  destruct (decide (l = q)) as [<-|Hne].
  - rewrite E, lookup_insert_eq. apply Hf.
  - rewrite lookup_insert_ne by exact Hne. now destruct (elements st !! q).
Qed.

Lemma after_show_attrs e k :
  k <> "$$$display" -> attrs (Spec.after_show e) !! k = attrs e !! k.
Proof. intros Hk. unfold Spec.after_show; simpl. now apply lookup_delete_ne. Qed.

Lemma after_hide_attrs e k :
  k <> "$$$display" -> attrs (Spec.after_hide e) !! k = attrs e !! k.
Proof. intros Hk. unfold Spec.after_hide; simpl. now apply lookup_insert_ne. Qed.

Lemma get_children_eq st l :
  get (VElem l) "children" st
  = match elements st !! l with
    | Some _ => Ok (VChildren l) st
    | None => Unmodelled
    end.
Proof. unfold get, with_element. now destruct (elements st !! l). Qed.

Lemma get_child_eq st l n :
  n = 0 \/ n = 1 ->
  get (VChildren l) (NumberToString (Z.of_nat n)) st
  = Ok (match kids l (nodes st) !! n with
        | Some c => VElem c
        | None => VUndef
        end) st.
Proof.
  intros Hn. unfold get, indexed.
  assert (String.eqb (NumberToString (Z.of_nat n)) "length" = false) as ->
    by (destruct Hn as [-> | ->]; reflexivity).
  assert (key_index (NumberToString (Z.of_nat n)) = Some n) as ->
    by (destruct Hn as [-> | ->]; reflexivity).
  rewrite list_lookup_fmap. now destruct (kids l (nodes st) !! n).
Qed.

Lemma get_attr_eq st l k :
  k <> "style" -> k <> "children" ->
  get (VElem l) k st
  = match elements st !! l with
    | Some e => Ok (default VUndef (attrs e !! k)) st
    | None => Unmodelled
    end.
Proof.
  intros H1 H2. unfold get, with_element.
  apply String.eqb_neq in H1, H2. rewrite H1, H2. now destruct (elements st !! l).
Qed.

(** The name of a student item is read the same in two states with the
    same content. *)
Lemma name_same_content st st' l v :
  Spec.same_content st st' ->
  getValue (VElem l) (Path.on ">0>1.innerHTML") st = Ok v st ->
  getValue (VElem l) (Path.on ">0>1.innerHTML") st' = Ok v st'.
Proof.
  intros [Hn Hc]. unfold getValue.
  change (Path.on ">0>1.innerHTML")
    with ["children"; NumberToString (Z.of_nat 0); "children";
          NumberToString (Z.of_nat 1); "innerHTML"].
  cbn [reduce]. unfold bind.
  rewrite !get_children_eq.
  pose proof (Hc l) as Hl.
  destruct (elements st !! l), (elements st' !! l); try tauto; try discriminate.
  rewrite !get_child_eq by auto. rewrite Hn.
  destruct (kids l (nodes st) !! 0) as [c|]; [|discriminate].
  rewrite !get_children_eq.
  pose proof (Hc c) as Hcc.
  destruct (elements st !! c), (elements st' !! c); try tauto; try discriminate.
  rewrite !get_child_eq by auto. rewrite Hn.
  destruct (kids c (nodes st) !! 1) as [g|]; [|discriminate].
  rewrite !get_attr_eq by discriminate.
  pose proof (Hc g) as Hg.
  destruct (elements st !! g), (elements st' !! g); try tauto; try discriminate.
  rewrite (Hg "innerHTML") by discriminate. unfold ret. congruence.
Qed.

Lemma matching_same_content st st' sel :
  Spec.same_content st st' -> Spec.matching st' sel = Spec.matching st sel.
Proof.
  intros [Hn Hc]. unfold Spec.matching. rewrite Hn. apply filter_ext.
  intros q. unfold matches, attr. specialize (Hc q).
  destruct (elements st !! q), (elements st' !! q); try tauto.
  destruct sel; now rewrite Hc by discriminate.
Qed.

Lemma querySelector_same_content st st' s v :
  Spec.same_content st st' ->
  querySelector s st = Ok v st -> querySelector s st' = Ok v st'.
Proof.
  intros H. rewrite !querySelector_matching.
  destruct (parse_selector s); [|discriminate].
  rewrite (matching_same_content st st' _ H). congruence.
Qed.

(** ** The steps of [makePage] *)

Lemma filter_from_find st names query ls arr i :
  (forall l, In l ls ->
     getValue (VElem l) (Path.on ">0>1.innerHTML") st = Ok (VStr (names l)) st) ->
  filter_from (find [(">0>1.innerHTML", query)]) arr i (List.map VElem ls) st
  = Ok (List.map VElem (List.filter (fun l => Str.includes (names l) query) ls)) st.
Proof.
  revert i. induction ls as [|l r IH]; intros i H; [reflexivity|].
  cbn [List.map filter_from List.filter]. unfold bind.
  change (call (find [(">0>1.innerHTML", query)]) [VElem l; VNumber (Num (Z.of_nat i)); arr])
    with (call (findIt [(">0>1.innerHTML", query)]) [VElem l]).
  rewrite (findIt_some st (VElem l) (fun _ => names l)).
  - rewrite IH by (intros q Hq; apply H; now right).
    cbn [existsb fst snd]. rewrite orb_false_r.
    now destruct (Str.includes (names l) query).
  - intros pr [<- | []]. apply H. now left.
Qed.








(** ** The elements after each step *)



Lemma after_hide_concealed e :
  style (Spec.after_hide e) !! "opacity" = Some (VStr "0") /\
  style (Spec.after_hide e) !! "display" = Some (VStr "none").
Proof.
  unfold Spec.after_hide; simpl. split.
  - rewrite lookup_insert_ne by discriminate. apply lookup_insert_eq.
  - apply lookup_insert_eq.
Qed.


(** ** [then] with the three functions of [makePage] *)

Lemma then_as_map f xs st :
  name f <> "" -> then_method (name f) = "map" ->
  (let* r := then_ (VArr xs) (ActFunction f) in transformed r) st
  = (let* ys := array_map f xs in ret (continueOrEnd (VArr ys) (VArr ys))) st.
Proof.
  intros Hn Hm. unfold then_, bind. apply String.eqb_neq in Hn. rewrite Hn, Hm.
  cbn [negb array_method String.eqb Ascii.eqb Bool.eqb]. cbv iota.
  now destruct (array_map f xs st).
Qed.

Lemma then_as_filter f xs st :
  name f <> "" -> then_method (name f) = "filter" ->
  (let* r := then_ (VArr xs) (ActFunction f) in transformed r) st
  = (let* ys := array_filter f xs in ret (continueOrEnd (VArr ys) (VArr ys))) st.
Proof.
  intros Hn Hm. unfold then_, bind. apply String.eqb_neq in Hn. rewrite Hn, Hm.
  cbn [negb array_method String.eqb Ascii.eqb Bool.eqb]. cbv iota.
  now destruct (array_filter f xs st).
Qed.

Lemma then_show ls st :
  List.NoDup ls ->
  (forall l, In l ls -> exists e, elements st !! l = Some e /\
     (attrs e !! "$$$display" = None \/
      exists s, attrs e !! "$$$display" = Some (VStr s))) ->
  (let* r := then_ (VArr (List.map VElem ls)) (ActFunction show_function) in
   transformed r) st
  = Ok (continueOrEnd (VArr (List.map VElem ls)) (VArr (List.map VElem ls)))
       (Spec.restyle Spec.after_show ls st).
Proof.
  intros Hnd H. rewrite then_as_map by (discriminate || reflexivity).
  unfold bind, array_map.
  now rewrite (map_from_restyle show_function Spec.after_show _ show_call ls _ 0 st Hnd H).
Qed.

Lemma then_hide ls st :
  List.NoDup ls ->
  (forall l, In l ls -> exists e, elements st !! l = Some e) ->
  (let* r := then_ (VArr (List.map VElem ls)) (ActFunction hide_function) in
   transformed r) st
  = Ok (continueOrEnd (VArr (List.map VElem ls)) (VArr (List.map VElem ls)))
       (Spec.restyle Spec.after_hide ls st).
Proof.
  intros Hnd H. rewrite then_as_map by (discriminate || reflexivity).
  unfold bind, array_map.
  rewrite (map_from_restyle hide_function Spec.after_hide (fun _ => True) hide_call ls _ 0 st Hnd);
    [reflexivity|].
  intros l Hl. destruct (H l Hl) as [e He]. now exists e.
Qed.

Lemma then_find ls st names query :
  (forall l, In l ls ->
     getValue (VElem l) (Path.on ">0>1.innerHTML") st = Ok (VStr (names l)) st) ->
  (let* r := then_ (VArr (List.map VElem ls))
               (ActFunction (find [(">0>1.innerHTML", query)])) in
   transformed r) st
  = let ys := List.map VElem
                (List.filter (fun l => Str.includes (names l) query) ls) in
    Ok (continueOrEnd (VArr ys) (VArr ys)) st.
Proof.
  intros H. rewrite then_as_filter by (discriminate || reflexivity).
  unfold bind, array_filter.
  now rewrite (filter_from_find st names query ls _ 0 H).
Qed.


(** ** [makePage] *)

Lemma students_ready_elements st names l :
  Spec.students_ready st names -> In l (Spec.students st) ->
  exists e, elements st !! l = Some e /\ Spec.display_ready e.
Proof. intros [_ H] Hl. now destruct (H l Hl). Qed.

Lemma restyle_defined f ls st q :
  (exists e, elements st !! q = Some e) ->
  exists e, elements (Spec.restyle f ls st) !! q = Some e.
Proof.
  revert st. induction ls as [|l r IH]; intros st H; [exact H|].
  simpl. apply IH. destruct (elements st !! l) as [e|] eqn:E; [|exact H].
  unfold update; simpl. destruct (decide (l = q)) as [<-|Hne].
  - rewrite lookup_insert_eq. eauto.
  - now rewrite lookup_insert_ne.
Qed.





(** * Further properties of the library and of the page controller *)

(** * The helpers of [fquery.js] *)

(** ** [validator] and [selectorValidator] *)

Lemma validator_from bools v acc :
  fold_left (fun first next => first && next v) bools acc
  = acc && forallb (fun p : value -> bool => p v) bools.
Proof.
  revert acc. induction bools as [|p r IH]; intros acc; simpl.
  - now rewrite andb_true_r.
  - now rewrite IH, andb_assoc.
Qed.

(** The function [validator] builds accepts a value exactly when every
    predicate accepts it; built from no predicate, it accepts every
    value; and its predicates can be given in two groups. *)
Theorem validator_accepts_when_all_do bools more v :
  (validator bools v = true <-> Forall (fun p : value -> bool => p v = true) bools) /\
  validator [] v = true /\
  validator (bools ++ more) v = validator bools v && validator more v.
Proof.
  unfold validator. rewrite !validator_from. simpl. split; [|split].
  - rewrite forallb_forall, List.Forall_forall. reflexivity.
  - reflexivity.
  - now rewrite forallb_app.
Qed.

Lemma last_cons {A} (a : A) l d d' : List.last (a :: l) d = List.last (a :: l) d'.
Proof.
  revert a. induction l as [|b l IH]; intros a; [reflexivity|].
  change (List.last (a :: b :: l) d) with (List.last (b :: l) d).
  change (List.last (a :: b :: l) d') with (List.last (b :: l) d').
  apply IH.
Qed.

Lemma selectorValidator_from bools v acc :
  fold_left
    (fun first next => let current := next v in
                       if Path.test current then current else first) bools acc
  = List.last (List.filter Path.test (List.map (fun f : string -> Path.aliasObject => f v) bools)) acc.
Proof.
  revert acc. induction bools as [|f r IH]; intros acc; [reflexivity|].
  cbn [fold_left List.map List.filter]. cbv zeta. rewrite IH.
  destruct (Path.test (f v)) eqn:E; [|reflexivity].
  destruct (List.filter Path.test (List.map (fun f0 : string -> Path.aliasObject => f0 v) r))
    as [|a l]; [reflexivity|].
  change (List.last (f v :: a :: l) acc) with (List.last (a :: l) acc).
  apply last_cons.
Qed.

(** [selectorValidator] gives the result of the last predicate whose test
    holds, and the object [{test: false, alias: ""}] when no test holds;
    so the function [propWrapper] builds hands the property itself to
    the engine when no test holds, and the alias of the last test that
    holds otherwise. *)
Theorem selectorValidator_last_wins {A} (engine : string -> A) tests property :
  let results := List.map (fun f : string -> Path.aliasObject => f property) tests in
  let holding := List.filter Path.test results in
  Path.selectorValidator tests property
  = List.last holding {| Path.test := false; Path.alias := "" |} /\
  Path.propWrapper engine tests property
  = match holding with
    | [] => engine property
    | a :: r => engine (Path.alias (List.last r a))
    end.
Proof.
  cbv zeta. unfold Path.propWrapper, Path.selectorValidator.
  rewrite selectorValidator_from.
  set (holding := List.filter _ _). split; [reflexivity|].
  assert (Forall (fun a => Path.test a = true) holding) as Hall.
  { apply List.Forall_forall. intros a Ha. now apply filter_In in Ha. }
  destruct holding as [|a r]; [reflexivity|].
  assert (Path.test (List.last (a :: r) {| Path.test := false; Path.alias := "" |}) = true) as Ht.
  { revert a Hall. induction r as [|b r IH]; intros a Hall.
    - now inversion Hall.
    - change (List.last (a :: b :: r) ?d) with (List.last (b :: r) d). apply IH.
      now inversion Hall. }
  rewrite Ht. f_equal. f_equal.
  destruct r as [|b r]; [reflexivity|].
  change (List.last (a :: b :: r) ?d) with (List.last (b :: r) d).
  apply last_cons.
Qed.

(** ** [prop] and [on] *)

Lemma split_without_sep sep s :
  Str.contains_char sep s = false -> Str.split sep s = [s].
Proof.
  induction s as [|c r IH]; simpl; [reflexivity|].
  destruct (Ascii.eqb c sep); simpl; [discriminate|].
  intros H. now rewrite (IH H).
Qed.

Lemma split_pieces_without_sep sep s :
  Forall (fun k => Str.contains_char sep k = false) (Str.split sep s).
Proof.
  induction s as [|c r IH]; simpl; [repeat constructor|].
  destruct (Ascii.eqb c sep) eqn:E; [constructor; [reflexivity | exact IH]|].
  destruct (Str.split sep r) as [|k ks]; [constructor; [simpl; now rewrite E | constructor]|].
  inversion IH; subst. constructor; [simpl; now rewrite E | assumption].
Qed.

Lemma prop_one_key k :
  k <> "" -> Str.contains_char "." k = false -> Path.prop k = [k].
Proof.
  intros Hk Hd. unfold Path.prop, Str.dot. rewrite (split_without_sep _ _ Hd).
  simpl. now destruct k.
Qed.

(** The keys [prop] gives are not empty and hold no dot; and [prop] reads
    back a list of such keys that was joined with dots. *)
Theorem prop_reads_joined_keys s keys :
  Forall (fun k => k <> "" /\ Str.contains_char "." k = false) (Path.prop s) /\
  (Forall (fun k => k <> "" /\ Str.contains_char "." k = false) keys ->
   Path.prop (String.concat "." keys) = keys).
Proof.
  split.
  - unfold Path.prop. apply List.Forall_forall. intros k Hk.
    apply List.filter_In in Hk as [Hin Hne]. split; [now destruct k|].
    pose proof (split_pieces_without_sep Str.dot s) as Hall.
    rewrite List.Forall_forall in Hall. exact (Hall k Hin).
  - induction keys as [|k ks IH]; intros Hall; [reflexivity|].
    inversion Hall as [|? ? [Hk Hd] Hks]; subst.
    destruct ks as [|k' ks']; [now apply prop_one_key|].
    change (String.concat "." (k :: k' :: ks'))
      with (k +:+ String "." (String.concat "." (k' :: ks'))).
    rewrite prop_app_dot, (prop_one_key k Hk Hd), (IH Hks). reflexivity.
Qed.

Lemma prop_reads_joined_keys_witness :
  Path.prop (String.concat "." ["children"; "0"; "innerHTML"])
  = ["children"; "0"; "innerHTML"].
Proof.
  apply (proj2 (prop_reads_joined_keys "" ["children"; "0"; "innerHTML"])).
  repeat constructor; discriminate.
Defined.

(** A property name without dot and without [>] is its own path, so
    reading through it is one property read. *)
Theorem on_of_a_property_name name_ x st :
  name_ <> "" ->
  Str.contains_char "." name_ = false -> Str.contains_char ">" name_ = false ->
  Path.on name_ = [name_] /\
  getValue x (Path.on name_) st = get x name_ st.
Proof.
  intros Hn Hd Hg.
  assert (Path.on name_ = [name_]) as ->.
  { rewrite on_unfold, Hg.
    destruct name_ as [|c r]; [congruence|].
    unfold Str.starts_with_char. simpl in Hd.
    destruct (Ascii.eqb c ".") eqn:E; [discriminate|].
    apply prop_one_key; [discriminate|]. simpl. rewrite E. exact Hd. }
  split; [reflexivity|].
  unfold getValue; simpl. unfold bind, ret. now destruct (get x name_ st).
Qed.

Lemma on_of_a_property_name_witness :
  "placeholder" <> "" /\
  Str.contains_char "." "placeholder" = false /\
  Str.contains_char ">" "placeholder" = false /\
  Path.on "placeholder" = ["placeholder"] /\
  getValue VNull (Path.on "placeholder") Host.empty_document
  = get VNull "placeholder" Host.empty_document.
Proof.
  assert ("placeholder" <> "") as H1 by discriminate.
  assert (Str.contains_char "." "placeholder" = false) as H2 by reflexivity.
  assert (Str.contains_char ">" "placeholder" = false) as H3 by reflexivity.
  split; [exact H1|]. split; [exact H2|]. split; [exact H3|].
  exact (on_of_a_property_name "placeholder" VNull Host.empty_document H1 H2 H3).
Defined.

(** ** [then] with a native method name *)

(** [then(array)('slice')(a, b)] with indices that are not negative gives
    the elements from index [a] up to, not including, index [b], as many
    of them as the array has; [then(array)('slice')(-n)] gives the last
    [n] elements; the page is left as it is. *)
Theorem then_slice_segment xs a b n st :
  (0 <= a)%Z -> (0 <= b)%Z -> (0 < n)%Z ->
  (let* r := then_ (VArr xs) (ActString "slice") in
   with_arguments r [VNumber (Num a); VNumber (Num b)]) st
  = (let ys := take (Z.to_nat (b - a)) (drop (Z.to_nat a) xs) in
     Ok (continueOrEnd (VArr ys) (VArr ys)) st) /\
  (let* r := then_ (VArr xs) (ActString "slice") in
   with_arguments r [VNumber (Num (- n))]) st
  = (let ys := drop (length xs - Z.to_nat n) xs in
     Ok (continueOrEnd (VArr ys) (VArr ys)) st).
Proof.
  intros Ha Hb Hn. unfold then_, bind, ret, with_arguments.
  cbn [String.eqb Ascii.eqb Bool.eqb]. cbv iota.
  unfold array_slice, bind, ret. cbn [lookup list_lookup slice_argument lift_option ToNumber].
  unfold ret. cbn [relative_index]. cbv zeta.
  set (len := length xs).
  assert ((a <? 0)%Z = false) as -> by lia.
  assert ((b <? 0)%Z = false) as -> by lia.
  assert ((- n <? 0)%Z = true) as -> by lia.
  assert ((Z.of_nat len <? 0)%Z = false) as -> by lia.
  assert (take (Z.to_nat (Z.min b (Z.of_nat len) - Z.min a (Z.of_nat len)))
            (drop (Z.to_nat (Z.min a (Z.of_nat len))) xs)
          = take (Z.to_nat (b - a)) (drop (Z.to_nat a) xs)) as ->.
  { destruct (Z.le_gt_cases (Z.of_nat len) a) as [Hbig | Hsmall].
    - rewrite !drop_ge by (subst len; lia). now rewrite !take_nil.
    - rewrite (Z.min_l a) by lia.
      destruct (Z.le_gt_cases b (Z.of_nat len)) as [Hin | Hout].
      + now rewrite Z.min_l by lia.
      + rewrite Z.min_r by lia.
        rewrite !take_ge; [reflexivity | |]; rewrite length_drop; subst len; lia. }
  assert (take (Z.to_nat (Z.min (Z.of_nat len) (Z.of_nat len)
                          - Z.max (Z.of_nat len + - n) 0))
            (drop (Z.to_nat (Z.max (Z.of_nat len + - n) 0)) xs)
          = drop (len - Z.to_nat n) xs) as ->.
  { rewrite Z.min_id.
    assert (Z.to_nat (Z.max (Z.of_nat len + - n) 0) = len - Z.to_nat n) as -> by lia.
    apply take_ge. rewrite length_drop. fold len. lia. }
  split; reflexivity.
Qed.

Lemma then_slice_segment_witness :
  (0 <= 10)%Z /\ (0 <= 20)%Z /\ (0 < 2)%Z /\
  (let* r := then_ (VArr Spec.sample_array) (ActString "slice") in
   with_arguments r [VNumber (Num 10); VNumber (Num 20)]) Spec.sample
  = Ok (continueOrEnd (VArr (List.repeat (VElem Spec.sample_item) 2))
          (VArr (List.repeat (VElem Spec.sample_item) 2))) Spec.sample.
Proof.
  assert (0 <= 10)%Z as H1 by lia.
  assert (0 <= 20)%Z as H2 by lia.
  assert (0 < 2)%Z as H3 by lia.
  split; [exact H1|]. split; [exact H2|]. split; [exact H3|].
  exact (proj1 (then_slice_segment Spec.sample_array 10 20 2 Spec.sample H1 H2 H3)).
Defined.

(** ** [find] and [match] at their edges *)

Lemma filter_from_constant f b arr xs i st :
  (forall args s, call f args s = Ok (VBool b) s) ->
  filter_from f arr i xs st = Ok (if b then xs else []) st.
Proof.
  intros Hf. revert i. induction xs as [|x r IH]; intros i.
  - now destruct b.
  - cbn [filter_from]. unfold bind. rewrite Hf, IH. now destruct b.
Qed.

(** With an object without keys, [find] keeps no element and [match]
    keeps every element of the collection, whatever the elements are. *)
Theorem find_and_match_without_keys xs st :
  (let* r := then_ (VArr xs) (ActFunction (find [])) in transformed r) st
  = Ok (continueOrEnd (VArr []) (VArr [])) st /\
  (let* r := then_ (VArr xs) (ActFunction (match_ [])) in transformed r) st
  = Ok (continueOrEnd (VArr xs) (VArr xs)) st.
Proof.
  split; rewrite then_as_filter by (discriminate || reflexivity);
    unfold bind, array_filter.
  - now rewrite (filter_from_constant (find []) false).
  - now rewrite (filter_from_constant (match_ []) true).
Qed.

(** When the first listed property of the element is missing (it reads
    as undefined or null), [find] throws a TypeError where [match]
    rejects the element. *)
Theorem find_throws_where_match_rejects x k v rest u st :
  getValue x (Path.on k) st = Ok u st -> u = VUndef \/ u = VNull ->
  call (findIt ((k, v) :: rest)) [x] st = Throw TypeError /\
  call (matchIt ((k, v) :: rest)) [x] st = Ok (VBool false) st.
Proof.
  intros Hget Hu.
  unfold findIt, matchIt, call, arg; simpl. unfold bind.
  unfold dollar_start, and_, bind. rewrite Hget. simpl.
  destruct Hu as [-> | ->]; split; reflexivity.
Qed.

Lemma find_throws_where_match_rejects_witness :
  getValue (VElem Spec.sample_item) (Path.on "href") Spec.sample = Ok VUndef Spec.sample /\
  call (findIt [("href", "#")]) [VElem Spec.sample_item] Spec.sample = Throw TypeError /\
  call (matchIt [("href", "#")]) [VElem Spec.sample_item] Spec.sample
  = Ok (VBool false) Spec.sample.
Proof.
  assert (getValue (VElem Spec.sample_item) (Path.on "href") Spec.sample
          = Ok VUndef Spec.sample) as H by reflexivity.
  split; [exact H|].
  exact (find_throws_where_match_rejects _ "href" "#" [] VUndef _ H (or_introl eq_refl)).
Defined.

(** [find] stops at the first listed property that contains its value,
    and [match] at the first that differs from its value: the properties
    listed after it are not read. *)
Theorem find_and_match_stop_early x k v rest s st :
  getValue x (Path.on k) st = Ok (VStr s) st ->
  (Str.includes s v = true ->
   call (findIt ((k, v) :: rest)) [x] st = Ok (VBool true) st) /\
  (s <> v ->
   call (matchIt ((k, v) :: rest)) [x] st = Ok (VBool false) st).
Proof.
  intros Hget. split; intros H;
    unfold findIt, matchIt, call, arg; simpl; unfold bind;
    unfold dollar_start, and_, bind; rewrite Hget; simpl.
  - now rewrite H.
  - apply String.eqb_neq in H. now rewrite H.
Qed.

Lemma find_and_match_stop_early_witness :
  getValue (VElem Spec.sample_item) (Path.on "className") Spec.sample
  = Ok (VStr "student-item cf") Spec.sample /\
  call (findIt [("className", "item"); (">9.innerHTML", "x")])
    [VElem Spec.sample_item] Spec.sample = Ok (VBool true) Spec.sample /\
  call (matchIt [("className", "item"); (">9.innerHTML", "x")])
    [VElem Spec.sample_item] Spec.sample = Ok (VBool false) Spec.sample.
Proof.
  assert (getValue (VElem Spec.sample_item) (Path.on "className") Spec.sample
          = Ok (VStr "student-item cf") Spec.sample) as H by reflexivity.
  split; [exact H|].
  destruct (find_and_match_stop_early _ "className" "item" [(">9.innerHTML", "x")] _ _ H)
    as [Hf Hm].
  split; [apply Hf; reflexivity | apply Hm; discriminate].
Defined.

(** ** A verb given to [and] runs twice *)

(** [$(x)(and)(hide)] runs [hide] twice, so the display it stores for
    [show] is none; then [(and)(show)] runs [show] twice, and the element
    ends with opacity 1, an empty inline display and nothing stored: the
    style sheets alone decide its display. *)
Theorem and_hide_then_and_show st l e :
  elements st !! l = Some e ->
  exists e1 e2,
    and_ (VElem l) (Verb hide) st
    = Ok (continueOrEnd (VElem l) (VElem l)) (update st l e1) /\
    attrs e1 !! "$$$display" = Some (VStr "none") /\
    (let* c := and_ (VElem l) (Verb hide) in next c and_ (Verb show)) st
    = Ok (continueOrEnd (VElem l) (VElem l)) (update st l e2) /\
    style e2 !! "opacity" = Some (VStr "1") /\
    style e2 !! "display" = Some (VStr "") /\
    attrs e2 !! "$$$display" = None /\
    computed_display e2 = sheetDisplay e.
Proof.
  intros He.
  set (h1 := Spec.hidden e). set (h2 := Spec.hidden h1).
  set (s1 := Spec.shown h2 (Some "none")). set (s2 := Spec.shown s1 None).
  assert (and_ (VElem l) (Verb hide) st
          = Ok (continueOrEnd (VElem l) (VElem l)) (update st l h2)) as Hh.
  { cbn [and_]. unfold bind. rewrite (hide_element st l e He). cbv beta iota.
    fold h1. rewrite (hide_element _ l h1 (update_lookup st l h1)). cbv beta iota.
    now rewrite update_update. }
  assert (computed_display h1 = "none") as Hc1.
  { unfold computed_display, h1; simpl. now rewrite lookup_insert_eq. }
  assert (attrs h2 !! "$$$display" = Some (VStr "none")) as Hstored.
  { unfold h2; simpl. now rewrite lookup_insert_eq, Hc1. }
  exists h2, s2. split; [exact Hh|]. split; [exact Hstored|].
  split; [|split; [|split; [|split]]].
  - unfold bind at 1. rewrite Hh. cbn [next continuedValue and_]. unfold bind.
    rewrite (show_element _ l h2 (Some "none") (update_lookup st l h2) Hstored).
    cbv beta iota. rewrite update_update. fold s1.
    rewrite (show_element _ l s1 None (update_lookup st l s1)).
    + now rewrite update_update.
    + unfold s1; simpl. apply lookup_delete_eq.
  - unfold s2; simpl. rewrite lookup_insert_ne by discriminate. apply lookup_insert_eq.
  - unfold s2; simpl. apply lookup_insert_eq.
  - unfold s2; simpl. apply lookup_delete_eq.
  - unfold computed_display, s2; simpl. now rewrite lookup_insert_eq.
Qed.

Lemma and_hide_then_and_show_witness :
  elements Spec.sample !! Spec.sample_item = Some Spec.sample_element /\
  exists e2,
    (let* c := and_ (VElem Spec.sample_item) (Verb hide) in next c and_ (Verb show))
      Spec.sample
    = Ok (continueOrEnd (VElem Spec.sample_item) (VElem Spec.sample_item))
         (update Spec.sample Spec.sample_item e2) /\
    style e2 !! "display" = Some (VStr "").
Proof.
  assert (elements Spec.sample !! Spec.sample_item = Some Spec.sample_element) as H
    by reflexivity.
  split; [exact H|].
  destruct (and_hide_then_and_show _ _ _ H) as (e1 & e2 & _ & _ & Hrun & _ & Hd & _).
  exists e2. split; [exact Hrun | exact Hd].
Defined.

(** ** [appendTo] without a parent *)

(** [appendTo] looks its parent up when it is called.  When the selector
    matches nothing the call itself succeeds, and the function it
    returns throws a TypeError on whatever element it is given. *)
Theorem appendTo_without_parent s st :
  querySelector s st = Ok VNull st ->
  exists verb,
    appendTo s st = Ok verb st /\
    forall x st', verb x st' = Throw TypeError.
Proof.
  intros H. unfold appendTo, bind. rewrite H. eexists. split; [reflexivity|].
  intros x st'. reflexivity.
Qed.

Lemma appendTo_without_parent_witness :
  querySelector ".pagination" Spec.sample = Ok VNull Spec.sample /\
  exists verb,
    appendTo ".pagination" Spec.sample = Ok verb Spec.sample /\
    verb (VElem Spec.sample_item) Spec.sample = Throw TypeError.
Proof.
  assert (querySelector ".pagination" Spec.sample = Ok VNull Spec.sample) as H
    by reflexivity.
  split; [exact H|].
  destruct (appendTo_without_parent _ _ H) as (verb & Hv & Ht).
  exists verb. split; [exact Hv | apply Ht].
Defined.

Lemma parse_selector_id s i : parse_selector s = Some (ById i) -> i <> "".
Proof.
  destruct s as [|c r]; [discriminate|]. simpl.
  destruct r as [|x r']; [discriminate|]. simpl.
  destruct (is_name_char x && is_name r'); [|discriminate].
  destruct (Ascii.eqb c "."); [discriminate|].
  destruct (Ascii.eqb c "#"); [|discriminate].
  intros H. injection H as <-. discriminate.
Qed.

Lemma make_and_append_without_parent tag_ c s sel st :
  parse_selector s = Some sel ->
  Spec.matching st sel = [] ->
  Spec.unlike c sel ->
  make_and_append tag_ [("className", c)] s st = Throw TypeError.
Proof.
  intros Hsel Hm Hun. unfold make_and_append, bind.
  rewrite make_with_class. unfold appendTo, bind.
  set (st2 := update _ _ _).
  assert (Spec.matching st2 sel = []) as Hm2.
  { destruct (nodes st) as [|n ns] eqn:E.
    - unfold Spec.matching, st2. cbn [nodes update Spec.created]. rewrite E.
      cbn [app attached take_deeper List.map List.filter].
      assert (matches (update (Spec.created st tag_) (fresh_loc st)
                (with_attrs (new_element tag_)
                   (<["className" := VStr c]> (attrs (new_element tag_)))))
                sel (fresh_loc st) = false) as ->; [|reflexivity].
      unfold matches, attr. rewrite update_lookup. cbn [attrs with_attrs].
      destruct sel as [c' | i].
      + rewrite lookup_insert_eq. exact Hun.
      + rewrite lookup_insert_ne by discriminate.
        rewrite new_element_attr by (simpl; auto). simpl.
        apply parse_selector_id in Hsel. destruct i; [congruence | reflexivity].
    - rewrite <- Hm. apply matching_ext.
      + unfold st2. cbn [nodes update Spec.created].
        apply attached_app_detached. rewrite E. discriminate.
      + intros q Hq. unfold st2. cbn [elements update Spec.created].
        assert (fresh_loc st <> q) by (intros <-; now apply (fresh_loc_nodes st)).
        now rewrite !lookup_insert_ne. }
  rewrite querySelector_matching, Hsel, Hm2. reflexivity.
Qed.

(** ** The page controller without its containers *)

(** [attachPagination] throws a TypeError on a page without a [.page]
    element, [attachSearch] on a page without a [.page-header], and
    [createPageLinks] on a page without a [.pagination]. *)
Theorem containers_are_required array active st :
  (Spec.matching st (ByClass "page") = [] -> attachPagination st = Throw TypeError) /\
  (Spec.matching st (ByClass "page-header") = [] -> attachSearch st = Throw TypeError) /\
  (Spec.matching st (ByClass "pagination") = [] ->
   createPageLinks array active st = Throw TypeError).
Proof.
  split; [|split]; intros H.
  - unfold attachPagination, bind.
    now rewrite (make_and_append_without_parent "div" "pagination" ".page"
                   (ByClass "page") st eq_refl H eq_refl).
  - unfold attachSearch, bind.
    now rewrite (make_and_append_without_parent "div" "student-search" ".page-header"
                   (ByClass "page-header") st eq_refl H eq_refl).
  - unfold createPageLinks, bind.
    now rewrite (make_and_append_without_parent "ul" "list" ".pagination"
                   (ByClass "pagination") st eq_refl H eq_refl).
Qed.

Lemma containers_are_required_witness :
  Spec.matching Spec.sample (ByClass "pagination") = [] /\
  createPageLinks (VArr Spec.sample_array) (VNumber (Num 1)) Spec.sample
  = Throw TypeError.
Proof.
  assert (Spec.matching Spec.sample (ByClass "pagination") = []) as H by reflexivity.
  split; [exact H|].
  exact (proj2 (proj2 (containers_are_required (VArr Spec.sample_array)
                         (VNumber (Num 1)) Spec.sample)) H).
Defined.

(** ** [set] and [make] with property names *)

Lemma with_attrs_same e : with_attrs e (attrs e) = e.
Proof. now destruct e. Qed.

Lemma plain_key_path k : Spec.plain_key k -> Path.on k = [k].
Proof.
  intros (Hn & Hd & Hg & _). rewrite on_unfold, Hg.
  destruct k as [|c r]; [congruence|].
  unfold Str.starts_with_char. simpl in Hd.
  destruct (Ascii.eqb c ".") eqn:E; [discriminate|].
  unfold Path.prop, Str.dot.
  rewrite split_without_sep by (simpl; now rewrite E). reflexivity.
Qed.

Lemma setValue_plain_key st l e k v :
  elements st !! l = Some e -> Spec.plain_key k ->
  exists r,
    setValue v (VElem l) (Path.on k) st
    = Ok r (update st l (with_attrs e (Spec.assign (attrs e) (k, v)))).
Proof.
  intros He Hk. rewrite (plain_key_path k Hk).
  destruct Hk as (_ & _ & _ & Hs & Hc & Hi).
  unfold setValue. rewrite reduce_one. unfold bind.
  rewrite (get_attr st l e He) by assumption.
  unfold Spec.assign. cbn [fst snd].
  assert (forall r : value, Ok r st = Ok r (update st l (with_attrs e (attrs e)))) as Hsame.
  { intros r. rewrite with_attrs_same. f_equal.
    unfold update; destruct st; simpl in *; f_equal.
    symmetry. now apply insert_id. }
  destruct (attrs e !! k) as [u|] eqn:E; [destruct u|];
    cbn [default from_option id validator fold_left isString Js.isString andb];
    cbv beta iota;
    try (rewrite (get_attr st l e He), E by assumption;
         cbn [default from_option id]; unfold ret; eexists; apply Hsame).
  rewrite (put_string_property st l e k v He) by assumption.
  now eexists.
Qed.

Lemma assign_domain m p k : is_Some (Spec.assign m p !! k) <-> is_Some (m !! k).
Proof.
  unfold Spec.assign. destruct (m !! fst p) as [u|] eqn:E; [destruct u|]; try reflexivity.
  destruct (decide (fst p = k)) as [<-|Hne].
  - rewrite lookup_insert_eq, E. split; eauto.
  - now rewrite lookup_insert_ne.
Qed.

Lemma assigned_domain obj m k : is_Some (Spec.assigned obj m !! k) <-> is_Some (m !! k).
Proof.
  revert m. induction obj as [|p r IH]; intros m; [reflexivity|].
  unfold Spec.assigned in *. simpl. rewrite IH. apply assign_domain.
Qed.

Lemma setIt_steps l obj :
  Forall Spec.plain_key (List.map fst obj) ->
  forall st e, elements st !! l = Some e ->
  exists st',
    reduce (fun (_ : unit) (property : PropertyArray) =>
              let* _ := dollar_start and_ (VElem l) (Noun (Path.on (fst property)))
                          (setValue (snd property)) in
              ret tt) obj tt st = Ok tt st' /\
    elements st' = <[l := with_attrs e (Spec.assigned obj (attrs e))]> (elements st) /\
    nodes st' = nodes st /\ listeners st' = listeners st.
Proof.
  induction obj as [|[k v] r IH]; intros Hall st e He.
  - exists st. split; [reflexivity|]. rewrite with_attrs_same.
    split; [|split; reflexivity]. symmetry. now apply insert_id.
  - inversion Hall as [|? ? Hk Hr]; subst.
    destruct (setValue_plain_key st l e k v He Hk) as [x Hx].
    set (e1 := with_attrs e (Spec.assign (attrs e) (k, v))) in *.
    destruct (IH Hr (update st l e1) e1 (update_lookup st l e1))
      as (st' & Hrun & Hel & Hn & Hl).
    exists st'. split; [|split; [|split]].
    + cbn [reduce]. unfold bind at 1. unfold bind at 1.
      cbn [dollar_start and_ fst snd]. unfold bind at 1.
      rewrite Hx. unfold ret at 1. unfold ret at 1. exact Hrun.
    + rewrite Hel. cbn [elements update]. rewrite insert_insert_eq. reflexivity.
    + exact Hn.
    + exact Hl.
Qed.

Lemma setIt_call l obj st :
  call (set_ obj) [VElem l] st
  = (let* _ := reduce (fun (_ : unit) (property : PropertyArray) =>
                 let* _ := dollar_start and_ (VElem l) (Noun (Path.on (fst property)))
                             (setValue (snd property)) in
                 ret tt) obj tt in
     ret (VElem l)) st.
Proof. reflexivity. Qed.

Lemma modelled_keys_plain ks : Forall Spec.modelled_key ks -> Forall Spec.plain_key ks.
Proof.
  intros H. eapply Forall_impl; [exact H|].
  intros k Hk. unfold Spec.modelled_key in Hk. simpl in Hk.
  destruct Hk as [<-|[<-|[<-|[<-|[<-|[]]]]]]; repeat split; discriminate.
Qed.

(** On a [div], [ul], [li] or [input], with keys among [className], [id],
    [title], [placeholder] and [name], [set] overwrites, in the order of
    the object, the properties of the element that hold a string and
    leaves every other key alone: it creates no property, and it touches
    neither the tree nor any other element.  It returns the element. *)
Theorem set_overwrites_strings obj st l e :
  elements st !! l = Some e ->
  Spec.modelled_tag (tag e) ->
  Forall Spec.modelled_key (List.map fst obj) ->
  exists st',
    call (set_ obj) [VElem l] st = Ok (VElem l) st' /\
    elements st' = <[l := with_attrs e (Spec.assigned obj (attrs e))]> (elements st) /\
    nodes st' = nodes st /\
    (forall k, is_Some (Spec.assigned obj (attrs e) !! k) <-> is_Some (attrs e !! k)).
Proof.
  intros He _ Hall. apply modelled_keys_plain in Hall.
  destruct (setIt_steps l obj Hall st e He) as (st' & Hrun & Hel & Hn & _).
  exists st'. split; [|split; [exact Hel|split; [exact Hn|]]].
  - rewrite setIt_call. unfold bind at 1. now rewrite Hrun.
  - intros k. apply assigned_domain.
Qed.

Lemma set_overwrites_strings_witness :
  elements Spec.sample !! Spec.sample_item = Some Spec.sample_element /\
  Spec.modelled_tag (tag Spec.sample_element) /\
  Forall Spec.modelled_key ["className"; "placeholder"] /\
  exists st',
    call (set_ [("className", "student-item match"); ("placeholder", "x")])
      [VElem Spec.sample_item] Spec.sample = Ok (VElem Spec.sample_item) st' /\
    attr st' Spec.sample_item "className" = VStr "student-item match" /\
    attr st' Spec.sample_item "placeholder" = VUndef.
Proof.
  assert (elements Spec.sample !! Spec.sample_item = Some Spec.sample_element) as H
    by reflexivity.
  assert (Spec.modelled_tag (tag Spec.sample_element)) as Ht
    by (right; right; left; reflexivity).
  assert (Forall Spec.modelled_key ["className"; "placeholder"]) as Hk
    by (repeat constructor; unfold Spec.modelled_key; simpl; tauto).
  split; [exact H|]. split; [exact Ht|]. split; [exact Hk|].
  destruct (set_overwrites_strings
              [("className", "student-item match"); ("placeholder", "x")] _ _ _ H Ht Hk)
    as (st' & Hrun & Hel & _).
  exists st'. split; [exact Hrun|].
  unfold attr. rewrite Hel, lookup_insert_eq. split; reflexivity.
Defined.

(** [make] of a [div], [ul], [li] or [input], with keys among
    [className], [id], [title], [placeholder] and [name], gives a new,
    detached element of the tag; each of these five properties reads as
    on a new element with the listed string properties overwritten, so
    one the new element does not have is not created; no other element
    changes. *)
Theorem make_sets_known_properties tag_ obj st :
  Spec.modelled_tag tag_ ->
  Forall Spec.modelled_key (List.map fst obj) ->
  exists st' e',
    make tag_ obj st
    = Ok (continueOrEnd (VElem (fresh_loc st)) (VElem (fresh_loc st))) st' /\
    elements st' = <[fresh_loc st := e']> (elements st) /\
    tag e' = tag_ /\
    nodes st' = nodes st ++ [(fresh_loc st, 0)] /\
    (forall k, Spec.modelled_key k ->
       attrs e' !! k = Spec.assigned obj (attrs (new_element tag_)) !! k) /\
    (forall k, Spec.modelled_key k -> ~ In k (string_properties tag_) ->
       attrs e' !! k = None).
Proof.
  intros _ Hall. apply modelled_keys_plain in Hall.
  destruct (setIt_steps (fresh_loc st) obj Hall (Spec.created st tag_) _
              (created_lookup st tag_)) as (st' & Hrun & Hel & Hn & _).
  exists st', (with_attrs (new_element tag_)
                 (Spec.assigned obj (attrs (new_element tag_)))).
  split; [|split; [|split; [reflexivity|split; [exact Hn|split; [reflexivity|]]]]].
  - unfold make, bind. change (createElement tag_ st)
      with (Ok (VElem (fresh_loc st)) (Spec.created st tag_)).
    cbv beta iota. rewrite setIt_call. unfold bind at 1. now rewrite Hrun.
  - rewrite Hel. cbn [elements Spec.created]. now rewrite insert_insert_eq.
  - intros k _ Hk. cbn [attrs with_attrs].
    apply eq_None_not_Some. rewrite assigned_domain.
    unfold new_element, empty_props. cbn [attrs].
    rewrite <- not_eq_None_Some. intros Hne. apply Hne.
    apply not_elem_of_list_to_map_1. rewrite list_elem_of_In.
    rewrite List.map_map. cbn [fst]. rewrite List.map_id. exact Hk.
Qed.

Lemma make_sets_known_properties_witness :
  Spec.modelled_tag "div" /\
  Forall Spec.modelled_key ["placeholder"; "id"] /\
  exists st',
    make "div" [("placeholder", "Search"); ("id", "search")] Spec.sample
    = Ok (continueOrEnd (VElem (fresh_loc Spec.sample)) (VElem (fresh_loc Spec.sample)))
         st' /\
    attr st' (fresh_loc Spec.sample) "id" = VStr "search" /\
    attr st' (fresh_loc Spec.sample) "placeholder" = VUndef.
Proof.
  assert (Spec.modelled_tag "div") as Ht by (left; reflexivity).
  assert (Forall Spec.modelled_key ["placeholder"; "id"]) as Hk
    by (repeat constructor; unfold Spec.modelled_key; simpl; tauto).
  split; [exact Ht|]. split; [exact Hk|].
  destruct (make_sets_known_properties "div"
              [("placeholder", "Search"); ("id", "search")] Spec.sample Ht Hk)
    as (st' & e' & Hrun & Hel & _ & _ & Hread & _).
  exists st'. split; [exact Hrun|].
  unfold attr. rewrite Hel, lookup_insert_eq.
  rewrite (Hread "id") by (unfold Spec.modelled_key; simpl; tauto).
  rewrite (Hread "placeholder") by (unfold Spec.modelled_key; simpl; tauto).
  split; reflexivity.
Defined.

(** ** [getQuery] *)

Lemma lower_char_twice c : lower_char (lower_char c) = lower_char c.
Proof. destruct c as [[] [] [] [] [] [] [] []]; reflexivity. Qed.

Lemma lower_char_space c : is_space (lower_char c) = is_space c.
Proof. destruct c as [[] [] [] [] [] [] [] []]; reflexivity. Qed.

Lemma toLowerCase_twice s : toLowerCase (toLowerCase s) = toLowerCase s.
Proof.
  induction s as [|c r IH]; simpl; [reflexivity|].
  now rewrite lower_char_twice, IH.
Qed.

Lemma toLowerCase_ltrim s : toLowerCase (ltrim s) = ltrim (toLowerCase s).
Proof.
  induction s as [|c r IH]; simpl; [reflexivity|].
  rewrite lower_char_space. now destruct (is_space c).
Qed.

Lemma toLowerCase_rtrim s : toLowerCase (rtrim s) = rtrim (toLowerCase s).
Proof.
  induction s as [|c r IH]; simpl; [reflexivity|].
  rewrite <- IH, lower_char_space.
  destruct (rtrim r) as [|x r']; simpl; [now destruct (is_space c) | reflexivity].
Qed.

Lemma toLowerCase_trim s : toLowerCase (trim s) = trim (toLowerCase s).
Proof. unfold trim. now rewrite toLowerCase_rtrim, toLowerCase_ltrim. Qed.

Lemma rtrim_twice s : rtrim (rtrim s) = rtrim s.
Proof.
  induction s as [|c r IH]; simpl; [reflexivity|].
  destruct (rtrim r) as [|x r'] eqn:E.
  - destruct (is_space c) eqn:Ec; simpl; [reflexivity | now rewrite Ec].
  - change (rtrim (String c (String x r')))
      with (match rtrim (String x r') with
            | EmptyString => if is_space c then EmptyString else Str.chr c
            | r'' => String c r''
            end).
    now rewrite IH.
Qed.

Lemma ltrim_starts_clean s : Spec.starts_clean (ltrim s).
Proof.
  induction s as [|c r IH]; simpl; [exact I|].
  destruct (is_space c) eqn:E; [exact IH | exact E].
Qed.

Lemma rtrim_starts_clean s : Spec.starts_clean s -> Spec.starts_clean (rtrim s).
Proof.
  destruct s as [|c r]; simpl; [auto|]. intros Hc.
  destruct (rtrim r); simpl; [now rewrite Hc | exact Hc].
Qed.

Lemma ltrim_clean s : Spec.starts_clean s -> ltrim s = s.
Proof. destruct s as [|c r]; simpl; [auto|]. now intros ->. Qed.

Lemma trim_twice s : trim (trim s) = trim s.
Proof.
  unfold trim.
  rewrite (ltrim_clean (rtrim (ltrim s))).
  - apply rtrim_twice.
  - apply rtrim_starts_clean, ltrim_starts_clean.
Qed.

Lemma getQuery_cases st :
  getQuery st =
  match Spec.matching st (ById "search") with
  | [] => Ok "" st
  | q :: _ =>
      match elements st !! q with
      | Some e =>
          match attrs e !! "value" with
          | Some (VStr v) => Ok (trim (toLowerCase v)) st
          | _ => Throw TypeError
          end
      | None => Unmodelled
      end
  end.
Proof.
  assert (querySelector "#search" st
          = Ok (match Spec.matching st (ById "search") with
                | q :: _ => VElem q
                | [] => VNull
                end) st) as Hq
    by (rewrite querySelector_matching; reflexivity).
  unfold getQuery, dollar.
  destruct (Spec.matching st (ById "search")) as [|q rest].
  - unfold bind. rewrite Hq. reflexivity.
  - unfold bind. rewrite Hq. unfold ret. cbn [end_ returnedValue truthy negb]. cbv iota.
    rewrite Hq. cbn [next continuedValue and_]. unfold bind.
    change (Path.on "value") with ["value"].
    unfold getValue. cbn [reduce]. unfold bind, get, with_element.
    destruct (elements st !! q) as [e|]; [|reflexivity].
    cbn [String.eqb Ascii.eqb Bool.eqb]. cbv iota. unfold ret.
    destruct (attrs e !! "value") as [[]|]; reflexivity.
Qed.

Lemma lower_char_ascii c :
  Nat.ltb (nat_of_ascii c) 128 = true -> Nat.ltb (nat_of_ascii (lower_char c)) 128 = true.
Proof. destruct c as [[] [] [] [] [] [] [] []]; intros H; try reflexivity; discriminate H. Qed.

Lemma toLowerCase_ascii s : Spec.ascii_text s = true -> Spec.ascii_text (toLowerCase s) = true.
Proof.
  unfold Spec.ascii_text. induction s as [|c r IH]; simpl; [reflexivity|].
  rewrite !andb_true_iff. intros [Hc Hr]. split; [now apply lower_char_ascii | now apply IH].
Qed.

Lemma ltrim_ascii s : Spec.ascii_text s = true -> Spec.ascii_text (ltrim s) = true.
Proof.
  unfold Spec.ascii_text. induction s as [|c r IH]; simpl; [reflexivity|].
  rewrite andb_true_iff. intros [Hc Hr].
  destruct (is_space c); [now apply IH|]. simpl. now rewrite Hc, Hr.
Qed.

Lemma rtrim_ascii s : Spec.ascii_text s = true -> Spec.ascii_text (rtrim s) = true.
Proof.
  unfold Spec.ascii_text. induction s as [|c r IH]; simpl; [reflexivity|].
  rewrite andb_true_iff. intros [Hc Hr]. specialize (IH Hr).
  destruct (rtrim r) as [|x r'].
  - destruct (is_space c); [reflexivity|]. simpl. now rewrite Hc.
  - simpl in *. now rewrite Hc, IH.
Qed.

Lemma trim_ascii s : Spec.ascii_text s = true -> Spec.ascii_text (trim s) = true.
Proof. intros H. unfold trim. now apply rtrim_ascii, ltrim_ascii. Qed.

(** [getQuery] leaves the page as it is.  It gives the empty string when
    there is no [#search] element; when the value of the first one is
    ASCII text it gives that value in lower case and trimmed, which is
    ASCII text that trimming or lowering the case again does not
    change. *)
Theorem getQuery_is_normalised st :
  (Spec.matching st (ById "search") = [] -> getQuery st = Ok "" st) /\
  (forall box rest e v,
     Spec.matching st (ById "search") = box :: rest ->
     elements st !! box = Some e -> attrs e !! "value" = Some (VStr v) ->
     Spec.ascii_text v = true ->
     exists q,
       getQuery st = Ok q st /\ q = trim (toLowerCase v) /\
       Spec.ascii_text q = true /\ trim q = q /\ toLowerCase q = q) /\
  (forall q st', getQuery st = Ok q st' -> st' = st).
Proof.
  rewrite getQuery_cases. split; [|split].
  - now intros ->.
  - intros box rest e v -> -> -> Hv. eexists. split; [reflexivity|].
    split; [reflexivity|]. split; [|split].
    + now apply trim_ascii, toLowerCase_ascii.
    + apply trim_twice.
    + now rewrite toLowerCase_trim, toLowerCase_twice.
  - intros q st' H.
    destruct (Spec.matching st (ById "search")) as [|x rest].
    + now injection H as <- <-.
    + destruct (elements st !! x) as [e|]; [|discriminate].
      destruct (attrs e !! "value") as [[]|]; try discriminate.
      now injection H as <- <-.
Qed.

Lemma getQuery_is_normalised_witness :
  Spec.matching Spec.sample_typed (ById "search") = [19] /\
  elements Spec.sample_typed !! 19 = Some (Spec.item_at Spec.sample_typed 19) /\
  attrs (Spec.item_at Spec.sample_typed 19) !! "value" = Some (VStr "  AN ") /\
  Spec.ascii_text "  AN " = true /\
  getQuery Spec.sample_typed = Ok "an" Spec.sample_typed.
Proof.
  assert (Spec.matching Spec.sample_typed (ById "search") = [19]) as H1 by reflexivity.
  assert (elements Spec.sample_typed !! 19 = Some (Spec.item_at Spec.sample_typed 19)) as H2
    by reflexivity.
  assert (attrs (Spec.item_at Spec.sample_typed 19) !! "value" = Some (VStr "  AN ")) as H3
    by reflexivity.
  assert (Spec.ascii_text "  AN " = true) as H4 by reflexivity.
  split; [exact H1|]. split; [exact H2|]. split; [exact H3|]. split; [exact H4|].
  destruct (proj1 (proj2 (getQuery_is_normalised Spec.sample_typed)) 19 [] _ _ H1 H2 H3 H4)
    as (q & Hrun & Hq & _).
  rewrite Hq in Hrun. exact Hrun.
Defined.

(** ** Chains that start from nothing *)

(** When the selector matches nothing, [$(selector)] carries null: a verb
    given to [and] throws a TypeError, and so do [getValue] and
    [setValue] on a path that is not empty. *)
Theorem chains_on_nothing_throw s k ks v st :
  querySelector s st = Ok VNull st ->
  (let* c := dollar s in next c and_ (Verb hide)) st = Throw TypeError /\
  (let* c := dollar s in next c and_ (Verb show)) st = Throw TypeError /\
  (let* c := dollar s in next c and_ (Noun (k :: ks)) getValue) st = Throw TypeError /\
  (let* c := dollar s in next c and_ (Noun (k :: ks)) (setValue v)) st
  = Throw TypeError.
Proof.
  intros H. unfold dollar. unfold bind at 1 2. rewrite H.
  split; [|split; [|split]].
  - reflexivity.
  - unfold bind at 1 2. rewrite H. reflexivity.
  - unfold bind at 1 2. rewrite H. reflexivity.
  - unfold bind at 1 2. rewrite H. cbn [ret next continuedValue and_].
    unfold bind. rewrite setValue_step. reflexivity.
Qed.

Lemma chains_on_nothing_throw_witness :
  querySelector "#search" Spec.sample = Ok VNull Spec.sample /\
  (let* c := dollar "#search" in next c and_ (Noun (Path.on "value")) getValue)
    Spec.sample = Throw TypeError.
Proof.
  assert (querySelector "#search" Spec.sample = Ok VNull Spec.sample) as H
    by reflexivity.
  split; [exact H|].
  exact (proj1 (proj2 (proj2 (chains_on_nothing_throw "#search" "value" [] "" _ H)))).
Defined.

(** [pageEvent] removes the [.list] element first: on a page without one
    it throws a TypeError, whatever element the event is for. *)
Theorem pageEvent_needs_a_list this st :
  Spec.matching st (ByClass "list") = [] -> pageEvent this st = Throw TypeError.
Proof.
  intros H. unfold pageEvent, dollar. unfold bind at 1 2.
  rewrite querySelector_matching.
  change (parse_selector ".list") with (Some (ByClass "list")). cbv iota.
  rewrite H. reflexivity.
Qed.

Lemma pageEvent_needs_a_list_witness :
  Spec.matching Spec.sample_paged (ByClass "list") = [] /\
  pageEvent (VElem Spec.sample_item) Spec.sample_paged = Throw TypeError.
Proof.
  assert (Spec.matching Spec.sample_paged (ByClass "list") = []) as H by reflexivity.
  split; [exact H|]. exact (pageEvent_needs_a_list _ _ H).
Defined.

(** ** [then(hide)] and [then(show)] on a collection *)

(** [then(hide)] on a collection of distinct elements hides each of them
    (opacity 0, display none, the computed display stored), keeps the
    collection, and leaves the tree and every other element as they
    are. *)
Theorem then_hide_hides_each ls st :
  List.NoDup ls ->
  (forall l, In l ls -> is_Some (elements st !! l)) ->
  exists st',
    (let* r := then_ (VArr (List.map VElem ls)) (ActFunction hide_function) in
     transformed r) st
    = Ok (continueOrEnd (VArr (List.map VElem ls)) (VArr (List.map VElem ls))) st' /\
    (forall l e, In l ls -> elements st !! l = Some e ->
       elements st' !! l = Some (Spec.hidden e)) /\
    (forall l, In l ls -> Spec.concealed st' l) /\
    (forall q, ~ In q ls -> elements st' !! q = elements st !! q) /\
    nodes st' = nodes st.
Proof.
  intros Hnd Hall. exists (Spec.restyle Spec.after_hide ls st).
  split; [|split; [|split; [|split]]].
  - apply then_hide; [exact Hnd|]. intros l Hl. destruct (Hall l Hl) as [e He]. eauto.
  - intros l e Hl He. rewrite restyle_member by assumption. now rewrite He.
  - intros l Hl. destruct (Hall l Hl) as [e He]. exists (Spec.hidden e). split.
    + rewrite restyle_member by assumption. now rewrite He.
    + apply after_hide_concealed.
  - intros q Hq. now apply restyle_other.
  - apply restyle_nodes.
Qed.

Lemma then_hide_hides_each_witness :
  List.NoDup [5; 9] /\
  (forall l, In l [5; 9] -> is_Some (elements Spec.sample !! l)) /\
  exists st',
    (let* r := then_ (VArr [VElem 5; VElem 9]) (ActFunction hide_function) in
     transformed r) Spec.sample
    = Ok (continueOrEnd (VArr [VElem 5; VElem 9]) (VArr [VElem 5; VElem 9])) st' /\
    Spec.concealed st' 5 /\ Spec.concealed st' 9 /\
    elements st' !! 13 = elements Spec.sample !! 13 /\
    nodes st' = nodes Spec.sample.
Proof.
  assert (List.NoDup [5; 9]) as H1
    by (repeat constructor; simpl; intuition discriminate).
  assert (forall l, In l [5; 9] -> is_Some (elements Spec.sample !! l)) as H2.
  { intros l [<- | [<- | []]].
    - exists (Spec.item_at Spec.sample 5). reflexivity.
    - exists (Spec.item_at Spec.sample 9). reflexivity. }
  split; [exact H1|]. split; [exact H2|].
  destruct (then_hide_hides_each _ _ H1 H2) as (st' & Hrun & _ & Hc & Hother & Hn).
  exists st'. split; [exact Hrun|]. split; [|split; [|split; [|exact Hn]]].
  - apply Hc. now left.
  - apply Hc. right. now left.
  - apply Hother. simpl. intuition discriminate.
Defined.

(** * The page controller from start to end *)

(** * [makePage], [init] and the page they need *)



(** ** A node grafted as the last child *)

Lemma filter_take_deeper_graft dq u p d below n a :
  Forall (Spec.deeper d) below ->
  List.filter (fun e : loc * nat => Nat.eqb (snd e) (S dq))
    (take_deeper dq (u ++ (p, d) :: below ++ (n, S d) :: a))
  = List.filter (fun e : loc * nat => Nat.eqb (snd e) (S dq))
      (take_deeper dq (u ++ (p, d) :: below ++ a)).
Proof.
  intros Hb. induction u as [|[x k] u IH]; cbn [app take_deeper].
  - destruct (Nat.ltb dq d) eqn:E; [|reflexivity].
    apply Nat.ltb_lt in E.
    assert (Forall (Spec.deeper dq) below) as Hb' by (apply (deeper_mono d); [lia | exact Hb]).
    rewrite !(take_deeper_app dq below) by exact Hb'.
    cbn [take_deeper].
    assert (Nat.ltb dq (S d) = true) as -> by (apply Nat.ltb_lt; lia).
    cbn [List.filter]. rewrite !List.filter_app. cbn [List.filter snd].
    assert (Nat.eqb (S d) (S dq) = false) as -> by (apply Nat.eqb_neq; lia).
    reflexivity.
  - destruct (Nat.ltb dq k); [|reflexivity].
    cbn [List.filter]. now rewrite IH.
Qed.

Lemma take_deeper_behind dq w d n a :
  d < dq -> take_deeper d a = [] ->
  take_deeper dq (w ++ (n, S d) :: a) = take_deeper dq (w ++ a).
Proof.
  intros Hd Ha. induction w as [|[x k] w IH]; cbn [app take_deeper].
  - assert (Nat.ltb dq (S d) = false) as -> by (apply Nat.ltb_ge; lia).
    symmetry. apply (take_deeper_nil_mono d dq a); [lia | exact Ha].
  - now rewrite IH.
Qed.

Lemma locate_skip q pre rest :
  ~ In q (List.map fst pre) ->
  locate q (pre ++ rest)
  = match locate q rest with
    | Some (b, d, below, a) => Some (pre ++ b, d, below, a)
    | None => None
    end.
Proof.
  induction pre as [|[x k] pre IH]; cbn [app List.map fst In locate]; intros Hn.
  - now destruct (locate q rest) as [[[[b d] below] a]|].
  - assert (Nat.eqb x q = false) as -> by (apply Nat.eqb_neq; tauto).
    rewrite IH by tauto. now destruct (locate q rest) as [[[[b d] below] a]|].
Qed.

Lemma first_occurrence q (f : forest) :
  In q (List.map fst f) ->
  exists pre dq post, f = pre ++ (q, dq) :: post /\ ~ In q (List.map fst pre).
Proof.
  intros H. destruct (locate_In q f H) as ([[[b d] below] a] & E).
  destruct (locate_Some _ _ _ _ _ _ E) as (r & -> & Hn & _). eauto.
Qed.

(** The children of a node after [n] became the last child of [p]. *)
Lemma kids_graft p f b d below a n q :
  locate p f = Some (b, d, below, a) ->
  q <> n ->
  kids q (b ++ (p, d) :: below ++ (n, S d) :: a)
  = kids q f ++ (if Nat.eqb q p then [n] else []).
Proof.
  intros Hp Hqn.
  destruct (locate_shape _ _ _ _ _ _ Hp) as (-> & Hpb & Hbelow & Ha & _ & _).
  destruct (in_dec Nat.eq_dec q (List.map fst b)) as [Hqb | Hqb].
  - destruct (first_occurrence q b Hqb) as (b1 & dq & r & -> & Hq1).
    assert (Nat.eqb q p = false) as ->.
    { apply Nat.eqb_neq. intros ->. contradiction. }
    rewrite app_nil_r. unfold kids.
    rewrite <- !app_assoc. cbn [app].
    rewrite !(locate_here q b1 dq) by exact Hq1.
    now rewrite filter_take_deeper_graft.
  - destruct (Nat.eq_dec q p) as [-> | Hqp].
    + rewrite Nat.eqb_refl. unfold kids.
      rewrite !(locate_here p b d) by exact Hpb.
      rewrite !(take_deeper_app d below) by exact Hbelow.
      cbn [take_deeper]. assert (Nat.ltb d (S d) = true) as -> by (apply Nat.ltb_lt; lia).
      rewrite Ha, app_nil_r.
      rewrite List.filter_app. cbn [List.filter snd]. rewrite Nat.eqb_refl.
      now rewrite map_app.
    + assert (Nat.eqb q p = false) as -> by now apply Nat.eqb_neq.
      rewrite app_nil_r. unfold kids.
      change (b ++ (p, d) :: below ++ (n, S d) :: a)
        with (b ++ [(p, d)] ++ below ++ (n, S d) :: a).
      change (b ++ (p, d) :: below ++ a) with (b ++ [(p, d)] ++ below ++ a).
      rewrite !(app_assoc b [(p, d)]).
      assert (~ In q (List.map fst (b ++ [(p, d)]))) as Hpre.
      { rewrite map_app, in_app_iff. simpl. intuition. }
      rewrite !(locate_skip q (b ++ [(p, d)])) by exact Hpre.
      destruct (in_dec Nat.eq_dec q (List.map fst below)) as [Hqw | Hqw].
      * destruct (first_occurrence q below Hqw) as (w1 & dq & w2 & -> & Hq1).
        assert (d < dq) as Hd.
        { rewrite List.Forall_forall in Hbelow.
          apply (Hbelow (q, dq)). apply in_or_app. right. now left. }
        rewrite <- !app_assoc. cbn [app].
        rewrite !(locate_here q w1 dq) by exact Hq1.
        now rewrite (take_deeper_behind dq w2 d n a Hd Ha).
      * change (below ++ (n, S d) :: a) with (below ++ [(n, S d)] ++ a).
        rewrite (app_assoc below [(n, S d)]).
        assert (~ In q (List.map fst (below ++ [(n, S d)]))) as Hpre2.
        { rewrite map_app, in_app_iff. simpl. intuition. }
        rewrite (locate_skip q (below ++ [(n, S d)])) by exact Hpre2.
        rewrite (locate_skip q below) by exact Hqw.
        now destruct (locate q a) as [[[[b' d'] below'] a']|].
Qed.

(** ** Pages that grow *)

Lemma grows_refl st : Spec.grows st st.
Proof. split; auto. Qed.

Lemma grows_trans st1 st2 st3 : Spec.grows st1 st2 -> Spec.grows st2 st3 -> Spec.grows st1 st3.
Proof. intros [E1 K1] [E2 K2]. split; eauto. Qed.



Lemma make_plain tag_ obj st :
  Forall Spec.plain_key (List.map fst obj) ->
  exists st2,
    make tag_ obj st
    = Ok (continueOrEnd (VElem (fresh_loc st)) (VElem (fresh_loc st))) st2 /\
    elements st2 = <[fresh_loc st := Spec.made tag_ obj]> (elements st) /\
    nodes st2 = nodes st ++ [(fresh_loc st, 0)] /\
    listeners st2 = listeners st.
Proof.
  intros Hall.
  destruct (setIt_steps (fresh_loc st) obj Hall (Spec.created st tag_) _
              (created_lookup st tag_)) as (st' & Hrun & Hel & Hn & Hl).
  exists st'. split; [|split; [|split; [exact Hn | exact Hl]]].
  - unfold make, bind. change (createElement tag_ st)
      with (Ok (VElem (fresh_loc st)) (Spec.created st tag_)).
    cbv beta iota. rewrite setIt_call. unfold bind at 1. now rewrite Hrun.
  - rewrite Hel. cbn [elements Spec.created]. now rewrite insert_insert_eq.
Qed.

Lemma kids_unknown q (f : forest) : ~ In q (List.map fst f) -> kids q f = [].
Proof.
  intros Hn. unfold kids.
  destruct (locate q f) as [[[[b d] below] a]|] eqn:E; [|reflexivity].
  destruct (locate_Some _ _ _ _ _ _ E) as (r & -> & _).
  exfalso. apply Hn. rewrite map_app, in_app_iff. right. now left.
Qed.

(** [$(make(tag, obj))(and)(appendTo(selector))()] with property names
    for keys: the new element becomes the last child of the first match
    of the selector. *)
Lemma append_step tag_ obj sel st p :
  Forall Spec.plain_key (List.map fst obj) ->
  querySelector sel st = Ok (VElem p) st ->
  exists st1,
    make_and_append tag_ obj sel st = Ok (VElem (fresh_loc st)) st1 /\
    elements st1 = <[fresh_loc st := Spec.made tag_ obj]> (elements st) /\
    listeners st1 = listeners st /\
    (forall q, q <> fresh_loc st ->
       kids q (nodes st1)
       = kids q (nodes st) ++ (if Nat.eqb q p then [fresh_loc st] else [])) /\
    kids (fresh_loc st) (nodes st1) = [] /\
    Spec.grows st st1 /\
    (forall sel', exists m1 m2,
       Spec.matching st sel' = m1 ++ m2 /\
       Spec.matching st1 sel'
       = m1 ++ (if matches st1 sel' (fresh_loc st) then [fresh_loc st] else []) ++ m2).
Proof.
  intros Hall Hq.
  destruct (querySelector_found _ _ _ Hq) as (sl & rest & Hsel & Hm).
  assert (In p (attached (nodes st))) as Hin.
  { apply (matching_attached st sl). rewrite Hm. now left. }
  destruct (locate_attached st p Hin) as (b & d & below & a & Hp).
  destruct (make_plain tag_ obj st Hall) as (st2 & Hmake & Hel & Hn & Hl).
  set (n := fresh_loc st) in *.
  assert (forall q, In q (List.map fst (nodes st)) -> n <> q) as Hfresh.
  { intros q Hq' <-. now apply (fresh_loc_nodes st). }
  pose proof (make_and_append_spec tag_ obj sel st st2 n [] p b d below a
                Hmake Hn (List.Forall_nil _) (fresh_loc_nodes st)) as Hrun.
  cbn [raise List.map app] in Hrun.
  set (st1 := Spec.with_nodes st2 (b ++ (p, d) :: below ++ (n, S d) :: a)) in *.
  assert (forall q, q <> n ->
            kids q (nodes st1) = kids q (nodes st) ++ (if Nat.eqb q p then [n] else []))
    as Hkids.
  { intros q Hqn. cbn [st1 nodes Spec.with_nodes].
    exact (kids_graft p (nodes st) b d below a n q Hp Hqn). }
  exists st1. split; [|split; [exact Hel | split; [exact Hl | split; [exact Hkids | split; [|split]]]]].
  - apply Hrun; [intros x [] | | exact Hq | exact Hp].
    intros q Hq'. rewrite Hel. apply lookup_insert_ne. now apply Hfresh.
  - cbn [st1 nodes Spec.with_nodes]. unfold kids.
    destruct (locate_shape _ _ _ _ _ _ Hp) as (Hf & Hpb & Hbelow & Ha & _ & _).
    assert (~ In n (List.map fst (b ++ (p, d) :: below))) as Hpre.
    { intros Hin'. apply (fresh_loc_nodes st). fold n. rewrite Hf.
      rewrite map_app, in_app_iff in Hin' |- *. cbn [List.map fst In] in Hin' |- *.
      rewrite map_app, in_app_iff. tauto. }
    change (b ++ (p, d) :: below ++ (n, S d) :: a)
      with (b ++ ((p, d) :: below) ++ (n, S d) :: a).
    rewrite app_assoc.
    rewrite (locate_here n (b ++ (p, d) :: below) (S d) a Hpre).
    destruct (take_deeper_nil_mono d (S d) a (Nat.le_succ_diag_r d) Ha) as [-> _].
    reflexivity.
  - split.
    + intros q e He. cbn [st1 elements Spec.with_nodes]. rewrite Hel.
      rewrite lookup_insert_ne; [exact He|].
      intros <-. unfold n in He. now rewrite fresh_loc_fresh in He.
    + intros q i c Hk. cbn [st1 nodes Spec.with_nodes].
      destruct (Nat.eq_dec q n) as [-> | Hqn].
      * rewrite (kids_unknown n (nodes st) (fresh_loc_nodes st)) in Hk. discriminate.
      * rewrite (kids_graft p (nodes st) b d below a n q Hp Hqn).
        now apply lookup_app_l_Some.
  - intros sel'.
    destruct (attached_located p (nodes st) b d below a Hin Hp) as [Hold Hnew].
    specialize (Hnew [(n, S d)]).
    cbn [app List.map fst] in Hnew.
    assert (forall q, In q (attached (nodes st)) ->
              matches st1 sel' q = matches st sel' q) as Hsame.
    { intros q Hq'. apply matches_ext. cbn [st1 elements Spec.with_nodes].
      rewrite Hel. apply lookup_insert_ne. apply Hfresh, attached_nodes, Hq'. }
    set (X := List.map fst (b ++ (p, d) :: below)) in *.
    set (Y := List.map fst (match b with [] => [] | (_, d0) :: _ => take_deeper d0 a end)) in *.
    exists (List.filter (matches st sel') X), (List.filter (matches st sel') Y).
    unfold Spec.matching. cbn [st1 nodes Spec.with_nodes].
    rewrite Hold, Hnew by (repeat constructor; unfold Spec.deeper; simpl; lia).
    rewrite !List.filter_app. split; [reflexivity|].
    cbn [List.filter].
    assert (List.filter (matches st1 sel') X = List.filter (matches st sel') X) as ->.
    { apply filter_ext_in. intros q Hq'. apply Hsame. rewrite Hold, in_app_iff. auto. }
    assert (List.filter (matches st1 sel') Y = List.filter (matches st sel') Y) as ->.
    { apply filter_ext_in. intros q Hq'. apply Hsame. rewrite Hold, in_app_iff. auto. }
    now destruct (matches st1 sel' n).
Qed.

Lemma matches_of_element st sel l e :
  elements st !! l = Some e -> matches st sel l = Spec.matches_element sel e.
Proof. intros He. unfold matches, Spec.matches_element, attr. now rewrite He. Qed.

Lemma querySelector_some s sel st :
  parse_selector s = Some sel -> Spec.matching st sel <> [] ->
  exists q, querySelector s st = Ok (VElem q) st.
Proof.
  intros Hs Hm. rewrite querySelector_matching, Hs.
  destruct (Spec.matching st sel) as [|q r]; [congruence|]. now exists q.
Qed.












(** ** What the two attachments add *)

(** On a page with a [.page] element and no [.pagination] element,
    [attachPagination] adds a new [div] of class [pagination], without
    children, as the last child of the first [.page]; it is then what
    [.pagination] selects, and the elements that were there are
    unchanged. *)
Theorem attachPagination_adds_the_container st pg :
  querySelector ".page" st = Ok (VElem pg) st ->
  Spec.matching st (ByClass "pagination") = [] ->
  exists st' c,
    attachPagination st = Ok tt st' /\
    elements st !! c = None /\
    querySelector ".pagination" st' = Ok (VElem c) st' /\
    (tag <$> elements st' !! c) = Some "div" /\
    kids pg (nodes st') = kids pg (nodes st) ++ [c] /\
    kids c (nodes st') = [] /\
    (forall q e, elements st !! q = Some e -> elements st' !! q = Some e).
Proof.
  intros Hpage Hnone.
  destruct (append_step "div" [("className", "pagination")] ".page" st pg)
    as (st1 & Hrun & Hel & _ & Hkids & Hnew & Hg & Hm);
    [repeat constructor; discriminate | exact Hpage |].
  exists st1, (fresh_loc st).
  split; [unfold attachPagination, bind; now rewrite Hrun|].
  split; [apply fresh_loc_fresh|].
  assert (elements st1 !! fresh_loc st = Some (Spec.made "div" [("className", "pagination")]))
    as He by (rewrite Hel; apply lookup_insert_eq).
  split; [|split; [now rewrite He|split; [|split; [exact Hnew | exact (proj1 Hg)]]]].
  - rewrite querySelector_matching.
    change (parse_selector ".pagination") with (Some (ByClass "pagination")). cbv iota.
    destruct (Hm (ByClass "pagination")) as (m1 & m2 & E1 & ->).
    rewrite Hnone in E1. symmetry in E1. apply app_eq_nil in E1 as [-> ->].
    now rewrite (matches_of_element st1 _ _ _ He).
  - assert (pg <> fresh_loc st) as Hne.
    { intros ->. destruct (querySelector_found _ _ _ Hpage) as (sel & rest & _ & Hmm).
      apply (fresh_loc_nodes st), attached_nodes, (matching_attached st sel).
      rewrite Hmm. now left. }
    rewrite (Hkids pg Hne), Nat.eqb_refl. reflexivity.
Qed.

Lemma attachPagination_adds_the_container_witness :
  querySelector ".page" Spec.sample = Ok (VElem 2) Spec.sample /\
  Spec.matching Spec.sample (ByClass "pagination") = [] /\
  exists st' c,
    attachPagination Spec.sample = Ok tt st' /\
    querySelector ".pagination" st' = Ok (VElem c) st' /\
    kids 2 (nodes st') = kids 2 (nodes Spec.sample) ++ [c].
Proof.
  assert (querySelector ".page" Spec.sample = Ok (VElem 2) Spec.sample) as H1
    by reflexivity.
  assert (Spec.matching Spec.sample (ByClass "pagination") = []) as H2 by reflexivity.
  split; [exact H1|]. split; [exact H2|].
  destruct (attachPagination_adds_the_container _ _ H1 H2)
    as (st' & c & Hrun & _ & Hq & _ & Hk & _).
  exists st', c. auto.
Defined.

(** On a page with a [.page-header] element and no [#search] element,
    [attachSearch] adds a search box: a new [input] that [#search] then
    selects, with the placeholder text and an empty value, and with one
    more listener, for [keyup], registered on it.  [getQuery] then
    gives the empty string, and the elements that were there are
    unchanged. *)
Theorem attachSearch_adds_the_search_box st ph :
  querySelector ".page-header" st = Ok (VElem ph) st ->
  Spec.matching st (ById "search") = [] ->
  exists st' box,
    attachSearch st = Ok tt st' /\
    elements st !! box = None /\
    querySelector "#search" st' = Ok (VElem box) st' /\
    (tag <$> elements st' !! box) = Some "input" /\
    attr st' box "placeholder" = VStr "Search for students..." /\
    attr st' box "value" = VStr "" /\
    listeners st' = listeners st ++ [(box, "keyup")] /\
    getQuery st' = Ok "" st' /\
    (forall q e, elements st !! q = Some e -> elements st' !! q = Some e).
Proof.
  intros Hheader Hnone.
  destruct (append_step "div" [("className", "student-search")] ".page-header" st ph)
    as (st1 & Hrun1 & Hel1 & Hl1 & _ & _ & Hg1 & Hm1);
    [repeat constructor; discriminate | exact Hheader |].
  assert (elements st1 !! fresh_loc st
          = Some (Spec.made "div" [("className", "student-search")])) as He1
    by (rewrite Hel1; apply lookup_insert_eq).
  assert (exists b1, querySelector ".student-search" st1 = Ok (VElem b1) st1) as [b1 Hb1].
  { apply (querySelector_some _ (ByClass "student-search")); [reflexivity|].
    destruct (Hm1 (ByClass "student-search")) as (m1 & m2 & _ & ->).
    rewrite (matches_of_element st1 _ _ _ He1).
    destruct m1; discriminate. }
  assert (Spec.matching st1 (ById "search") = []) as Hnone1.
  { destruct (Hm1 (ById "search")) as (m1 & m2 & E1 & ->).
    rewrite Hnone in E1. symmetry in E1. apply app_eq_nil in E1 as [-> ->].
    now rewrite (matches_of_element st1 _ _ _ He1). }
  destruct (append_step "input"
              [("placeholder", "Search for students..."); ("id", "search")]
              ".student-search" st1 b1)
    as (st2 & Hrun2 & Hel2 & Hl2 & _ & _ & Hg2 & Hm2);
    [repeat constructor; discriminate | exact Hb1 |].
  set (box := fresh_loc st1) in *.
  set (e := Spec.made "input" [("placeholder", "Search for students..."); ("id", "search")]) in *.
  assert (elements st2 !! box = Some e) as He2 by (rewrite Hel2; apply lookup_insert_eq).
  assert (Spec.matching st2 (ById "search") = [box]) as Hbox.
  { destruct (Hm2 (ById "search")) as (m1 & m2 & E1 & ->).
    rewrite Hnone1 in E1. symmetry in E1. apply app_eq_nil in E1 as [-> ->].
    now rewrite (matches_of_element st2 _ _ _ He2). }
  set (st3 := {| elements := elements st2; nodes := nodes st2;
                 listeners := listeners st2 ++ [(box, "keyup")] |}).
  exists st3, box.
  split; [|split; [|split; [|split; [|split; [|split; [|split; [|split]]]]]]].
  - unfold attachSearch, bind. rewrite Hrun1. cbv beta iota. now rewrite Hrun2.
  - destruct (elements st !! box) as [x|] eqn:E; [|reflexivity].
    apply (proj1 Hg1) in E. unfold box in E. now rewrite fresh_loc_fresh in E.
  - rewrite querySelector_matching.
    change (parse_selector "#search") with (Some (ById "search")). cbv iota.
    change (Spec.matching st3 (ById "search")) with (Spec.matching st2 (ById "search")).
    now rewrite Hbox.
  - cbn [st3 elements]. now rewrite He2.
  - unfold attr. cbn [st3 elements]. now rewrite He2.
  - unfold attr. cbn [st3 elements]. now rewrite He2.
  - cbn [st3 listeners]. now rewrite Hl2, Hl1.
  - rewrite getQuery_cases.
    change (Spec.matching st3 (ById "search")) with (Spec.matching st2 (ById "search")).
    rewrite Hbox. cbn [st3 elements]. now rewrite He2.
  - intros q x Hx. cbn [st3 elements]. apply (proj1 Hg2), (proj1 Hg1), Hx.
Qed.

Lemma attachSearch_adds_the_search_box_witness :
  querySelector ".page-header" Spec.sample = Ok (VElem 3) Spec.sample /\
  Spec.matching Spec.sample (ById "search") = [] /\
  exists st' box,
    attachSearch Spec.sample = Ok tt st' /\
    querySelector "#search" st' = Ok (VElem box) st' /\
    getQuery st' = Ok "" st'.
Proof.
  assert (querySelector ".page-header" Spec.sample = Ok (VElem 3) Spec.sample) as H1
    by reflexivity.
  assert (Spec.matching Spec.sample (ById "search") = []) as H2 by reflexivity.
  split; [exact H1|]. split; [exact H2|].
  destruct (attachSearch_adds_the_search_box _ _ H1 H2)
    as (st' & box & Hrun & _ & Hq & _ & _ & _ & _ & Hg & _).
  exists st', box. auto.
Defined.

(** ** [isSetter] *)

(** [isSetter] accepts the string [set] and no other string, and it
    rejects undefined, null, every boolean and every number: none of
    them is loosely equal to [set]. *)
Theorem isSetter_accepts_set_only :
  (forall s, isSetter (VStr s) = Some true <-> s = "set") /\
  (forall s, exists b, isSetter (VStr s) = Some b) /\
  (forall n, isSetter (VNumber n) = Some false) /\
  (forall b, isSetter (VBool b) = Some false) /\
  isSetter VUndef = Some false /\ isSetter VNull = Some false.
Proof.
  unfold isSetter, loose_eq_string.
  change (StringToNumber "set") with (Some NaN).
  split; [|split; [|split; [|split; [|split]]]].
  - intros s. split.
    + intros H. injection H as H. now apply String.eqb_eq in H.
    + intros ->. reflexivity.
  - intros s. eauto.
  - intros n. cbn [ToNumber]. now destruct n.
  - intros b. now destruct b.
  - reflexivity.
  - reflexivity.
Qed.

(** * A click on a page link, a key in the search box *)

(** ** A tree cut out of the forest *)











(** ** The page once the list is removed *)





(** ** Nodes that leave the document and nodes that enter it *)












(** ** [pageEvent] *)











(** * Pages that do not exist *)

Lemma then_slice_nothing {A} (f : A -> value) (xs : list A) n st :
  n = NaN \/ n = Num 0 ->
  (let* r := then_ (VArr (List.map f xs)) (ActString "slice") in
   with_arguments r
     [VNumber (num_mul (num_sub n (Num 1)) (Num 10));
      VNumber (num_mul n (Num 10))]) st
  = Ok (continueOrEnd (VArr []) (VArr [])) st.
Proof.
  intros Hn. unfold then_, bind, ret, with_arguments.
  cbn [String.eqb Ascii.eqb Bool.eqb]. cbv iota.
  unfold array_slice, bind, ret.
  cbn [lookup list_lookup slice_argument lift_option ToNumber]. unfold ret.
  destruct Hn as [-> | ->]; cbn [num_sub num_mul relative_index]; cbv zeta.
  - reflexivity.
  - change ((0 - 1) * 10)%Z with (-10)%Z. change (0 * 10)%Z with 0%Z.
    cbn [Z.ltb Z.compare].
    assert (Z.to_nat (Z.min 0 (Z.of_nat (length (List.map f xs)))
                      - Z.max (Z.of_nat (length (List.map f xs)) + -10) 0) = 0) as ->
      by lia.
    reflexivity.
Qed.

(** [makePage] with a page that converts to 0 or to no number at all
    (so [slice] keeps nothing) runs to its end and hides every student
    item. *)
Theorem makePage_without_a_page query page n pg st names :
  ToNumber page = Some n -> n = NaN \/ n = Num 0 ->
  querySelector ".pagination" st = Ok (VElem pg) st ->
  Spec.students_ready st names ->
  exists st',
    makePage query page st = Ok tt st' /\
    forall l, In l (Spec.students st) -> Spec.concealed st' l.
Proof.
  intros Hpage Hn Hpg Hready. pose proof Hready as [Hnd Hnames].
  set (all := Spec.students st) in *.
  set (st1 := Spec.restyle Spec.after_show all st).
  set (st2 := Spec.restyle Spec.after_hide all st1).
  assert (Spec.same_content st st1) as H1
    by apply (restyle_same_content _ _ _ after_show_attrs).
  assert (Spec.same_content st st2) as H2.
  { eapply same_content_trans; [exact H1|].
    apply (restyle_same_content _ _ _ after_hide_attrs). }
  pose proof (querySelector_same_content _ _ _ _ H2 Hpg) as Hpg2.
  destruct (createPageLinks_runs
              (List.map VElem (Spec.matched st names query)) page n pg st2
              Hpage Hpg2) as (st' & Hrun & Hframe).
  exists st'. split.
  - unfold makePage. unfold bind at 1. rewrite Hpage. cbn [lift_option]. unfold ret at 1.
    unfold bind at 1. unfold dollars, bind at 1.
    rewrite querySelectorAll_matching.
    change (parse_selector ".student-item") with (Some (ByClass "student-item")).
    cbv iota. unfold ret at 1. unfold next, end_. cbn [continuedValue returnedValue].
    change (Spec.matching st (ByClass "student-item")) with all in *.
    unfold bind at 1. rewrite then_show; [|exact Hnd|].
    2:{ intros l Hl. destruct (students_ready_elements st names l Hready Hl)
          as (e & He & [[Hx | (s & Hs & _)] _]); exists e; eauto. }
    fold st1. cbn [continuedValue returnedValue].
    unfold bind at 1. rewrite then_hide; [|exact Hnd|].
    2:{ intros l Hl. apply restyle_defined.
        destruct (students_ready_elements st names l Hready Hl) as (e & He & _); eauto. }
    fold st2. cbn [continuedValue returnedValue].
    unfold bind at 1. rewrite (then_find all st2 names query).
    2:{ intros l Hl. apply (name_same_content st st2 l _ H2). now apply Hnames. }
    cbv zeta. cbn [continuedValue returnedValue].
    unfold bind at 1.
    rewrite (then_slice_nothing VElem _ n st2 Hn). cbn [continuedValue returnedValue].
    fold (Spec.matched st names query).
    unfold bind at 1.
    pose proof (then_show [] st2 (List.NoDup_nil _)) as Hshow.
    cbn [List.map Spec.restyle] in Hshow.
    rewrite Hshow by (intros l []).
    exact Hrun.
  - intros l Hl.
    destruct (students_ready_elements st names l Hready Hl) as (e & He & _).
    exists (Spec.after_hide (Spec.after_show e)). split.
    + apply Hframe. unfold st2, st1. rewrite !restyle_member by assumption.
      now rewrite He.
    + apply after_hide_concealed.
Qed.

Lemma makePage_without_a_page_witness :
  ToNumber (VStr "next") = Some NaN /\
  querySelector ".pagination" Spec.sample_paged
  = Ok (VElem Spec.sample_pagination) Spec.sample_paged /\
  Spec.students_ready Spec.sample_paged (Spec.name_of Spec.sample_paged) /\
  exists st',
    makePage "" (VStr "next") Spec.sample_paged = Ok tt st' /\
    forall l, In l (Spec.students Spec.sample_paged) -> Spec.concealed st' l.
Proof.
  assert (ToNumber (VStr "next") = Some NaN) as H1 by reflexivity.
  assert (querySelector ".pagination" Spec.sample_paged
          = Ok (VElem Spec.sample_pagination) Spec.sample_paged) as H2 by reflexivity.
  assert (Spec.students_ready Spec.sample_paged (Spec.name_of Spec.sample_paged)) as H3.
  { split.
    - vm_compute. repeat constructor; simpl; intuition discriminate.
    - intros l Hl. vm_compute in Hl.
      repeat (destruct Hl as [<- | Hl]; [split;
        [match goal with
         | |- exists e, elements _ !! ?q = _ /\ _ =>
             exists (Spec.item_at Spec.sample_paged q)
         end; split; [reflexivity|];
         split; [left; reflexivity | intros H; vm_compute in H; discriminate]
        | reflexivity] |]).
      contradiction. }
  split; [exact H1|]. split; [exact H2|]. split; [exact H3|].
  exact (makePage_without_a_page "" _ _ _ _ _ H1 (or_introl eq_refl) H2 H3).
Defined.

(** * The listeners of the page links *)

Lemma step_listens B ul d a act active st links :
  take_deeper d a = [] ->
  ToNumber active = Some act ->
  Spec.rendered B ul d a act st links ->
  exists st' l,
    Spec.link_body active (Z.of_nat (length links)) st = Ok tt st' /\
    Spec.rendered B ul d a act st' (links ++ [l]) /\
    listeners st' = listeners st ++ [(fst l, "click")].
Proof.
  intros Ha Hact Hr.
  destruct (rendered_step B ul d a act Ha active st links Hact Hr)
    as (st' & l & Hstep & Hr1).
  pose proof (rendered_locate B ul d a act Ha st links Hr) as Hloc.
  pose proof (rendered_query B ul d a act st links Hr) as Hq.
  pose proof (link_body_step active act (Z.of_nat (length links)) st ul B (S d) _ a
                Hact ltac:(lia) Hq Hloc) as Hstep2.
  rewrite Hstep in Hstep2. injection Hstep2 as Hst'.
  exists st', l. split; [exact Hstep|]. split; [exact Hr1|].
  destruct Hr1 as (Hn & _).
  rewrite Hst' in Hn |- *. cbn [nodes listeners Spec.link_added Spec.made_link] in Hn |- *.
  rewrite link_nodes_app in Hn. cbn [Spec.link_nodes flat_map app] in Hn.
  apply app_inv_head in Hn. injection Hn as Hn.
  rewrite <- app_assoc in Hn. apply app_inv_head in Hn.
  cbn [app] in Hn. injection Hn as Hfst _. now rewrite Hfst.
Qed.

Lemma loop_listens B ul d a act active rounds :
  take_deeper d a = [] ->
  ToNumber active = Some act ->
  forall st links,
    Spec.rendered B ul d a act st links ->
    exists st' more,
      for_loop rounds (Z.of_nat (length links)) (Spec.link_body active) st = Ok tt st' /\
      Spec.rendered B ul d a act st' (links ++ more) /\
      listeners st'
      = listeners st ++ List.map (fun l : loc * loc => (fst l, "click")) more.
Proof.
  intros Ha Hact. induction rounds as [|k IH]; intros st links Hr.
  - exists st, []. simpl. rewrite !app_nil_r. auto.
  - destruct (step_listens B ul d a act active st links Ha Hact Hr)
      as (st1 & l & Hstep & Hr1 & Hl1).
    destruct (IH st1 (links ++ [l]) Hr1) as (st' & more & Hloop & Hr' & Hl').
    exists st', (l :: more). split; [|split].
    + simpl. unfold bind. rewrite Hstep.
      rewrite length_app in Hloop. simpl in Hloop.
      now replace (Z.of_nat (length links) + 1)%Z
        with (Z.of_nat (length links + 1)) by lia.
    + now rewrite <- app_assoc in Hr'.
    + rewrite Hl', Hl1, <- app_assoc. reflexivity.
Qed.

(** On a page with a [.pagination] container and no [.list] element,
    [createPageLinks] registers one click listener on each page link it
    renders, in the order of the links, and no other listener. *)
Theorem createPageLinks_registers_clicks xs active act pg st :
  ToNumber active = Some act ->
  querySelector ".pagination" st = Ok (VElem pg) st ->
  querySelectorAll ".list" st = Ok [] st ->
  exists st',
    createPageLinks (VArr xs) active st = Ok tt st' /\
    listeners st'
    = listeners st ++ List.map (fun li => (li, "click")) (Spec.page_links st').
Proof.
  intros Hact Hq Hnone.
  destruct (querySelector_found _ _ _ Hq) as (sel & rest & Hsel & Hm).
  assert (In pg (attached (nodes st))) as Hin.
  { apply (matching_attached st sel). rewrite Hm. now left. }
  destruct (locate_attached st pg Hin) as (b & d & below & a & Hp).
  destruct (locate_shape _ _ _ _ _ _ Hp) as (Hf & _ & _ & Ha & _ & _).
  destruct (list_appended st pg b d below a Hq Hp)
    as (Hmk & Hold & (e & Hul & Hcls) & Hfresh & _ & Hatt & Hatt0).
  set (ul := fresh_loc st) in *.
  set (st1 := Spec.with_nodes _ _) in *.
  set (B := b ++ (pg, d) :: below) in *.
  assert (Spec.matching st (ByClass "list") = []) as Hm0.
  { rewrite querySelectorAll_matching in Hnone.
    change (parse_selector ".list") with (Some (ByClass "list")) in Hnone.
    injection Hnone as Hnone. now destruct (Spec.matching st (ByClass "list")). }
  assert (Spec.rendered B ul d a act st1 []) as Hr.
  { split; [|split; [|split; [|split; [|split; [|split]]]]].
    - unfold st1, B. cbn [nodes Spec.with_nodes]. simpl. now rewrite <- app_assoc.
    - intros j l Hj. discriminate.
    - intros H. apply Hfresh. rewrite Hf. fold B.
      replace (b ++ (pg, d) :: below ++ a) with (B ++ a)
        by (unfold B; now rewrite <- app_assoc).
      rewrite map_app. apply in_or_app. now left.
    - intros x [].
    - constructor.
    - unfold Spec.matching. rewrite Hatt, !List.filter_app.
      unfold Spec.matching in Hm0. rewrite Hatt0 in Hm0.
      apply filter_nil_app in Hm0 as [H1 H2].
      assert (forall ys, (forall q, In q ys -> In q (attached (nodes st))) ->
                List.filter (matches st1 (ByClass "list")) ys
                = List.filter (matches st (ByClass "list")) ys) as Hext.
      { intros ys Hys. apply filter_ext_in. intros q Hq'. apply matches_ext, Hold.
        intros ->. apply Hfresh, attached_nodes, Hys, Hq'. }
      assert (matches st1 (ByClass "list") ul = true) as Hmu.
      { unfold matches, attr. rewrite Hul, Hcls. reflexivity. }
      rewrite (Hext (List.map fst B))
        by (intros q Hq'; rewrite Hatt0; apply in_or_app; now left).
      rewrite (Hext (List.map fst match b with
                                  | [] => []
                                  | (_, d0) :: _ => take_deeper d0 a
                                  end))
        by (intros q Hq'; rewrite Hatt0; apply in_or_app; now right).
      rewrite H1, H2. cbn [List.filter app]. now rewrite Hmu.
    - rewrite Hatt, !in_app_iff. right. left. now left. }
  destruct (loop_listens B ul d a act active
              (Z.to_nat (Math_ceil_div (Z.of_nat (length xs)) 10)) Ha Hact st1 [] Hr)
    as (st' & links & Hloop & Hr' & Hl).
  simpl in Hr'. exists st'. split.
  - rewrite createPageLinks_unfold. unfold bind. rewrite Hmk. exact Hloop.
  - rewrite Hl, (rendered_links B ul d a act Ha st' links Hr').
    rewrite List.map_map. reflexivity.
Qed.

Lemma createPageLinks_registers_clicks_witness :
  ToNumber (VStr "2") = Some (Num 2) /\
  querySelector ".pagination" Spec.sample_paged
  = Ok (VElem Spec.sample_pagination) Spec.sample_paged /\
  querySelectorAll ".list" Spec.sample_paged = Ok [] Spec.sample_paged /\
  exists st',
    createPageLinks (VArr Spec.sample_array) (VStr "2") Spec.sample_paged = Ok tt st' /\
    listeners st'
    = listeners Spec.sample_paged
      ++ List.map (fun li => (li, "click")) (Spec.page_links st').
Proof.
  assert (ToNumber (VStr "2") = Some (Num 2)) as H1 by reflexivity.
  assert (querySelector ".pagination" Spec.sample_paged
          = Ok (VElem Spec.sample_pagination) Spec.sample_paged) as H2 by reflexivity.
  assert (querySelectorAll ".list" Spec.sample_paged = Ok [] Spec.sample_paged) as H3
    by reflexivity.
  split; [exact H1|]. split; [exact H2|]. split; [exact H3|].
  exact (createPageLinks_registers_clicks Spec.sample_array _ _ _ _ H1 H2 H3).
Defined.

(** * [extend] *)

Lemma round_reads (f : Util.data -> Util.data) (obj2 acc : gmap string Util.data) k :
  map_fold (fun key w (obj1 : gmap string Util.data) => <[key := f w]> obj1) acc obj2 !! k
  = match obj2 !! k with Some w => Some (f w) | None => acc !! k end.
Proof.
  revert k.
  apply (map_fold_weak_ind
           (fun r m => forall k, r !! k = match m !! k with
                                          | Some w => Some (f w)
                                          | None => acc !! k
                                          end)).
  - intros k. now rewrite lookup_empty.
  - intros i x m r Hi IH k. destruct (decide (i = k)) as [->|Hne].
    + now rewrite !lookup_insert_eq.
    + rewrite !lookup_insert_ne by assumption. apply IH.
Qed.

Lemma stored_object o : Util.stored (Util.DObj o) = Util.DObj (Util.extend [o]).
Proof. reflexivity. Qed.

Lemma without_null_object o :
  Util.without_null (Util.DObj o) = true
  <-> forall k w, o !! k = Some w -> Util.without_null w = true.
Proof.
  cbn [Util.without_null].
  apply (map_fold_weak_ind
           (fun r m => r = true
                       <-> forall k w, m !! k = Some w -> Util.without_null w = true)).
  - split; [|reflexivity]. intros _ k w H. now rewrite lookup_empty in H.
  - intros i x m r Hi IH. rewrite andb_true_iff, IH. split.
    + intros [Hx Hm] k w. destruct (decide (i = k)) as [->|Hne].
      * rewrite lookup_insert_eq. now intros [= <-].
      * rewrite lookup_insert_ne by assumption. apply Hm.
    + intros H. split.
      * apply (H i). now rewrite lookup_insert_eq.
      * intros k w Hk. apply (H k). rewrite lookup_insert_ne; [assumption|].
        intros ->. congruence.
Qed.

Lemma depth_sum_lookup o k w :
  o !! k = Some w -> Util.depth_sum w < Util.depth_sum (Util.DObj o).
Proof.
  intros Hk. cbn [Util.depth_sum].
  rewrite (map_fold_delete_L _ _ k w o) by (intros; lia || assumption). lia.
Qed.

(** Induction on the objects nested in a value. *)
Lemma data_nested_ind (P : Util.data -> Prop) :
  (forall v, (forall o k w, v = Util.DObj o -> o !! k = Some w -> P w) -> P v) ->
  forall v, P v.
Proof.
  intros Hstep v.
  assert (forall n v, Util.depth_sum v < n -> P v) as H.
  { induction n as [|n IH]; intros u Hu; [lia|].
    apply Hstep. intros o k w -> Hk. apply IH.
    pose proof (depth_sum_lookup o k w Hk). lia. }
  apply (H (S (Util.depth_sum v))). lia.
Qed.

Lemma stored_without_null v : Util.without_null (Util.stored v) = true.
Proof.
  induction v as [v IH] using data_nested_ind.
  destruct v as [| | | | | |o]; try reflexivity.
  rewrite stored_object. apply without_null_object. intros k w.
  unfold Util.extend. cbn [fold_left]. rewrite round_reads, lookup_empty.
  destruct (o !! k) as [u|] eqn:E; [|discriminate].
  intros [= <-]. exact (IH o k u eq_refl E).
Qed.

Lemma stored_fixes v : Util.without_null v = true -> Util.stored v = v.
Proof.
  induction v as [v IH] using data_nested_ind. intros Hv.
  destruct v as [| | | | | |o]; try reflexivity; [discriminate|].
  rewrite stored_object. f_equal. apply map_eq. intros k.
  unfold Util.extend. cbn [fold_left]. rewrite round_reads, lookup_empty.
  destruct (o !! k) as [u|] eqn:E; [|reflexivity].
  f_equal. apply (IH o k u eq_refl E).
  now apply (proj1 (without_null_object o) Hv k).
Qed.

(** [extend()] is the empty object; and a property of [extend(..., o)]
    reads as what is stored for [o]'s value when [o] has the key, and as
    it does in the result for the arguments before [o] otherwise: the
    last argument that has a key wins. *)
Theorem extend_last_argument_wins args o k :
  Util.extend [] = ∅ /\
  Util.extend (args ++ [o]) !! k
  = match o !! k with
    | Some w => Some (Util.stored w)
    | None => Util.extend args !! k
    end.
Proof.
  split; [reflexivity|].
  unfold Util.extend. rewrite fold_left_app. cbn [fold_left].
  apply round_reads.
Qed.

(** [extend(o)] is equal to [o], property by property and at every depth,
    exactly when no property of [o] and of the objects below it is
    [null]. *)
Theorem extend_copies_without_null o :
  Util.extend [o] = o <-> Util.without_null (Util.DObj o) = true.
Proof.
  split.
  - intros H. rewrite <- H at 1. rewrite <- stored_object. apply stored_without_null.
  - intros H. apply stored_fixes in H. rewrite stored_object in H. now injection H.
Qed.

(** No property of the object [extend] returns is [null], at any depth
    of objects: a [null] of an argument has become an empty object. *)
Theorem extend_leaves_no_null args :
  Util.without_null (Util.DObj (Util.extend args)) = true /\
  forall o k, o !! k = Some Util.DNull ->
    Util.extend (args ++ [o]) !! k = Some (Util.DObj ∅).
Proof.
  split.
  - apply without_null_object. unfold Util.extend.
    assert (forall acc : gmap string Util.data,
               (forall k w, acc !! k = Some w -> Util.without_null w = true) ->
               forall k w,
                 fold_left
                   (fun obj1 obj2 =>
                      map_fold (fun key w (obj1 : gmap string Util.data) =>
                                  <[key := Util.stored w]> obj1) obj1 obj2)
                   args acc !! k = Some w ->
                 Util.without_null w = true) as H.
    { induction args as [|o r IH]; intros acc Hacc; [exact Hacc|].
      cbn [fold_left]. apply IH. intros k w. rewrite round_reads.
      destruct (o !! k) as [u|]; [|apply Hacc].
      intros [= <-]. apply stored_without_null. }
    apply H. intros k w Hk. now rewrite lookup_empty in Hk.
  - intros o k Hk. unfold Util.extend. rewrite fold_left_app. cbn [fold_left].
    now rewrite round_reads, Hk.
Qed.

Lemma extend_leaves_no_null_witness :
  Util.sample_person !! "phone" = Some Util.DNull /\
  Util.without_null (Util.DObj (Util.extend [Util.sample_plain])) = true /\
  Util.extend ([Util.sample_plain] ++ [Util.sample_person]) !! "phone"
  = Some (Util.DObj ∅).
Proof.
  assert (Util.sample_person !! "phone" = Some Util.DNull) as H by reflexivity.
  split; [exact H|].
  destruct (extend_leaves_no_null [Util.sample_plain]) as [H1 H2].
  split; [exact H1|]. exact (H2 Util.sample_person "phone" H).
Defined.
